(** * blob_rebuild: the rule-based sentiment scorer of [src/main.js]

    A shallow embedding of the lexicon normaliser, the fallback lexicon and
    the loader, the tokenizer, the token normaliser, the phrase extractor,
    the diminisher look-ahead, the context-aware scorer, the handler of the
    text box and the render loop, followed by the properties the
    specification states about them and by further properties of the code.

    Modelling choices.
    - A JavaScript string is the list of its UTF-16 code units ([N]).
      [toLowerCase] is exact on Basic Latin and Latin-1 and leaves every
      other code unit alone; [modelled] says of a string that all its code
      units are of that kind (or the curly apostrophe).
    - A JavaScript number is an exact rational ([Q]): the rounding of
      binary64 arithmetic, its infinities and [NaN] are not modelled, so
      numeric results are compared with [==], and bounds on what the
      program computes are stated where rounding leaves them a margin.
    - A plain object used as a table is the association list of its own
      properties in insertion order, and [get] finds own properties only.
      The code reads a table with [obj[key]], which also finds the members
      of [Object.prototype] ([prototypeNames], of which "constructor" can
      be a token): for such a key the scorer counts a hit and adds [NaN],
      and [normalizeLexiconKeys] stores [NaN], where the embedding finds
      nothing.  [plainText] and [plainData] say of a typed text and of a
      parsed lexicon that no such key is met; the properties of texts and
      runs that depend on it carry them as hypotheses.  A [Map] built from
      a literal is the list of its entries.
    - The lexicon has the three keys [anger], [joy], [sad], enumerated in
      that order: the order of the literal that [normalizeLexiconKeys] and
      [buildFallbackLexicon] start from, hence the order in every lexicon
      the scorer and [extractPhrases] are run on.  The keys of the parsed
      file may come in another order, which [normalizeLexiconKeys], working
      emotion by emotion, does not pass on.  [null] is [None].
    - The variables of the module that the handler and the render loop
      read and write are the fields of one record, [App].  What happens to
      them is a list of signals: [loadLexicon] settling with the parsed
      JSON or with a failure, an [input] event with the text of the box,
      and a frame with the clock's value.  The scene, the shaders and the
      renderer are not modelled; the uniforms are, as the numbers the
      frame stores in them. *)

From Stdlib Require Import String Ascii.
From Stdlib Require Import List NArith ZArith QArith Lia Lqa Bool.
From Stdlib Require Import Sorted Permutation.
Import ListNotations.

(* ------------------------------------------------------------------ *)
(** ** Strings *)

(** The string whose code units are the characters of a literal. *)
Definition js (s : string) : list N := map N_of_ascii (list_ascii_of_string s).

Arguments js s%_string_scope.

Module Str.

Definition t := list N.

Fixpoint eqb (a b : t) : bool :=
  match a, b with
  | [], [] => true
  | x :: a', y :: b' => (x =? y)%N && eqb a' b'
  | _, _ => false
  end.

(** [String.prototype.toLowerCase], one code unit at a time. *)
Definition lowerChar (c : N) : N :=
  if ((65 <=? c) && (c <=? 90))%N then (c + 32)%N
  else if ((192 <=? c) && (c <=? 222) && negb (c =? 215))%N then (c + 32)%N
  else c.

Definition toLowerCase (s : t) : t := map lowerChar s.

(** [s.replace(a, b)] for one-unit strings [a] and [b]: the first
    occurrence only. *)
Fixpoint replaceFirst (a b : N) (s : t) : t :=
  match s with
  | [] => []
  | c :: r => if (c =? a)%N then b :: r else c :: replaceFirst a b r
  end.

Definition endsWith (s suf : t) : bool :=
  (length suf <=? length s)%nat && eqb (skipn (length s - length suf) s) suf.

(** [s.slice(0, -k)]. *)
Definition dropLast (k : nat) (s : t) : t := firstn (length s - k) s.

Definition space : N := 32%N.

(** [s.includes(" ")]. *)
Definition hasSpace (s : t) : bool := existsb (N.eqb space) s.

(** [s.split(" ")], with the piece being read in [cur]. *)
Fixpoint splitFrom (cur s : t) : list t :=
  match s with
  | [] => [cur]
  | c :: r => if (c =? space)%N then cur :: splitFrom [] r
              else splitFrom (cur ++ [c]) r
  end.

Definition split (s : t) : list t := splitFrom [] s.

(** [parts.join(" ")]. *)
Fixpoint join (parts : list t) : t :=
  match parts with
  | [] => []
  | [p] => p
  | p :: rest => p ++ space :: join rest
  end.

(** White space and line terminators, as [trim] sees them. *)
Definition isWhite (c : N) : bool :=
  (((9 <=? c) && (c <=? 13)) || (c =? 32) || (c =? 160) || (c =? 5760)
   || ((8192 <=? c) && (c <=? 8202)) || (c =? 8232) || (c =? 8233)
   || (c =? 8239) || (c =? 8287) || (c =? 12288) || (c =? 65279))%N.

Fixpoint trimStart (s : t) : t :=
  match s with
  | [] => []
  | c :: r => if isWhite c then trimStart r else s
  end.

Definition trim (s : t) : t := rev (trimStart (rev (trimStart s))).

(** The class [[a-z']] of the tokenizer's regular expression. *)
Definition isWordChar (c : N) : bool :=
  (((97 <=? c) && (c <=? 122)) || (c =? 39))%N.

Definition flush (cur : t) : list t :=
  match cur with [] => [] | _ => [cur] end.

(** [s.match(/[a-z']+/g) || []]: the maximal runs of word characters, with
    the run being read in [cur]. *)
Fixpoint matchRuns (cur s : t) : list t :=
  match s with
  | [] => flush cur
  | c :: r => if isWordChar c then matchRuns (cur ++ [c]) r
              else flush cur ++ matchRuns [] r
  end.

End Str.

Definition jsstring := Str.t.

(* ------------------------------------------------------------------ *)
(** ** Tables *)

(** An object used as a table from strings to numbers, or the entries of
    a [Map]. *)
Definition table := list (jsstring * Q).

(** [tbl[k]] and [map.get(k)]: [None] is [undefined]. *)
Fixpoint get (tbl : table) (k : jsstring) : option Q :=
  match tbl with
  | [] => None
  | (k', v) :: r => if Str.eqb k' k then Some v else get r k
  end.

(** [tbl[k] = v]: an existing property keeps its place, a new one goes
    last. *)
Fixpoint setKey (k : jsstring) (v : Q) (tbl : table) : table :=
  match tbl with
  | [] => [(k, v)]
  | (k', v') :: r => if Str.eqb k' k then (k', v) :: r
                     else (k', v') :: setKey k v r
  end.

Definition keys (tbl : table) : list jsstring := map fst tbl.

(** [a ?? b]. *)
Definition orElse (a : option Q) (b : Q) : Q :=
  match a with Some v => v | None => b end.

(** [Math.max(a, b)]. *)
Definition Math_max (a b : Q) : Q := if Qle_bool a b then b else a.

Inductive emotion := anger | joy | sad.

Definition emotion_eqb (a b : emotion) : bool :=
  match a, b with
  | anger, anger | joy, joy | sad, sad => true
  | _, _ => false
  end.

Record Lexicon := mkLexicon { lex_anger : table; lex_joy : table; lex_sad : table }.

(** [lexicon[emotion]]. *)
Definition tableOf (lexicon : Lexicon) (e : emotion) : table :=
  match e with
  | anger => lex_anger lexicon
  | joy => lex_joy lexicon
  | sad => lex_sad lexicon
  end.

(** [Object.keys(lexicon)]. *)
Definition emotions : list emotion := [anger; joy; sad].

(* ------------------------------------------------------------------ *)
(** ** Context tables *)

Definition NEGATIONS : list jsstring :=
  [js "not"; js "no"; js "never"; js "dont"; js "can't"; js "cant"; js "won't";
   js "wont"; js "didn't"; js "didnt"; js "isn't"; js "isnt"; js "aren't"; js "arent"].

Definition INTENSIFIERS : table :=
  [(js "very", 1.6); (js "really", 1.4); (js "so", 1.3); (js "extremely", 2.0);
   (js "super", 1.6); (js "incredibly", 2.0); (js "insanely", 2.0)].

Definition DIMINISHERS : table :=
  [(js "kinda", 0.55); (js "kindof", 0.55); (js "sorta", 0.60);
   (js "somewhat", 0.65); (js "slightly", 0.60); (js "little", 0.50);
   (js "a", 1.0); (js "a little", 0.50); (js "a bit", 0.55);
   (js "a little bit", 0.45); (js "kind of", 0.55); (js "sort of", 0.60);
   (js "not that", 0.60); (js "a touch", 0.55); (js "a tad", 0.55)].

(** [NEGATIONS.has(w)]. *)
Definition has (set : list jsstring) (w : jsstring) : bool :=
  existsb (Str.eqb w) set.

(* ------------------------------------------------------------------ *)
(** ** Token normaliser and tokenizer *)

Definition curly : N := 8217%N.
Definition apostrophe : N := 39%N.

(** One line of the contraction block:
    [if (w === a || w === b) w = b]. *)
Definition respell (a b : string) (w : jsstring) : jsstring :=
  if Str.eqb w (js a) || Str.eqb w (js b) then js b else w.

Definition contract (w : jsstring) : jsstring :=
  let w := respell "i'm" "im" w in
  let w := respell "can't" "cant" w in
  let w := respell "won't" "wont" w in
  let w := respell "don't" "dont" w in
  let w := respell "didn't" "didnt" w in
  let w := respell "isn't" "isnt" w in
  let w := respell "aren't" "arent" w in
  w.

(** The guards of the suffix rules. *)
Definition plural (w : jsstring) : bool :=
  (5 <=? length w)%nat && Str.endsWith w (js "s") && negb (Str.endsWith w (js "ss")).

Definition suffixed (n : nat) (suf : string) (w : jsstring) : bool :=
  (n <=? length w)%nat && Str.endsWith w (js suf).

(** One suffix rule: [if (guard) w = w.slice(0, -k)]. *)
Definition rule (guard : jsstring -> bool) (k : nat) (w : jsstring) : jsstring :=
  if guard w then Str.dropLast k w else w.

(** The suffix block, one rule after the other, each on the word as the
    rules before it left it. *)
Definition strip (w : jsstring) : jsstring :=
  let w := rule plural 1 w in
  let w := rule (suffixed 6 "ly") 2 w in
  let w := rule (suffixed 7 "ness") 4 w in
  let w := rule (suffixed 7 "ing") 3 w in
  let w := rule (suffixed 6 "ed") 2 w in
  if suffixed 6 "est" w then Str.dropLast 3 w
  else rule (suffixed 6 "er") 2 w.

Definition normalizeToken (raw : jsstring) : jsstring :=
  match raw with
  | [] => []
  | _ =>
    let w := Str.replaceFirst curly apostrophe (Str.toLowerCase raw) in
    let w := contract w in
    let original := w in
    let w := strip w in
    if (length w <? 2)%nat then original else w
  end.

(** Some suffix rule fires on [w] as it stands. *)
Definition strippable (w : jsstring) : bool :=
  plural w || suffixed 6 "ly" w || suffixed 7 "ness" w || suffixed 7 "ing" w
  || suffixed 6 "ed" w || suffixed 6 "est" w || suffixed 6 "er" w.

(** [w] holds a curly apostrophe, or is a contraction the contraction
    block respells. *)
Definition rewritable (w : jsstring) : bool :=
  existsb (N.eqb curly) w || negb (Str.eqb (contract w) w).

Definition tokenize (text : jsstring) : list jsstring :=
  map normalizeToken (Str.matchRuns [] (Str.toLowerCase text)).


(* ------------------------------------------------------------------ *)
(** ** Lexicon normaliser and phrase extraction *)

(** One turn of the loop over [Object.entries(lexicon[emotion])]. *)
Definition normalizeEntry (out : table) (entry : jsstring * Q) : table :=
  let (rawKey, weight) := entry in
  if Str.hasSpace rawKey then setKey rawKey weight out
  else
    let k1 := Str.toLowerCase rawKey in
    let k2 := normalizeToken k1 in
    let out := setKey k1 (Math_max (orElse (get out k1) 0) weight) out in
    setKey k2 (Math_max (orElse (get out k2) 0) weight) out.

Definition normalizeTable (entries : table) : table :=
  fold_left normalizeEntry entries [].

Definition normalizeLexiconKeys (lexicon : Lexicon) : Lexicon :=
  {| lex_anger := normalizeTable (lex_anger lexicon);
     lex_joy := normalizeTable (lex_joy lexicon);
     lex_sad := normalizeTable (lex_sad lexicon) |}.

Record Phrase := mkPhrase { phrase : jsstring; p_emotion : emotion; p_weight : Q }.

(** The phrase entry of one key; an object holds a key once, so the weight
    read back under the key is the one of the entry. *)
Definition phraseOfEntry (e : emotion) (entry : jsstring * Q) : list Phrase :=
  let (key, w) := entry in
  if Str.hasSpace key
  then [ {| phrase := Str.join (map normalizeToken (Str.split key));
            p_emotion := e; p_weight := w |} ]
  else [].

Definition phrasesOf (lexicon : Lexicon) (e : emotion) : list Phrase :=
  flat_map (phraseOfEntry e) (tableOf lexicon e).

Definition wordCount (p : Phrase) : nat := length (Str.split (phrase p)).

(** [Array.prototype.sort] is stable; the comparator
    [b.phrase.split(" ").length - a.phrase.split(" ").length] puts [a]
    before [b] when [a] has more words. *)
Fixpoint insertPhrase (x : Phrase) (sorted : list Phrase) : list Phrase :=
  match sorted with
  | [] => [x]
  | y :: r => if (wordCount x <=? wordCount y)%nat then y :: insertPhrase x r
              else x :: sorted
  end.

Definition sortPhrases (l : list Phrase) : list Phrase :=
  fold_left (fun acc x => insertPhrase x acc) l [].

Definition extractPhrases (lexicon : Lexicon) : list Phrase :=
  sortPhrases (flat_map (phrasesOf lexicon) emotions).

(* ------------------------------------------------------------------ *)
(** ** Diminisher look-ahead *)

(** [a ?? b] where [b] may be [undefined] too. *)
Definition orElseO (a b : option Q) : option Q :=
  match a with Some _ => a | None => b end.

(** [words[i] || ""]. *)
Definition wordOr (words : list jsstring) (i : nat) : jsstring := nth i words [].

Definition getPostDiminisher (words : list jsstring) (i : nat) : Q :=
  let next := wordOr words (i + 1) in
  let next2 := wordOr words (i + 2) in
  let next3 := wordOr words (i + 3) in
  let next4 := wordOr words (i + 4) in
  let after2 := Str.trim (next ++ Str.space :: next2) in
  let after3 := Str.trim (next ++ Str.space :: next2 ++ Str.space :: next3) in
  let after4 := Str.trim (next ++ Str.space :: next2 ++ Str.space :: next3
                               ++ Str.space :: next4) in
  orElse (orElseO (get DIMINISHERS after4)
         (orElseO (get DIMINISHERS after3)
         (orElseO (get DIMINISHERS after2)
                  (get DIMINISHERS next)))) 1.0.

(* ------------------------------------------------------------------ *)
(** ** Context-aware scorer *)

Record Scores := mkScores { sc_anger : Q; sc_joy : Q; sc_sad : Q }.

Definition scoreOf (s : Scores) (e : emotion) : Q :=
  match e with anger => sc_anger s | joy => sc_joy s | sad => sc_sad s end.

(** [scores[e] += w]. *)
Definition addScore (s : Scores) (e : emotion) (w : Q) : Scores :=
  match e with
  | anger => {| sc_anger := sc_anger s + w; sc_joy := sc_joy s; sc_sad := sc_sad s |}
  | joy => {| sc_anger := sc_anger s; sc_joy := sc_joy s + w; sc_sad := sc_sad s |}
  | sad => {| sc_anger := sc_anger s; sc_joy := sc_joy s; sc_sad := sc_sad s + w |}
  end.

Record Result := mkResult
  { res_anger : Q; res_joy : Q; res_sad : Q; res_hits : nat; totalWords : nat }.

(** One match as the loop applies it.  The list of them is a history
    variable: the source keeps no such list, and nothing below reads it to
    compute a score. *)
Record Event := mkEvent
  { ev_idx : nat;          (* start index of the match *)
    ev_len : nat;          (* words of the phrase, 1 for a single word *)
    ev_emotion : emotion;
    ev_weight : Q;         (* weight found in the lexicon or phrase entry *)
    ev_value : Q }.        (* what was added to the emotion's total *)

Record LoopState := mkLoop
  { scores : Scores; hits : nat; used : list bool; history : list Event }.

(** [words[z] || ""] for an index that may be negative. *)
Definition wordAt (words : list jsstring) (z : Z) : jsstring :=
  if (z <? 0)%Z then [] else nth (Z.to_nat z) words [].

Definition isContrast (w : jsstring) : bool :=
  Str.eqb w (js "but") || Str.eqb w (js "however") || Str.eqb w (js "though").

(** [words.findIndex(f)], counting from [i]; [-1] when there is none. *)
Fixpoint findIndexFrom (f : jsstring -> bool) (i : Z) (l : list jsstring) : Z :=
  match l with
  | [] => (-1)%Z
  | w :: r => if f w then i else findIndexFrom f (i + 1)%Z r
  end.

Definition findIndex (f : jsstring -> bool) (l : list jsstring) : Z :=
  findIndexFrom f 0%Z l.

Definition contrastBoost : Q := 1.6.

(** [contrastIdx !== -1 && i > contrastIdx]. *)
Definition afterPivot (contrastIdx : Z) (i : nat) : bool :=
  negb (contrastIdx =? -1)%Z && (contrastIdx <? Z.of_nat i)%Z.

Section Scorer.

(** The diminisher table the look-back reads; the program's is
    [DIMINISHERS]. *)
Variable dim : table.

Definition isNegatedAt (words : list jsstring) (i : nat) : bool :=
  has NEGATIONS (wordAt words (Z.of_nat i - 1))
  || has NEGATIONS (wordAt words (Z.of_nat i - 2)).

Definition intensityAt (words : list jsstring) (i : nat) : Q :=
  orElse (orElseO (get INTENSIFIERS (wordAt words (Z.of_nat i - 1)))
                  (get INTENSIFIERS (wordAt words (Z.of_nat i - 2)))) 1.0.

Definition softenAt (words : list jsstring) (i : nat) : Q :=
  orElse (orElseO (get dim (wordAt words (Z.of_nat i - 1)))
                  (get dim (wordAt words (Z.of_nat i - 2)))) 1.0.

(** The block both branches of the loop repeat: look back one and two
    words for modifiers, then contrast, then negation. *)
Definition contribution (words : list jsstring) (contrastIdx : Z)
    (i : nat) (weight : Q) : Q :=
  let w := weight * intensityAt words i * softenAt words i in
  let w := if afterPivot contrastIdx i then w * contrastBoost else w in
  let w := if isNegatedAt words i then w * -0.8 else w in
  w.

(** The inner loop over [k]: [words[i + k] !== parts[k]] ends it. *)
Fixpoint partsMatch (words : list jsstring) (i : nat) (parts : list jsstring) : bool :=
  match parts with
  | [] => true
  | p :: r =>
    match nth_error words i with
    | Some w => Str.eqb w p && partsMatch words (S i) r
    | None => false
    end
  end.

(** The loop over [phrases], left at the first match with the entry and
    its [len]. *)
Fixpoint findPhrase (phrases : list Phrase) (words : list jsstring) (i : nat)
    : option (Phrase * nat) :=
  match phrases with
  | [] => None
  | p :: rest =>
    let parts := Str.split (phrase p) in
    if partsMatch words i parts then Some (p, length parts)
    else findPhrase rest words i
  end.

(** [used[n] = true]; an index past the end would lengthen the array. *)
Fixpoint setUsed (l : list bool) (n : nat) : list bool :=
  match n, l with
  | O, [] => [true]
  | O, _ :: r => true :: r
  | S n', [] => false :: setUsed [] n'
  | S n', b :: r => b :: setUsed r n'
  end.

(** [for (k = 0; k < len; k++) used[i + k] = true]. *)
Fixpoint markUsed (l : list bool) (i len : nat) : list bool :=
  match len with
  | O => l
  | S len' => markUsed (setUsed l i) (S i) len'
  end.

Definition applyHit (words : list jsstring) (contrastIdx : Z) (i : nat)
    (len : nat) (e : emotion) (weight : Q) (st : LoopState) : LoopState :=
  let w := contribution words contrastIdx i weight in
  {| scores := addScore (scores st) e w;
     hits := S (hits st);
     used := used st;
     history := history st ++ [mkEvent i len e weight w] |}.

(** The loop over [Object.keys(lexicon)] for the word at [i]. *)
Definition wordStep (words : list jsstring) (lexicon : Lexicon)
    (contrastIdx : Z) (i : nat) (st : LoopState) (e : emotion) : LoopState :=
  match get (tableOf lexicon e) (wordOr words i) with
  | Some weightFromLexicon =>
      applyHit words contrastIdx i 1 e weightFromLexicon st
  | None => st
  end.

(** The body of the loop over [i]. *)
Definition iteration (words : list jsstring) (lexicon : Lexicon)
    (phrases : list Phrase) (contrastIdx : Z) (st : LoopState) (i : nat)
    : LoopState :=
  if nth i (used st) false then st
  else
    match findPhrase phrases words i with
    | Some (p, len) =>
        let st := {| scores := scores st; hits := hits st;
                     used := markUsed (used st) i len;
                     history := history st |} in
        applyHit words contrastIdx i len (p_emotion p) (p_weight p) st
    | None =>
        fold_left (wordStep words lexicon contrastIdx i) emotions st
    end.

Definition initial (n : nat) : LoopState :=
  {| scores := mkScores 0 0 0; hits := 0; used := repeat false n; history := [] |}.

(** The state the loop ends in, for a non-empty token sequence and a
    lexicon that is there. *)
Definition runLoop (words : list jsstring) (lexicon : Lexicon)
    (phrases : list Phrase) : LoopState :=
  fold_left (iteration words lexicon phrases (findIndex isContrast words))
            (seq 0 (length words)) (initial (length words)).

Definition scoreWith (text : jsstring) (lexicon : option Lexicon)
    (phrases : list Phrase) : Result :=
  let words := tokenize text in
  let totalWords := length words in
  match lexicon with
  | None => mkResult 0 0 0 0 totalWords
  | Some lex =>
    if (totalWords =? 0)%nat then mkResult 0 0 0 0 totalWords
    else
      let st := runLoop words lex phrases in
      mkResult (sc_anger (scores st)) (sc_joy (scores st)) (sc_sad (scores st))
               (hits st) totalWords
  end.

End Scorer.

Definition scoreTextWithContext : jsstring -> option Lexicon -> list Phrase -> Result :=
  scoreWith DIMINISHERS.

(* ------------------------------------------------------------------ *)
(** ** Predicates the properties are stated with *)

(** [toLowerCase] leaves [s] as it is. *)
Definition lowered (s : jsstring) : Prop :=
  Forall (fun c => Str.lowerChar c = c) s.

(** A token as the tokenizer's regular expression cuts it: a non-empty
    run of [[a-z']]. *)
Definition isToken (w : jsstring) : bool :=
  negb (Str.eqb w []) && forallb Str.isWordChar w.

(** The sum the loop has built for emotion [e] when its matches were the
    events [h], added in that order to 0. *)
Definition total (e : emotion) (h : list Event) : Q :=
  fold_left (fun acc ev => if emotion_eqb (ev_emotion ev) e
                           then acc + ev_value ev else acc) h 0.

(** The last step of the contribution: [if (isNegated) w *= -0.8]. *)
Definition negate (negated : bool) (w : Q) : Q :=
  if negated then w * -0.8 else w.

(** [ev] records a match of the text: a phrase entry whose words stand at
    [ev_idx], or the word at [ev_idx] found in the emotion's table. *)
Definition isMatch (words : list jsstring) (lexicon : Lexicon)
    (phrases : list Phrase) (ev : Event) : Prop :=
  (exists p, In p phrases
             /\ partsMatch words (ev_idx ev) (Str.split (phrase p)) = true
             /\ ev_len ev = length (Str.split (phrase p))
             /\ ev_emotion ev = p_emotion p /\ ev_weight ev = p_weight p)
  \/ (ev_len ev = 1%nat
      /\ get (tableOf lexicon (ev_emotion ev)) (wordOr words (ev_idx ev))
         = Some (ev_weight ev)).

(** The value of [ev] is the contribution of its weight at its index. *)
Definition valued (dim : table) (words : list jsstring) (ev : Event) : Prop :=
  ev_value ev
  = contribution dim words (findIndex isContrast words) (ev_idx ev) (ev_weight ev).

(** The words of [ev] past its first are marked in [u]. *)
Definition covered (u : list bool) (ev : Event) : Prop :=
  forall k, (1 <= k < ev_len ev)%nat -> nth (ev_idx ev + k) u false = true.

(** No event of [h] starts on a word an earlier one spans. *)
Definition apart (h : list Event) : Prop :=
  forall ev1 ev2, In ev1 h -> In ev2 h ->
    (ev_idx ev1 < ev_idx ev2)%nat -> (ev_idx ev1 + ev_len ev1 <= ev_idx ev2)%nat.

(** What holds of the loop state before the turn for index [n]. *)
Definition loopInv (dim : table) (words : list jsstring) (lexicon : Lexicon)
    (phrases : list Phrase) (n : nat) (st : LoopState) : Prop :=
  (forall e, scoreOf (scores st) e = total e (history st))
  /\ hits st = length (history st)
  /\ length (used st) = length words
  /\ Forall (fun ev => isMatch words lexicon phrases ev /\ valued dim words ev
                       /\ (ev_idx ev < n)%nat /\ covered (used st) ev)
            (history st)
  /\ apart (history st).

(** What holds within the turn for index [n], whose word is not marked. *)
Definition turnInv (dim : table) (words : list jsstring) (lexicon : Lexicon)
    (phrases : list Phrase) (n : nat) (st : LoopState) : Prop :=
  (forall e, scoreOf (scores st) e = total e (history st))
  /\ hits st = length (history st)
  /\ length (used st) = length words
  /\ Forall (fun ev => isMatch words lexicon phrases ev /\ valued dim words ev
                       /\ (ev_idx ev <= n)%nat
                       /\ ((ev_idx ev < n)%nat -> (ev_idx ev + ev_len ev <= n)%nat)
                       /\ covered (used st) ev)
            (history st)
  /\ apart (history st).

(** The [k]-word window after position [i]: the next [k] tokens, fewer at
    the end of the sequence, joined by single spaces. *)
Definition window (words : list jsstring) (i k : nat) : jsstring :=
  Str.join (firstn k (skipn (i + 1) words)).

(** The look-ahead as the specification words it: the factor of the first
    of the 4-, 3-, 2- and 1-word windows that is a key of the diminisher
    table, else 1.0. *)
Definition firstWindowFactor (words : list jsstring) (i : nat) : Q :=
  orElse (orElseO (get DIMINISHERS (window words i 4))
         (orElseO (get DIMINISHERS (window words i 3))
         (orElseO (get DIMINISHERS (window words i 2))
                  (get DIMINISHERS (window words i 1))))) 1.0.

(** The entries of a table whose key is one word. *)
Definition singleWord (t : table) : table :=
  filter (fun kv => negb (Str.hasSpace (fst kv))) t.

(** [s] starts with a code unit that is no white space. *)
Definition startsBlack (s : jsstring) : bool :=
  match s with c :: _ => negb (Str.isWhite c) | [] => false end.

(** [s] is not empty and has no white space at either end. *)
Definition tight (s : jsstring) : Prop :=
  startsBlack s = true /\ startsBlack (rev s) = true.

(** [f] is one of the two forms [normalizeLexiconKeys] stores the one-word
    key [rawKey] under: [k1], lower-cased, or [k2], stemmed as well. *)
Definition formOf (rawKey f : jsstring) : Prop :=
  f = Str.toLowerCase rawKey \/ f = normalizeToken (Str.toLowerCase rawKey).

(** No phrase entry matches at any position of [words]. *)
Definition phraseFree (phrases : list Phrase) (words : list jsstring) : Prop :=
  forall i, findPhrase phrases words i = None.

(** Some word of [key], lower-cased or stemmed, is one of [ws]. *)
Definition mentions (ws : list jsstring) (key : jsstring) : bool :=
  existsb (fun part => has ws (Str.toLowerCase part) || has ws (normalizeToken part))
          (Str.split key).

(** No key of [t] mentions a word of [ws]. *)
Definition avoids (ws : list jsstring) (t : table) : bool :=
  forallb (fun kv => negb (mentions ws (fst kv))) t.

(** [a] may stand before [b] in the sorted phrase list: it has at least as
    many words. *)
Definition noFewerWords (a b : Phrase) : Prop :=
  (wordCount b <= wordCount a)%nat.

(** The phrases of [l] that have [n] words, in the order of [l]. *)
Definition ofWordCount (n : nat) (l : list Phrase) : list Phrase :=
  filter (fun p => (wordCount p =? n)%nat) l.

(* ------------------------------------------------------------------ *)
(** ** Fallback lexicon and loading *)

Definition angerWords : list jsstring :=
  [js "angry"; js "mad"; js "furious"; js "hate"; js "pissed"; js "annoyed";
   js "rage"; js "frustrated"].

Definition joyWords : list jsstring :=
  [js "happy"; js "excited"; js "joy"; js "fun"; js "love"; js "great";
   js "awesome"; js "good"].

Definition sadWords : list jsstring :=
  [js "sad"; js "tired"; js "down"; js "depressed"; js "lonely"; js "upset";
   js "empty"; js "low"].

(** [for (const w of ws) t[w] = 1.0], from the empty table. *)
Definition unitTable (ws : list jsstring) : table :=
  fold_left (fun t w => setKey w 1.0 t) ws [].

Definition buildFallbackLexicon : Lexicon :=
  {| lex_anger := unitTable angerWords;
     lex_joy := unitTable joyWords;
     lex_sad := unitTable sadWords |}.

(** What [loadLexicon] leaves in [LEXICON] and [CACHED_PHRASES] when it
    settles.  [Some data] is the parsed document of a fetch that went
    well; [None] stands for every failure (network, status, parsing), all
    of which end in the [catch] branch.  Both variables are written with
    no [await] between the two writes. *)
Definition loadLexicon (fetched : option Lexicon) : Lexicon * list Phrase :=
  match fetched with
  | Some data =>
      let LEXICON := normalizeLexiconKeys data in (LEXICON, extractPhrases LEXICON)
  | None =>
      let LEXICON := buildFallbackLexicon in (LEXICON, extractPhrases LEXICON)
  end.

(* ------------------------------------------------------------------ *)
(** ** Signal mapper: the input handler and the render loop *)

(** [Math.min(a, b)]. *)
Definition Math_min (a b : Q) : Q := if Qle_bool a b then a else b.

Definition clamp (x min max : Q) : Q := Math_max min (Math_min max x).

Definition lerp (a b t : Q) : Q := a + (b - a) * t.

Definition smooth : Q := 0.08.
Definition BASE_SPEED : Q := 1.0.
Definition BASE_AMP : Q := 0.6.
Definition COLOR_LERP : Q := 0.06.
Definition ANGER_SPEED_BOOST : Q := 2.0.
Definition ANGER_AMP_BOOST : Q := 1.2.
Definition SAD_SPEED_DROP : Q := 1.0.
Definition SAD_AMP_DROP : Q := 0.6.
Definition JOY_SPEED_BOOST : Q := 0.1.
Definition JOY_AMP_BOOST : Q := 0.1.

(** The values of the [uniforms] object. *)
Record Uniforms := mkUniforms
  { u_time : Q; u_r : Q; u_g : Q; u_b : Q; u_speed : Q; u_amplitude : Q }.

(** The module's variables that the handler and the render loop read and
    write.  [r], [g] and [b] are written and read within one call of
    [animate] only and are local names there. *)
Record App := mkApp
  { LEXICON : option Lexicon;
    CACHED_PHRASES : list Phrase;
    userText : jsstring;
    typingEnergy : Q;
    lastTypedAt : Q;
    targetSpeed : Q;
    targetAmplitude : Q;
    speed : Q;
    amplitude : Q;
    currentR : Q; currentG : Q; currentB : Q;
    targetR : Q; targetG : Q; targetB : Q;
    dbgAngerPct : Q; dbgJoyPct : Q; dbgSadPct : Q;
    dbgDrama : Q;
    dbgHits : nat;
    dbgTotalWords : nat;
    dbgBaselineBoost : Q;
    uniforms : Uniforms }.

(** The variables as the module initialises them, before the lexicon is
    loaded. *)
Definition startApp : App :=
  {| LEXICON := None; CACHED_PHRASES := []; userText := [];
     typingEnergy := 0.0; lastTypedAt := 0.0;
     targetSpeed := 1.0; targetAmplitude := 0.6;
     speed := 1.0; amplitude := 0.6;
     currentR := 0.18; currentG := 0.18; currentB := 0.22;
     targetR := 0.18; targetG := 0.18; targetB := 0.22;
     dbgAngerPct := 0.0; dbgJoyPct := 0.0; dbgSadPct := 0.0;
     dbgDrama := 0.0; dbgHits := 0; dbgTotalWords := 0;
     dbgBaselineBoost := 0.0;
     uniforms := mkUniforms 0.0 0.0 0.0 0.0 0.0 0.0 |}.

(** A count as a number. *)
Definition num (n : nat) : Q := inject_Z (Z.of_nat n).

(** The end of [loadLexicon]. *)
Definition onLoaded (fetched : option Lexicon) (s : App) : App :=
  let (lexicon, phrases) := loadLexicon fetched in
  {| LEXICON := Some lexicon; CACHED_PHRASES := phrases;
     userText := userText s;
     typingEnergy := typingEnergy s; lastTypedAt := lastTypedAt s;
     targetSpeed := targetSpeed s; targetAmplitude := targetAmplitude s;
     speed := speed s; amplitude := amplitude s;
     currentR := currentR s; currentG := currentG s; currentB := currentB s;
     targetR := targetR s; targetG := targetG s; targetB := targetB s;
     dbgAngerPct := dbgAngerPct s; dbgJoyPct := dbgJoyPct s;
     dbgSadPct := dbgSadPct s; dbgDrama := dbgDrama s;
     dbgHits := dbgHits s; dbgTotalWords := dbgTotalWords s;
     dbgBaselineBoost := dbgBaselineBoost s;
     uniforms := uniforms s |}.

(** The state after the handler, given what it assigns: the variables it
    always writes, the two targets, and the debug values when it writes
    them. *)
Definition afterInput (s : App) (value : jsstring) (energy now : Q)
    (speed' amplitude' : Q)
    (dbg : option (Q * Q * Q * Q * nat * nat * Q)) : App :=
  {| LEXICON := LEXICON s; CACHED_PHRASES := CACHED_PHRASES s;
     userText := value;
     typingEnergy := energy; lastTypedAt := now;
     targetSpeed := speed'; targetAmplitude := amplitude';
     speed := speed s; amplitude := amplitude s;
     currentR := currentR s; currentG := currentG s; currentB := currentB s;
     targetR := targetR s; targetG := targetG s; targetB := targetB s;
     dbgAngerPct := match dbg with Some (a, _, _, _, _, _, _) => a | None => dbgAngerPct s end;
     dbgJoyPct := match dbg with Some (_, j, _, _, _, _, _) => j | None => dbgJoyPct s end;
     dbgSadPct := match dbg with Some (_, _, d, _, _, _, _) => d | None => dbgSadPct s end;
     dbgDrama := match dbg with Some (_, _, _, d, _, _, _) => d | None => dbgDrama s end;
     dbgHits := match dbg with Some (_, _, _, _, h, _, _) => h | None => dbgHits s end;
     dbgTotalWords := match dbg with Some (_, _, _, _, _, t, _) => t | None => dbgTotalWords s end;
     dbgBaselineBoost := match dbg with Some (_, _, _, _, _, _, b) => b | None => dbgBaselineBoost s end;
     uniforms := uniforms s |}.

(** The listener of the text box's [input] event; [value] is
    [event.target.value] and [now] what [performance.now()] returns. *)
Definition onInput (value : jsstring) (now : Q) (s : App) : App :=
  let typingEnergy := clamp (typingEnergy s + 0.35) 0.0 1.0 in
  let result := scoreTextWithContext value (LEXICON s) (CACHED_PHRASES s) in
  let hits := res_hits result in
  let totalWords := totalWords result in
  if (totalWords =? 0)%nat
  then afterInput s value typingEnergy now BASE_SPEED BASE_AMP None
  else
    let a := Math_max 0 (res_anger result) in
    let j := Math_max 0 (res_joy result) in
    let s' := Math_max 0 (res_sad result) in
    let sum := a + j + s' in
    let emotionDensity := num hits / num totalWords in
    let drama := 1 + emotionDensity * 12 in
    let textLengthBoost := clamp (num totalWords / 40) 0.0 1.0 in
    let baselineBoost := 0.25 + typingEnergy * 0.9 + textLengthBoost * 0.25 in
    if Qeq_bool sum 0
    then
      afterInput s value typingEnergy now
        (clamp (BASE_SPEED + baselineBoost * 0.8) 0.2 6.0)
        (clamp (BASE_AMP + baselineBoost * 0.6) 0.05 5.0)
        (Some (0.0, 0.0, 0.0, 0.0, hits, totalWords, baselineBoost))
    else
      let angerPct := a / sum in
      let joyPct := j / sum in
      let sadPct := s' / sum in
      let targetSpeed :=
        BASE_SPEED + angerPct * ANGER_SPEED_BOOST * drama
        + joyPct * JOY_SPEED_BOOST * drama - sadPct * SAD_SPEED_DROP * drama in
      let targetAmplitude :=
        BASE_AMP + angerPct * ANGER_AMP_BOOST * drama
        + joyPct * JOY_AMP_BOOST * drama - sadPct * SAD_AMP_DROP * drama in
      let targetSpeed := targetSpeed + baselineBoost * 0.35 in
      let targetAmplitude := targetAmplitude + baselineBoost * 0.25 in
      afterInput s value typingEnergy now
        (clamp targetSpeed 0.2 6.0) (clamp targetAmplitude 0.05 5.0)
        (Some (angerPct, joyPct, sadPct, drama, hits, totalWords, baselineBoost)).

(** One frame of the render loop; [elapsed] is what
    [clock.getElapsedTime()] returns.  The call of the renderer is left
    out: it reads the uniforms and writes none of these variables. *)
Definition animate (elapsed : Q) (s : App) : App :=
  let typingEnergy := lerp (typingEnergy s) 0.0 0.03 in
  let MIN := 0.12 in
  let targetR := Math_max MIN (dbgAngerPct s) in
  let targetG := Math_max MIN (dbgJoyPct s) in
  let targetB := Math_max MIN (dbgSadPct s) in
  let currentR := currentR s + (targetR - currentR s) * COLOR_LERP in
  let currentG := currentG s + (targetG - currentG s) * COLOR_LERP in
  let currentB := currentB s + (targetB - currentB s) * COLOR_LERP in
  let r := currentR in
  let g := currentG in
  let b := currentB in
  let speed := lerp (speed s) (targetSpeed s) smooth in
  let amplitude := lerp (amplitude s) (targetAmplitude s) smooth in
  {| LEXICON := LEXICON s; CACHED_PHRASES := CACHED_PHRASES s;
     userText := userText s;
     typingEnergy := typingEnergy; lastTypedAt := lastTypedAt s;
     targetSpeed := targetSpeed s; targetAmplitude := targetAmplitude s;
     speed := speed; amplitude := amplitude;
     currentR := currentR; currentG := currentG; currentB := currentB;
     targetR := targetR; targetG := targetG; targetB := targetB;
     dbgAngerPct := dbgAngerPct s; dbgJoyPct := dbgJoyPct s;
     dbgSadPct := dbgSadPct s; dbgDrama := dbgDrama s;
     dbgHits := dbgHits s; dbgTotalWords := dbgTotalWords s;
     dbgBaselineBoost := dbgBaselineBoost s;
     uniforms := mkUniforms elapsed r g b speed amplitude |}.

(** What the page reacts to once the module has run. *)
Inductive Signal :=
| Loaded (fetched : option Lexicon)
| Typed (value : jsstring) (now : Q)
| Frame (elapsed : Q).

Definition react (s : App) (e : Signal) : App :=
  match e with
  | Loaded fetched => onLoaded fetched s
  | Typed value now => onInput value now s
  | Frame elapsed => animate elapsed s
  end.

(** The state after the signals [es], from the start of the module. *)
Definition runApp (es : list Signal) : App := fold_left react es startApp.

(** The ranges the handler's clamps and the render loop keep. *)
Definition inRange (s : App) : Prop :=
  0 <= typingEnergy s <= 1
  /\ 0.2 <= targetSpeed s <= 6 /\ 0.05 <= targetAmplitude s <= 5
  /\ 0.2 <= speed s <= 6 /\ 0.05 <= amplitude s <= 5
  /\ 0 <= dbgAngerPct s <= 1 /\ 0 <= dbgJoyPct s <= 1 /\ 0 <= dbgSadPct s <= 1
  /\ 0.12 <= currentR s <= 1 /\ 0.12 <= currentG s <= 1 /\ 0.12 <= currentB s <= 1
  /\ 0.12 <= targetR s <= 1 /\ 0.12 <= targetG s <= 1 /\ 0.12 <= targetB s <= 1.

(** The uniforms are as the module made them, or as the last frame wrote
    them from the current colours, speed and amplitude. *)
Definition uniformsCurrent (s : App) : Prop :=
  uniforms s = uniforms startApp
  \/ (u_r (uniforms s) = currentR s /\ u_g (uniforms s) = currentG s
      /\ u_b (uniforms s) = currentB s /\ u_speed (uniforms s) = speed s
      /\ u_amplitude (uniforms s) = amplitude s).

(** What the last [Loaded] signal of [es] carried, if there was one. *)
Definition lastLoaded (es : list Signal) : option (option Lexicon) :=
  fold_left (fun acc e => match e with Loaded fetched => Some fetched | _ => acc end)
            es None.

(** The total of emotion [e] in a result. *)
Definition resultOf (r : Result) (e : emotion) : Q :=
  match e with anger => res_anger r | joy => res_joy r | sad => res_sad r end.

(** The number of tables of the lexicon that hold the key [w]. *)
Definition holders (lexicon : Lexicon) (w : jsstring) : nat :=
  length (filter (fun e => match get (tableOf lexicon e) w with
                           | Some _ => true
                           | None => false
                           end) emotions).

(* ------------------------------------------------------------------ *)
(** ** Where the embedding is the code *)

(** The names of the own properties of [Object.prototype].  The tables of
    a lexicon are plain objects, and the code reads them with
    [obj[key]], which finds these names on any of them; [get] finds own
    properties only, so it is the code's read exactly for the keys that
    are none of these names. *)
Definition prototypeNames : list jsstring :=
  [js "constructor"; js "__defineGetter__"; js "__defineSetter__";
   js "hasOwnProperty"; js "__lookupGetter__"; js "__lookupSetter__";
   js "isPrototypeOf"; js "propertyIsEnumerable"; js "toString";
   js "valueOf"; js "__proto__"; js "toLocaleString"].

Definition inherited (k : jsstring) : bool := has prototypeNames k.

(** No word of [words] is read off the prototype: a lookup of the scorer
    finds what [get] finds. *)
Definition ownWords (words : list jsstring) : bool :=
  forallb (fun w => negb (inherited w)) words.

(** Every code unit of [s] is one [Str.lowerChar] lower-cases as
    [toLowerCase] does: Basic Latin and Latin-1, and the curly apostrophe
    the normaliser replaces. *)
Definition modelled (s : jsstring) : bool :=
  forallb (fun c => (c <? 256)%N || (c =? curly)%N) s.

(** A bound on weights under which no product or total of the scorer
    leaves the finite range of a binary64 number, whatever the length of
    a text. *)
Definition WEIGHT_LIMIT : Q := inject_Z (10 ^ 100).

Definition tame (w : Q) : bool :=
  Qle_bool (- WEIGHT_LIMIT) w && Qle_bool w WEIGHT_LIMIT.

(** A table of a raw lexicon that [normalizeLexiconKeys] treats as the
    embedding says: its keys lower-case as modelled, neither form of a
    one-word key is a name of the prototype, and its weights are tame. *)
Definition plainTable (t : table) : bool :=
  forallb (fun kv =>
             modelled (fst kv) && tame (snd kv)
             && (Str.hasSpace (fst kv)
                 || (negb (inherited (Str.toLowerCase (fst kv)))
                     && negb (inherited (normalizeToken (Str.toLowerCase (fst kv)))))))
          t.

Definition plainData (data : Lexicon) : bool :=
  forallb (fun e => plainTable (tableOf data e)) emotions.

(** A typed text the tokenizer and the scorer treat as the embedding
    says. *)
Definition plainText (text : jsstring) : bool :=
  modelled text && ownWords (tokenize text).

(** The weights the scorer can meet in a state are tame. *)
Definition tameWeights (lexicon : option Lexicon) (phrases : list Phrase) : bool :=
  match lexicon with
  | Some lex => forallb (fun e => forallb (fun kv => tame (snd kv)) (tableOf lex e))
                        emotions
  | None => true
  end
  && forallb (fun p => tame (p_weight p)) phrases.

(** A signal within the embedding: a parsed lexicon that is plain, a typed
    text that is plain. *)
Definition plainSignal (e : Signal) : bool :=
  match e with
  | Loaded (Some data) => plainData data
  | Loaded None => true
  | Typed value _ => plainText value
  | Frame _ => true
  end.

(* ------------------------------------------------------------------ *)
(** ** What the history of a run must hold *)

(** An event of [h] that started before [i] spans the word at [i]. *)
Definition spanned (h : list Event) (i : nat) : Prop :=
  exists ev, In ev h /\ (ev_idx ev < i < ev_idx ev + ev_len ev)%nat.

(** The matches at [i] are in [h]: the first phrase entry that matches
    there, or, when none does, the word under every emotion whose table
    holds it; each with the value the contribution block gives it. *)
Definition recorded (dim : table) (words : list jsstring) (lexicon : Lexicon)
    (phrases : list Phrase) (h : list Event) (i : nat) : Prop :=
  match findPhrase phrases words i with
  | Some (p, len) =>
      In (mkEvent i len (p_emotion p) (p_weight p)
            (contribution dim words (findIndex isContrast words) i (p_weight p))) h
  | None =>
      forall e w, get (tableOf lexicon e) (wordOr words i) = Some w ->
        In (mkEvent i 1 e w
              (contribution dim words (findIndex isContrast words) i w)) h
  end.

(** What holds of the loop state before the turn for index [n], beyond
    [loopInv]: a mark at or past [n] comes from an event that reaches past
    it, and every index before [n] is spanned or has its matches
    recorded. *)
Definition fullInv (dim : table) (words : list jsstring) (lexicon : Lexicon)
    (phrases : list Phrase) (n : nat) (st : LoopState) : Prop :=
  loopInv dim words lexicon phrases n st
  /\ (forall j, (n <= j)%nat -> nth j (used st) false = true ->
        exists ev, In ev (history st) /\ (j < ev_idx ev + ev_len ev)%nat)
  /\ (forall i, (i < n)%nat ->
        spanned (history st) i
        \/ recorded dim words lexicon phrases (history st) i).

(* ================================================================== *)
(** * Properties *)

(** ** Strings *)

Lemma eqb_eq (a b : jsstring) : Str.eqb a b = true <-> a = b.
Proof.
  revert b; induction a as [|x a IH]; intros [|y b]; simpl; split;
    try congruence; try reflexivity.
  - intros H. apply andb_true_iff in H. destruct H as [H1 H2].
    apply N.eqb_eq in H1. apply IH in H2. congruence.
  - intros H. injection H as -> ->. rewrite N.eqb_refl. simpl. now apply IH.
Qed.

Lemma eqb_refl (a : jsstring) : Str.eqb a a = true.
Proof. now apply eqb_eq. Qed.

Lemma eqb_neq (a b : jsstring) : Str.eqb a b = false <-> a <> b.
Proof.
  split.
  - intros H E. apply eqb_eq in E. congruence.
  - intros H. destruct (Str.eqb a b) eqn:E; [|reflexivity].
    apply eqb_eq in E. contradiction.
Qed.

Lemma eqb_sym (a b : jsstring) : Str.eqb a b = Str.eqb b a.
Proof.
  destruct (Str.eqb b a) eqn:E.
  - apply eqb_eq in E. subst. apply eqb_refl.
  - apply eqb_neq. apply eqb_neq in E. congruence.
Qed.

(** Splits every comparison on code units in the goal, discarding the
    branches arithmetic rules out. *)
Ltac ncases :=
  repeat match goal with
  | |- context [(?a <=? ?b)%N] => destruct (N.leb_spec a b); try lia
  | |- context [(?a =? ?b)%N] => destruct (N.eqb_spec a b); try lia
  end; simpl in *; try reflexivity; try lia.

Lemma white_is_no_word (c : N) :
  Str.isWhite c = true -> Str.isWordChar (Str.lowerChar c) = false.
Proof.
  unfold Str.isWhite, Str.isWordChar, Str.lowerChar. intros H.
  repeat (apply orb_true_iff in H; destruct H as [H|H]);
    try (apply N.eqb_eq in H; subst c; reflexivity);
    apply andb_true_iff in H; destruct H as [H1 H2];
    apply N.leb_le in H1; apply N.leb_le in H2; ncases.
Qed.

Lemma matchRuns_no_word (s : jsstring) :
  forallb (fun c => negb (Str.isWordChar c)) s = true -> Str.matchRuns [] s = [].
Proof.
  induction s as [|c s IH]; simpl; [reflexivity|].
  intros H. apply andb_true_iff in H. destruct H as [H1 H2].
  apply negb_true_iff in H1. rewrite H1. simpl. now apply IH.
Qed.

(** A text of white space only has no token. *)
Lemma tokenize_white (text : jsstring) :
  forallb Str.isWhite text = true -> tokenize text = [].
Proof.
  intros H. unfold tokenize. rewrite matchRuns_no_word; [reflexivity|].
  unfold Str.toLowerCase. rewrite forallb_forall in *.
  intros c Hc. apply in_map_iff in Hc. destruct Hc as [c0 [<- Hc0]].
  apply negb_true_iff. apply white_is_no_word. now apply H.
Qed.

(* ------------------------------------------------------------------ *)
(** ** The scorer without a lexicon or without tokens *)

(** C1, as stated, fails: with no lexicon the result still carries the
    number of tokens of the text, here 1. *)
Lemma no_lexicon_keeps_word_count :
  (@None Lexicon = None \/ tokenize (js "hello") = [])
  /\ totalWords (scoreTextWithContext (js "hello") None []) = 1%nat
  /\ scoreTextWithContext (js "hello") None [] <> mkResult 0 0 0 0 0.
Proof.
  split; [left; reflexivity|]. split; [reflexivity|].
  intros H. apply (f_equal totalWords) in H. vm_compute in H. discriminate.
Qed.

(** C1, amended: when the lexicon is absent or the text has no token, the
    scorer returns zero for the three emotions and for [hits], and
    [totalWords] is the number of tokens of the text, which is 0 when the
    text has no token; so the empty text and every text of white space
    give the all-zero result whatever the lexicon and the phrase list.
    The scorer is a total function, it has no error to raise. *)
Theorem score_without_lexicon_or_tokens
    (text : jsstring) (lexicon : option Lexicon) (phrases : list Phrase) :
  lexicon = None \/ tokenize text = [] ->
  scoreTextWithContext text lexicon phrases
    = mkResult 0 0 0 0 (length (tokenize text))
  /\ (tokenize text = [] ->
      scoreTextWithContext text lexicon phrases = mkResult 0 0 0 0 0)
  /\ (forallb Str.isWhite text = true ->
      scoreTextWithContext text lexicon phrases = mkResult 0 0 0 0 0).
Proof.
  intros H.
  assert (E : scoreTextWithContext text lexicon phrases
              = mkResult 0 0 0 0 (length (tokenize text))).
  { unfold scoreTextWithContext, scoreWith.
    destruct H as [-> | H]; [reflexivity|].
    rewrite H. simpl. now destruct lexicon. }
  split; [exact E|]. split.
  - intros Ht. rewrite E, Ht. reflexivity.
  - intros Hw. rewrite E, (tokenize_white _ Hw). reflexivity.
Qed.

Lemma score_without_lexicon_or_tokens_witness :
  scoreTextWithContext (js "   ") (Some (mkLexicon [] [(js "happy", 1.0)] [])) []
    = mkResult 0 0 0 0 0.
Proof.
  apply (score_without_lexicon_or_tokens (js "   ")
           (Some (mkLexicon [] [(js "happy", 1.0)] [])) []).
  - right. reflexivity.
  - reflexivity.
Defined.

(* ------------------------------------------------------------------ *)
(** ** Case and stem invariance *)

(** C2: with the lexicon [{joy: {excite: 1.0}}], normalised and with its
    phrases extracted as the loader does, "I am EXCITED" scores 0 for joy
    and "i am excite" scores 1, so the two joy totals are not identical:
    the suffix rule takes "excited" to "excit", which is no key of the
    lexicon, while "excite" stays "excite".  The comment above
    [normalizeToken] has "excited -> excite". *)
Theorem excited_misses_excite :
  let lexicon := normalizeLexiconKeys (mkLexicon [] [(js "excite", 1.0)] []) in
  let phrases := extractPhrases lexicon in
  tokenize (js "I am EXCITED") = [js "i"; js "am"; js "excit"]
  /\ tokenize (js "i am excite") = [js "i"; js "am"; js "excite"]
  /\ keys (lex_joy lexicon) = [js "excite"]
  /\ res_joy (scoreTextWithContext (js "I am EXCITED") (Some lexicon) phrases) == 0
  /\ res_joy (scoreTextWithContext (js "i am excite") (Some lexicon) phrases) == 1
  /\ ~ res_joy (scoreTextWithContext (js "I am EXCITED") (Some lexicon) phrases)
       == res_joy (scoreTextWithContext (js "i am excite") (Some lexicon) phrases).
Proof.
  cbv zeta. repeat split; try (vm_compute; reflexivity).
  vm_compute. discriminate.
Qed.

(* ------------------------------------------------------------------ *)
(** ** Token normalisation *)

Lemma lowerChar_idem (c : N) : Str.lowerChar (Str.lowerChar c) = Str.lowerChar c.
Proof. unfold Str.lowerChar. ncases. Qed.

Lemma lowered_toLowerCase (s : jsstring) : lowered (Str.toLowerCase s).
Proof.
  unfold lowered, Str.toLowerCase. apply Forall_forall. intros c Hc.
  apply in_map_iff in Hc. destruct Hc as [c0 [<- _]]. apply lowerChar_idem.
Qed.

Lemma toLowerCase_lowered (s : jsstring) : lowered s -> Str.toLowerCase s = s.
Proof.
  unfold lowered, Str.toLowerCase. induction 1 as [|c s Hc _ IH]; simpl;
    [reflexivity|]. now rewrite Hc, IH.
Qed.

Lemma lowered_replaceFirst (s : jsstring) :
  lowered s -> lowered (Str.replaceFirst curly apostrophe s).
Proof.
  unfold lowered. induction 1 as [|c s Hc Hs IH]; simpl; [constructor|].
  destruct (c =? curly)%N; constructor; auto.
Qed.

Lemma in_firstn {A : Type} (n : nat) (l : list A) (x : A) :
  In x (firstn n l) -> In x l.
Proof.
  intros H. rewrite <- (firstn_skipn n l). apply in_or_app. now left.
Qed.

Lemma lowered_firstn (n : nat) (s : jsstring) : lowered s -> lowered (firstn n s).
Proof.
  unfold lowered. intros H. apply Forall_forall. intros c Hc.
  rewrite Forall_forall in H. apply H. eapply in_firstn; eauto.
Qed.

Lemma lowered_js_ascii (s : string) :
  forallb (fun c => (Str.lowerChar c =? c)%N) (js s) = true -> lowered (js s).
Proof.
  unfold lowered. intros H. apply Forall_forall. intros c Hc.
  rewrite forallb_forall in H. apply N.eqb_eq. now apply H.
Qed.

Lemma respell_cases (a b : string) (w : jsstring) :
  respell a b w = w \/ respell a b w = js b.
Proof. unfold respell. destruct (_ || _); auto. Qed.

(** The contraction block leaves a word alone or gives one of the seven
    spellings without apostrophe. *)
Lemma contract_cases (w : jsstring) :
  contract w = w
  \/ In (contract w) [js "im"; js "cant"; js "wont"; js "dont"; js "didnt";
                      js "isnt"; js "arent"].
Proof.
  unfold contract.
  destruct (respell_cases "i'm" "im" w) as [-> | ->]; [|right; vm_compute; tauto].
  destruct (respell_cases "can't" "cant" w) as [-> | ->]; [|right; vm_compute; tauto].
  destruct (respell_cases "won't" "wont" w) as [-> | ->]; [|right; vm_compute; tauto].
  destruct (respell_cases "don't" "dont" w) as [-> | ->]; [|right; vm_compute; tauto].
  destruct (respell_cases "didn't" "didnt" w) as [-> | ->]; [|right; vm_compute; tauto].
  destruct (respell_cases "isn't" "isnt" w) as [-> | ->]; [|right; vm_compute; tauto].
  destruct (respell_cases "aren't" "arent" w) as [-> | ->]; [|right; vm_compute; tauto].
  now left.
Qed.

(** A property of words that every prefix inherits is kept by the suffix
    block. *)
Lemma strip_keeps (P : jsstring -> Prop) :
  (forall n s, P s -> P (firstn n s)) -> forall w, P w -> P (strip w).
Proof.
  intros HP w Hw.
  assert (R : forall g k s, P s -> P (rule g k s)).
  { intros g k s Hs. unfold rule, Str.dropLast. destruct (g s); auto. }
  unfold strip. cbv zeta.
  match goal with |- P (if ?b then _ else _) => destruct b end;
    [unfold Str.dropLast; apply HP|]; repeat apply R; exact Hw.
Qed.

Lemma lowered_normalizeToken (x : jsstring) : lowered (normalizeToken x).
Proof.
  destruct x as [|c x]; [constructor|].
  unfold normalizeToken.
  set (w := Str.replaceFirst curly apostrophe (Str.toLowerCase (c :: x))).
  assert (Hw : lowered w)
    by (apply lowered_replaceFirst, lowered_toLowerCase).
  assert (Hc : lowered (contract w)).
  { destruct (contract_cases w) as [-> | H]; [exact Hw|].
    simpl in H.
    repeat (destruct H as [<- | H]; [apply lowered_js_ascii; reflexivity|]).
    contradiction. }
  cbv zeta. destruct (_ <? _)%nat; [exact Hc|].
  apply strip_keeps; [intros; now apply lowered_firstn | exact Hc].
Qed.

Lemma dropLast_length (k : nat) (w : jsstring) :
  length (Str.dropLast k w) = (length w - k)%nat.
Proof. unfold Str.dropLast. apply firstn_length_le. lia. Qed.

Lemma suffixed_length (n : nat) (suf : string) (w : jsstring) :
  suffixed n suf w = true -> (n <= length w)%nat.
Proof.
  unfold suffixed. intros H. apply andb_true_iff in H. destruct H as [H _].
  now apply Nat.leb_le in H.
Qed.

Lemma plural_length (w : jsstring) : plural w = true -> (5 <= length w)%nat.
Proof.
  unfold plural. intros H. apply andb_true_iff in H. destruct H as [H _].
  apply andb_true_iff in H. destruct H as [H _]. now apply Nat.leb_le in H.
Qed.

(** What one rule does to the length of the word. *)
Lemma rule_length (g : jsstring -> bool) (k n : nat) (w : jsstring) :
  (forall s, g s = true -> (n <= length s)%nat) ->
  (g w = false /\ rule g k w = w)
  \/ (g w = true /\ (n <= length w)%nat
      /\ length (rule g k w) = (length w - k)%nat).
Proof.
  intros Hg. unfold rule. destruct (g w) eqn:E; [right|left; auto].
  split; [reflexivity|]. split; [now apply Hg|apply dropLast_length].
Qed.

(** With no rule firing the suffix block is the identity; as soon as one
    fires, the word gets shorter and keeps at least three code units. *)
Lemma strip_length (w : jsstring) :
  (strippable w = false /\ strip w = w)
  \/ (strippable w = true /\ (3 <= length (strip w) < length w)%nat).
Proof.
  unfold strip. cbv zeta.
  set (w1 := rule plural 1 w).
  set (w2 := rule (suffixed 6 "ly") 2 w1).
  set (w3 := rule (suffixed 7 "ness") 4 w2).
  set (w4 := rule (suffixed 7 "ing") 3 w3).
  set (w5 := rule (suffixed 6 "ed") 2 w4).
  pose proof (rule_length plural 1 5 w plural_length) as R1.
  pose proof (rule_length _ 2 6 w1 (suffixed_length 6 "ly")) as R2.
  pose proof (rule_length _ 4 7 w2 (suffixed_length 7 "ness")) as R3.
  pose proof (rule_length _ 3 7 w3 (suffixed_length 7 "ing")) as R4.
  pose proof (rule_length _ 2 6 w4 (suffixed_length 6 "ed")) as R5.
  pose proof (rule_length _ 2 6 w5 (suffixed_length 6 "er")) as R7.
  fold w1 in R1. fold w2 in R2. fold w3 in R3. fold w4 in R4. fold w5 in R5.
  assert (R6 : (suffixed 6 "est" w5 = false)
               \/ (suffixed 6 "est" w5 = true /\ (6 <= length w5)%nat
                   /\ length (Str.dropLast 3 w5) = (length w5 - 3)%nat)).
  { destruct (suffixed 6 "est" w5) eqn:E; [right|left; auto].
    split; [reflexivity|]. split; [now apply suffixed_length in E|].
    apply dropLast_length. }
  assert (S : strippable w = true
              \/ (plural w = false /\ suffixed 6 "ly" w = false
                  /\ suffixed 7 "ness" w = false /\ suffixed 7 "ing" w = false
                  /\ suffixed 6 "ed" w = false /\ suffixed 6 "est" w = false
                  /\ suffixed 6 "er" w = false)).
  { unfold strippable.
    destruct (plural w); [now left|].
    destruct (suffixed 6 "ly" w); [now left|].
    destruct (suffixed 7 "ness" w); [now left|].
    destruct (suffixed 7 "ing" w); [now left|].
    destruct (suffixed 6 "ed" w); [now left|].
    destruct (suffixed 6 "est" w); [now left|].
    destruct (suffixed 6 "er" w); [now left|]. right. tauto. }
  destruct S as [S | (S1 & S2 & S3 & S4 & S5 & S6 & S7)].
  - right. split; [exact S|].
    (* some rule fires on [w]: follow the first one that does *)
    destruct R1 as [[G1 E1] | (G1 & B1 & L1)];
    destruct R2 as [[G2 E2] | (G2 & B2 & L2)];
    destruct R3 as [[G3 E3] | (G3 & B3 & L3)];
    destruct R4 as [[G4 E4] | (G4 & B4 & L4)];
    destruct R5 as [[G5 E5] | (G5 & B5 & L5)];
    destruct R6 as [G6 | (G6 & B6 & L6)];
    destruct R7 as [[G7 E7] | (G7 & B7 & L7)];
    rewrite G6;
    try rewrite E7; try rewrite E5 in *; try rewrite E4 in *;
    try rewrite E3 in *; try rewrite E2 in *; try rewrite E1 in *;
    try lia;
    exfalso; unfold strippable in S;
    rewrite G1, G2, G3, G4, G5, G6, G7 in S; discriminate.
  - left. split.
    + unfold strippable. now rewrite S1, S2, S3, S4, S5, S6, S7.
    + assert (E1 : w1 = w) by (unfold w1, rule; now rewrite S1).
      assert (E2 : w2 = w) by (unfold w2, rule; now rewrite E1, S2).
      assert (E3 : w3 = w) by (unfold w3, rule; now rewrite E2, S3).
      assert (E4 : w4 = w) by (unfold w4, rule; now rewrite E3, S4).
      assert (E5 : w5 = w) by (unfold w5, rule; now rewrite E4, S5).
      rewrite E5, S6. unfold rule. now rewrite S7.
Qed.

Lemma replaceFirst_absent (a b : N) (s : jsstring) :
  existsb (N.eqb a) s = false -> Str.replaceFirst a b s = s.
Proof.
  induction s as [|c s IH]; simpl; [reflexivity|].
  intros H. apply orb_false_iff in H. destruct H as [H1 H2].
  rewrite N.eqb_sym, H1. now rewrite IH.
Qed.

(** Replacing the first curly apostrophe leaves one fewer. *)
Lemma replaceFirst_count (s : jsstring) :
  existsb (N.eqb curly) s = true ->
  S (count_occ N.eq_dec (Str.replaceFirst curly apostrophe s) curly)
  = count_occ N.eq_dec s curly.
Proof.
  induction s as [|c s IH]; cbn [existsb Str.replaceFirst]; [discriminate|].
  intros H. destruct (N.eqb_spec c curly) as [E|E].
  - subst c. cbn [count_occ].
    destruct (N.eq_dec apostrophe curly); [discriminate|].
    destruct (N.eq_dec curly curly); congruence.
  - assert (E' : (curly =? c)%N = false) by (apply N.eqb_neq; congruence).
    rewrite E' in H. cbn [orb] in H. cbn [count_occ].
    destruct (N.eq_dec c curly); [contradiction|]. now apply IH.
Qed.

Lemma count_firstn (n : nat) (s : jsstring) (c : N) :
  (count_occ N.eq_dec (firstn n s) c <= count_occ N.eq_dec s c)%nat.
Proof.
  rewrite <- (firstn_skipn n s) at 2. rewrite count_occ_app. lia.
Qed.

Lemma contract_count (w : jsstring) :
  (count_occ N.eq_dec (contract w) curly <= count_occ N.eq_dec w curly)%nat.
Proof.
  destruct (contract_cases w) as [-> | H]; [lia|].
  simpl in H.
  repeat (destruct H as [<- | H]; [vm_compute; lia|]). contradiction.
Qed.

(** The fixed points of the normaliser among the lower-case words: the
    words no contraction rule and no suffix rule applies to. *)
Lemma normalizeToken_fixed (y : jsstring) :
  lowered y ->
  (normalizeToken y = y <-> rewritable y = false /\ strippable y = false).
Proof.
  intros Hy. destruct y as [|c r]; [split; intros _; [split|]; reflexivity|].
  remember (c :: r) as y eqn:Ey.
  assert (EN : normalizeToken y
               = let w := contract (Str.replaceFirst curly apostrophe y) in
                 if (length (strip w) <? 2)%nat then w else strip w).
  { subst y. unfold normalizeToken. now rewrite (toLowerCase_lowered _ Hy). }
  rewrite EN. clear EN. cbv zeta. unfold rewritable.
  destruct (existsb (N.eqb curly) y) eqn:Ec.
  - (* a curly apostrophe is there: one fewer afterwards *)
    split; [|intros [H _]; discriminate].
    intros H. exfalso.
    pose proof (replaceFirst_count y Ec) as C1.
    pose proof (contract_count (Str.replaceFirst curly apostrophe y)) as C2.
    set (w := contract (Str.replaceFirst curly apostrophe y)) in *.
    assert (C3 : (count_occ N.eq_dec (strip w) curly
                  <= count_occ N.eq_dec w curly)%nat).
    { apply (strip_keeps (fun s => (count_occ N.eq_dec s curly
                                    <= count_occ N.eq_dec w curly)%nat)).
      - intros n s Hs. pose proof (count_firstn n s curly). lia.
      - lia. }
    destruct (_ <? _)%nat; rewrite H in *; lia.
  - rewrite (replaceFirst_absent _ _ _ Ec). cbn [orb negb].
    destruct (Str.eqb (contract y) y) eqn:Eq.
    + apply eqb_eq in Eq. rewrite Eq. cbn [negb].
      destruct (strip_length y) as [[S1 S2] | [S1 S2]]; rewrite S1.
      * rewrite S2. destruct (_ <? _)%nat; tauto.
      * destruct (Nat.ltb_spec (length (strip y)) 2); [lia|].
        split; [|intros [_ Hf]; discriminate].
        intros Hf. rewrite Hf in S2. lia.
    + split; [|intros [H _]; discriminate].
      intros H. exfalso. apply eqb_neq in Eq.
      destruct (contract_cases y) as [E | E]; [contradiction|].
      cbn [In] in E.
      repeat (destruct E as [E | E];
              [rewrite <- E in H; vm_compute in H; apply Eq; now rewrite <- E|]).
      contradiction.
Qed.

(** C3, as stated, fails: "focused" normalises to "focus", and "focus" to
    "focu". *)
Lemma normalizeToken_not_idempotent :
  normalizeToken (js "focused") = js "focus"
  /\ normalizeToken (js "focus") = js "focu"
  /\ normalizeToken (normalizeToken (js "focused")) <> normalizeToken (js "focused").
Proof.
  split; [reflexivity|]. split; [reflexivity|]. vm_compute. discriminate.
Qed.

(** C3, amended: a second normalisation changes nothing exactly when the
    first left a word that no rule applies to any more, that is a word
    with no curly apostrophe, not a contraction spelled with its
    apostrophe, and ending in no suffix that a rule strips at that
    length. *)
Theorem normalizeToken_idempotent_iff (x : jsstring) :
  normalizeToken (normalizeToken x) = normalizeToken x
  <-> rewritable (normalizeToken x) = false
      /\ strippable (normalizeToken x) = false.
Proof. apply normalizeToken_fixed, lowered_normalizeToken. Qed.

(* ------------------------------------------------------------------ *)
(** ** Tokens *)

Lemma isToken_iff (w : jsstring) :
  isToken w = true <-> w <> [] /\ forallb Str.isWordChar w = true.
Proof.
  unfold isToken. rewrite andb_true_iff, negb_true_iff, eqb_neq. tauto.
Qed.

Lemma wordChar_lower (c : N) : Str.isWordChar c = true -> Str.lowerChar c = c.
Proof.
  unfold Str.isWordChar, Str.lowerChar. intros H.
  apply orb_true_iff in H. destruct H as [H|H].
  - apply andb_true_iff in H. destruct H as [H1 H2].
    apply N.leb_le in H1. apply N.leb_le in H2. ncases.
  - apply N.eqb_eq in H. subst c. reflexivity.
Qed.

Lemma wordChars_replaceFirst (s : jsstring) :
  forallb Str.isWordChar s = true ->
  forallb Str.isWordChar (Str.replaceFirst curly apostrophe s) = true.
Proof.
  induction s as [|c s IH]; cbn [forallb Str.replaceFirst]; [reflexivity|].
  intros H. apply andb_true_iff in H. destruct H as [H1 H2].
  destruct (c =? curly)%N; cbn [forallb]; rewrite ?H1, ?H2, ?IH; auto.
Qed.

Lemma replaceFirst_length (a b : N) (s : jsstring) :
  length (Str.replaceFirst a b s) = length s.
Proof.
  induction s as [|c s IH]; simpl; [reflexivity|].
  destruct (c =? a)%N; simpl; congruence.
Qed.

Lemma wordChars_firstn (n : nat) (s : jsstring) :
  forallb Str.isWordChar s = true -> forallb Str.isWordChar (firstn n s) = true.
Proof.
  rewrite !forallb_forall. intros H c Hc. apply H. eapply in_firstn; eauto.
Qed.

Lemma contract_nonempty (w : jsstring) : w <> [] -> contract w <> [].
Proof.
  intros Hw. destruct (contract_cases w) as [-> | H]; [exact Hw|].
  simpl in H. repeat (destruct H as [<- | H]; [discriminate|]). contradiction.
Qed.

(** The normaliser takes tokens to tokens. *)
Lemma isToken_normalizeToken (w : jsstring) :
  isToken w = true -> isToken (normalizeToken w) = true.
Proof.
  rewrite !isToken_iff. intros [Hne Hc].
  destruct w as [|c r]; [contradiction|].
  unfold normalizeToken.
  set (w0 := Str.replaceFirst curly apostrophe (Str.toLowerCase (c :: r))).
  assert (H0 : w0 <> [] /\ forallb Str.isWordChar w0 = true).
  { split.
    - intros E. apply (f_equal (@length N)) in E. unfold w0 in E.
      rewrite replaceFirst_length in E. unfold Str.toLowerCase in E.
      rewrite length_map in E. discriminate.
    - apply wordChars_replaceFirst. unfold Str.toLowerCase.
      rewrite forallb_forall in *. intros x Hx.
      apply in_map_iff in Hx. destruct Hx as [y [<- Hy]].
      rewrite (wordChar_lower _ (Hc _ Hy)). now apply Hc. }
  assert (H1 : contract w0 <> [] /\ forallb Str.isWordChar (contract w0) = true).
  { split; [now apply contract_nonempty|].
    destruct (contract_cases w0) as [-> | H]; [tauto|].
    simpl in H. repeat (destruct H as [<- | H]; [reflexivity|]). contradiction. }
  cbv zeta. destruct (Nat.ltb_spec (length (strip (contract w0))) 2) as [L|L];
    [exact H1|]. split.
  - intros E. rewrite E in L. simpl in L. lia.
  - apply (strip_keeps (fun s => forallb Str.isWordChar s = true));
      [intros; now apply wordChars_firstn | tauto].
Qed.

Lemma forallb_snoc (f : N -> bool) (s : jsstring) (c : N) :
  forallb f (s ++ [c]) = forallb f s && f c.
Proof. rewrite forallb_app. simpl. now rewrite andb_true_r. Qed.

Lemma matchRuns_tokens (s cur : jsstring) :
  forallb Str.isWordChar cur = true ->
  Forall (fun w => isToken w = true) (Str.matchRuns cur s).
Proof.
  assert (F : forall cur, forallb Str.isWordChar cur = true ->
                Forall (fun w => isToken w = true) (Str.flush cur)).
  { intros [|c r] H; [constructor|]. repeat constructor. apply isToken_iff.
    split; [discriminate|exact H]. }
  revert cur. induction s as [|c s IH]; intros cur Hcur; simpl.
  - now apply F.
  - destruct (Str.isWordChar c) eqn:Ec.
    + apply IH. now rewrite forallb_snoc, Hcur, Ec.
    + apply Forall_app. split; [now apply F | now apply IH].
Qed.

(** Every token of a text is a non-empty word over [[a-z']]. *)
Lemma tokenize_tokens (text : jsstring) :
  Forall (fun w => isToken w = true) (tokenize text).
Proof.
  unfold tokenize. apply Forall_map.
  eapply Forall_impl; [|apply (matchRuns_tokens _ []); reflexivity].
  intros w. apply isToken_normalizeToken.
Qed.

Lemma token_no_space (w : jsstring) : isToken w = true -> Str.hasSpace w = false.
Proof.
  rewrite isToken_iff. intros [_ H]. unfold Str.hasSpace.
  destruct (existsb (N.eqb Str.space) w) eqn:E; [|reflexivity].
  apply existsb_exists in E. destruct E as [c [Hc E]].
  apply N.eqb_eq in E. subst c. rewrite forallb_forall in H.
  specialize (H _ Hc). discriminate.
Qed.

(* ------------------------------------------------------------------ *)
(** ** The scoring loop and its history *)

Lemma nth_setUsed (l : list bool) (n j : nat) :
  nth j (setUsed l n) false = if (j =? n)%nat then true else nth j l false.
Proof.
  revert l j. induction n as [|n IH]; intros [|b l] [|j]; simpl;
    try reflexivity; try apply IH.
  - now destruct j.
  - rewrite IH. destruct (j =? n)%nat; [reflexivity|now destruct j].
Qed.

Lemma length_setUsed (l : list bool) (n : nat) :
  (n < length l)%nat -> length (setUsed l n) = length l.
Proof.
  revert l. induction n as [|n IH]; intros [|b l]; simpl; try lia.
  intros H. rewrite IH; lia.
Qed.

Lemma nth_markUsed (len : nat) (l : list bool) (i j : nat) :
  nth j (markUsed l i len) false
  = if ((i <=? j) && (j <? i + len))%nat then true else nth j l false.
Proof.
  revert l i. induction len as [|len IH]; intros l i; simpl.
  - destruct (i <=? j)%nat eqn:E1; simpl; [|reflexivity].
    destruct (Nat.ltb_spec j (i + 0)); [|reflexivity].
    apply Nat.leb_le in E1. lia.
  - rewrite IH, nth_setUsed.
    destruct (Nat.leb_spec (S i) j), (Nat.ltb_spec j (S i + len)),
             (Nat.leb_spec i j), (Nat.ltb_spec j (i + S len)),
             (Nat.eqb_spec j i); simpl; try reflexivity; lia.
Qed.

Lemma length_markUsed (len : nat) (l : list bool) (i : nat) :
  (i + len <= length l)%nat -> length (markUsed l i len) = length l.
Proof.
  revert l i. induction len as [|len IH]; intros l i H; simpl; [reflexivity|].
  rewrite IH; rewrite length_setUsed; lia.
Qed.

(** A phrase that matches at [i] lies within the words. *)
Lemma partsMatch_in_range (words parts : list jsstring) (i : nat) :
  partsMatch words i parts = true -> parts <> [] ->
  (i + length parts <= length words)%nat.
Proof.
  revert i. induction parts as [|p parts IH]; intros i H Hne; [contradiction|].
  simpl in H. destruct (nth_error words i) as [w|] eqn:E; [|discriminate].
  apply andb_true_iff in H. destruct H as [_ H].
  assert (i < length words)%nat by (apply nth_error_Some; congruence).
  destruct parts as [|q parts]; [simpl; lia|].
  specialize (IH (S i) H). simpl in *. assert (q :: parts <> []) by discriminate.
  specialize (IH H1). lia.
Qed.

Lemma split_nonempty (s : jsstring) : Str.split s <> [].
Proof.
  unfold Str.split. generalize (@nil N) as cur.
  induction s as [|c s IH]; intros cur; simpl; [discriminate|].
  destruct (c =? Str.space)%N; [discriminate|apply IH].
Qed.

Lemma findPhrase_some (phrases : list Phrase) (words : list jsstring)
    (i : nat) (p : Phrase) (len : nat) :
  findPhrase phrases words i = Some (p, len) ->
  In p phrases /\ partsMatch words i (Str.split (phrase p)) = true
  /\ len = length (Str.split (phrase p)).
Proof.
  induction phrases as [|q phrases IH]; simpl; [discriminate|].
  destruct (partsMatch words i (Str.split (phrase q))) eqn:E.
  - intros H. injection H as <- <-. auto.
  - intros H. destruct (IH H) as (H1 & H2 & H3). auto.
Qed.

Lemma scoreOf_addScore (s : Scores) (e' e : emotion) (w : Q) :
  scoreOf (addScore s e' w) e
  = if emotion_eqb e' e then scoreOf s e + w else scoreOf s e.
Proof. destruct e', e; reflexivity. Qed.

Lemma total_snoc (e : emotion) (h : list Event) (ev : Event) :
  total e (h ++ [ev])
  = if emotion_eqb (ev_emotion ev) e then total e h + ev_value ev else total e h.
Proof. unfold total. now rewrite fold_left_app. Qed.

Lemma loop_invariant (P : nat -> LoopState -> Prop)
    (f : LoopState -> nat -> LoopState) (n : nat) (init : LoopState) :
  P 0%nat init ->
  (forall i st, (i < n)%nat -> P i st -> P (S i) (f st i)) ->
  P n (fold_left f (seq 0 n) init).
Proof.
  intros H0 Hs. induction n as [|n IH]; [exact H0|].
  rewrite seq_S, fold_left_app. simpl. apply Hs; [lia|].
  apply IH. intros i st Hi. apply Hs. lia.
Qed.

Section Loop.

Variables (dim : table) (words : list jsstring) (lexicon : Lexicon)
          (phrases : list Phrase).

Lemma turn_begins (n : nat) (st : LoopState) :
  loopInv dim words lexicon phrases n st -> nth n (used st) false = false ->
  turnInv dim words lexicon phrases n st.
Proof.
  intros (A & B & L & C & D) Hu. repeat split; auto.
  eapply Forall_impl; [|exact C]. intros ev (M & V & I & K).
  repeat split; auto; [lia|]. intros _.
  destruct (Nat.le_gt_cases (ev_idx ev + ev_len ev) n) as [H|H]; [exact H|].
  specialize (K (n - ev_idx ev)%nat).
  replace (ev_idx ev + (n - ev_idx ev))%nat with n in K by lia.
  rewrite K in Hu; [discriminate|lia].
Qed.

Lemma turn_ends (n : nat) (st : LoopState) :
  turnInv dim words lexicon phrases n st ->
  loopInv dim words lexicon phrases (S n) st.
Proof.
  intros (A & B & L & C & D). repeat split; auto.
  eapply Forall_impl; [|exact C]. intros ev (M & V & I & _ & K).
  repeat split; auto. lia.
Qed.

(** A hit at the index of the turn keeps what holds within the turn. *)
Lemma turn_hit (n len : nat) (e : emotion) (weight : Q) (st : LoopState) :
  turnInv dim words lexicon phrases n st ->
  isMatch words lexicon phrases
          (mkEvent n len e weight
             (contribution dim words (findIndex isContrast words) n weight)) ->
  (forall k, (1 <= k < len)%nat -> nth (n + k) (used st) false = true) ->
  turnInv dim words lexicon phrases n
          (applyHit dim words (findIndex isContrast words) n len e weight st).
Proof.
  intros (A & B & L & C & D) M K. unfold applyHit.
  set (ev := mkEvent n len e weight _) in *.
  repeat split; cbn [scores hits used history].
  - intros e0. rewrite scoreOf_addScore, total_snoc, A. reflexivity.
  - rewrite length_app, B. simpl. lia.
  - exact L.
  - apply Forall_app. split; [exact C|]. constructor; [|constructor].
    repeat split; auto; simpl; lia.
  - intros ev1 ev2 H1 H2 Hlt.
    rewrite Forall_forall in C.
    apply in_app_or in H1. apply in_app_or in H2.
    destruct H1 as [H1|[<-|[]]], H2 as [H2|[<-|[]]].
    + now apply D.
    + destruct (C _ H1) as (_ & _ & _ & I & _). simpl in *. apply I. exact Hlt.
    + destruct (C _ H2) as (_ & _ & I & _). simpl in *. lia.
    + lia.
Qed.

Lemma turn_wordStep (n : nat) (st : LoopState) (e : emotion) :
  turnInv dim words lexicon phrases n st ->
  turnInv dim words lexicon phrases n
          (wordStep dim words lexicon (findIndex isContrast words) n st e).
Proof.
  intros H. unfold wordStep.
  destruct (get (tableOf lexicon e) (wordOr words n)) as [w|] eqn:E; [|exact H].
  apply turn_hit; [exact H| |intros k Hk; lia].
  right. simpl. auto.
Qed.

Lemma iteration_inv (n : nat) (st : LoopState) :
  loopInv dim words lexicon phrases n st ->
  loopInv dim words lexicon phrases (S n)
          (iteration dim words lexicon phrases (findIndex isContrast words) st n).
Proof.
  intros H. unfold iteration.
  destruct (nth n (used st) false) eqn:Hu.
  - destruct H as (A & B & L & C & D). repeat split; auto.
    eapply Forall_impl; [|exact C]. intros ev (M & V & I & K).
    repeat split; auto.
  - apply turn_begins in H; [|exact Hu]. apply turn_ends.
    destruct (findPhrase phrases words n) as [[p len]|] eqn:Ef.
    + apply findPhrase_some in Ef. destruct Ef as (Hin & Hm & Hlen).
      pose proof (partsMatch_in_range _ _ _ Hm (split_nonempty _)) as Hr.
      apply turn_hit.
      * destruct H as (A & B & L & C & D).
        repeat split; cbn [scores hits used history]; auto.
        -- rewrite length_markUsed; [exact L|]. rewrite L, Hlen. exact Hr.
        -- eapply Forall_impl; [|exact C]. intros ev (M & V & I & J & K).
           repeat split; auto. intros k Hk. rewrite nth_markUsed.
           destruct (_ && _)%nat; [reflexivity|now apply K].
      * left. exists p. simpl. auto.
      * intros k Hk. cbn [used]. rewrite nth_markUsed.
        destruct (Nat.leb_spec n (n + k)), (Nat.ltb_spec (n + k) (n + len));
          simpl; try reflexivity; lia.
    + simpl. repeat apply turn_wordStep. exact H.
Qed.

(** The state the loop ends in: the totals are the sums of the values of
    its matches, [hits] is their number, and no match starts on a word an
    earlier match spans. *)
Lemma runLoop_inv :
  loopInv dim words lexicon phrases (length words)
          (runLoop dim words lexicon phrases).
Proof.
  unfold runLoop.
  apply (loop_invariant (loopInv dim words lexicon phrases)).
  - repeat split; simpl; auto.
    + now intros [].
    + apply repeat_length.
    + intros ev1 ev2 [].
  - intros i st _. apply iteration_inv.
Qed.

End Loop.

(* ------------------------------------------------------------------ *)
(** ** Every match is recorded *)

Lemma nth_repeat_false (n i : nat) : nth i (repeat false n) false = false.
Proof.
  revert i. induction n as [|n IH]; intros [|i]; simpl; auto.
Qed.

Section Complete.

Variables (dim : table) (words : list jsstring) (lexicon : Lexicon)
          (phrases : list Phrase).

Lemma spanned_more (h l : list Event) (i : nat) :
  spanned h i -> spanned (h ++ l) i.
Proof.
  intros (ev & Hin & H). exists ev. split; [|exact H].
  apply in_or_app. now left.
Qed.

Lemma recorded_more (h l : list Event) (i : nat) :
  recorded dim words lexicon phrases h i ->
  recorded dim words lexicon phrases (h ++ l) i.
Proof.
  unfold recorded. destruct (findPhrase phrases words i) as [[p len]|].
  - intros H. apply in_or_app. now left.
  - intros H e w Hg. apply in_or_app. left. now apply H.
Qed.

(** The single-word branch keeps the events there are and adds one for
    every emotion whose table holds the word. *)
Lemma words_history (c : Z) (i : nat) (st : LoopState) :
  exists l,
    history (fold_left (wordStep dim words lexicon c i) emotions st)
    = history st ++ l
    /\ used (fold_left (wordStep dim words lexicon c i) emotions st) = used st
    /\ forall e w, get (tableOf lexicon e) (wordOr words i) = Some w ->
                   In (mkEvent i 1 e w (contribution dim words c i w)) l.
Proof.
  unfold emotions, wordStep. cbn [fold_left tableOf].
  destruct (get (lex_anger lexicon) (wordOr words i)) as [wa|] eqn:Ea,
           (get (lex_joy lexicon) (wordOr words i)) as [wj|] eqn:Ej,
           (get (lex_sad lexicon) (wordOr words i)) as [ws|] eqn:Es;
    cbn [applyHit history]; rewrite <- ?app_assoc;
    first [ eexists; split; [reflexivity|split; [reflexivity|]]
          | exists []; split; [symmetry; apply app_nil_r|split; [reflexivity|]] ];
    intros e w Hg; destruct e; cbn [tableOf] in Hg;
    rewrite ?Ea, ?Ej, ?Es in Hg; try discriminate Hg;
    injection Hg as <-; cbn [app In]; auto.
Qed.

Lemma iteration_full (n : nat) (st : LoopState) :
  fullInv dim words lexicon phrases n st ->
  fullInv dim words lexicon phrases (S n)
          (iteration dim words lexicon phrases (findIndex isContrast words) st n).
Proof.
  intros (L & U & R).
  split; [now apply iteration_inv|].
  assert (I : forall ev, In ev (history st) -> (ev_idx ev < n)%nat).
  { destruct L as (_ & _ & _ & C & _). rewrite Forall_forall in C.
    intros ev Hev. now destruct (C ev Hev) as (_ & _ & H & _). }
  unfold iteration. destruct (nth n (used st) false) eqn:Hu.
  - split.
    + intros j Hj. apply U. lia.
    + intros i Hi. destruct (Nat.eq_dec i n) as [->|Hn]; [|apply R; lia].
      left. destruct (U n (le_n n) Hu) as (ev & Hev & Hr).
      exists ev. split; [exact Hev|]. specialize (I ev Hev). lia.
  - destruct (findPhrase phrases words n) as [[p len]|] eqn:Ef.
    + cbn [applyHit used history]. split.
      * intros j Hj Hm. rewrite nth_markUsed in Hm.
        destruct ((n <=? j) && (j <? n + len))%nat eqn:E.
        -- apply andb_true_iff in E. destruct E as [_ E].
           apply Nat.ltb_lt in E. eexists. split.
           ++ apply in_or_app. right. left. reflexivity.
           ++ cbn [ev_idx ev_len]. exact E.
        -- destruct (U j ltac:(lia) Hm) as (ev & Hev & Hr).
           exists ev. split; [apply in_or_app; now left|exact Hr].
      * intros i Hi. destruct (Nat.eq_dec i n) as [->|Hn].
        -- right. unfold recorded. rewrite Ef. apply in_or_app. right.
           left. reflexivity.
        -- destruct (R i ltac:(lia)) as [H|H];
             [left; now apply spanned_more|right; now apply recorded_more].
    + destruct (words_history (findIndex isContrast words) n st)
        as (l & El & Eu & Hl).
      rewrite Eu, El. split.
      * intros j Hj Hm. destruct (U j ltac:(lia) Hm) as (ev & Hev & Hr).
        exists ev. split; [apply in_or_app; now left|exact Hr].
      * intros i Hi. destruct (Nat.eq_dec i n) as [->|Hn].
        -- right. unfold recorded. rewrite Ef. intros e w Hg.
           apply in_or_app. right. now apply Hl.
        -- destruct (R i ltac:(lia)) as [H|H];
             [left; now apply spanned_more|right; now apply recorded_more].
Qed.

(** The state the loop ends in records the matches of every word that no
    earlier match spans. *)
Lemma runLoop_full :
  fullInv dim words lexicon phrases (length words)
          (runLoop dim words lexicon phrases).
Proof.
  unfold runLoop.
  apply (loop_invariant (fullInv dim words lexicon phrases)).
  - split; [|split].
    + repeat split; simpl; auto.
      * now intros [].
      * apply repeat_length.
      * intros ev1 ev2 [].
    + intros j _ H. cbn [initial used] in H.
      rewrite nth_repeat_false in H. discriminate.
    + intros i Hi. lia.
  - intros i st _. apply iteration_full.
Qed.

End Complete.

(* ------------------------------------------------------------------ *)
(** ** Contrast pivot *)

Lemma findIndexFrom_spec (f : jsstring -> bool) (l : list jsstring) (i : Z) :
  (findIndexFrom f i l = (-1)%Z /\ forall w, In w l -> f w = false)
  \/ (exists p, findIndexFrom f i l = (i + Z.of_nat p)%Z
                /\ (p < length l)%nat /\ f (nth p l []) = true
                /\ forall j, (j < p)%nat -> f (nth j l []) = false).
Proof.
  revert i. induction l as [|w l IH]; intros i; simpl.
  - left. split; [reflexivity|]. intros w [].
  - destruct (f w) eqn:E.
    + right. exists 0%nat. repeat split; simpl; try lia; try exact E.
    + destruct (IH (i + 1)%Z) as [[H1 H2] | (p & H1 & H2 & H3 & H4)].
      * left. split; [exact H1|]. intros w' [<-|Hw]; auto.
      * right. exists (S p). repeat split; simpl; try lia; try exact H3.
        intros [|j] Hj; [exact E|]. apply H4. lia.
Qed.

(** [findIndex] gives the first index where [f] holds, or [-1]. *)
Lemma findIndex_spec (f : jsstring -> bool) (l : list jsstring) :
  (findIndex f l = (-1)%Z /\ forall w, In w l -> f w = false)
  \/ (exists p, findIndex f l = Z.of_nat p
                /\ (p < length l)%nat /\ f (nth p l []) = true
                /\ forall j, (j < p)%nat -> f (nth j l []) = false).
Proof. apply (findIndexFrom_spec f l 0). Qed.

(** With a lexicon, the result is read off the state the loop ends in; with
    no token that state is the initial one. *)
Lemma score_result (d : table) (text : jsstring) (lexicon : Lexicon)
    (phrases : list Phrase) :
  scoreWith d text (Some lexicon) phrases
  = let st := runLoop d (tokenize text) lexicon phrases in
    mkResult (sc_anger (scores st)) (sc_joy (scores st)) (sc_sad (scores st))
             (hits st) (length (tokenize text)).
Proof.
  unfold scoreWith. cbv zeta.
  destruct (tokenize text) as [|w ws] eqn:E; reflexivity.
Qed.

(** C6: the pivot is the first "but", "however" or "though" of the
    normalised token sequence, or there is none; the totals the scorer
    returns are the sums of the values of its matches; the value of a
    match, phrase or single word, is its weight times intensity times
    soften, times 1.6 when its start index is strictly after the pivot and
    not otherwise (at or before the pivot, or with no pivot), before the
    negation factor.  The matches are all there: at every index that no
    earlier match spans, the first phrase entry that matches is recorded
    or, when none does, the word under every emotion whose table holds it;
    and no match starts on a word an earlier one spans.  With "happy" of
    weight 1 under joy and "sad" of weight 1 under sad, "I am sad but
    happy" scores 1.6 for joy and 1 for sad, and "I am sad and happy"
    scores 1 for joy; a phrase is boosted like a word ("sad but fed up",
    with "fed up" of weight 2 under anger, scores 3.2 for anger, "fed up
    but sad" scores 2); and since the pivot is looked for among the
    normalised tokens, "sad though happy" has one and "I am sad however
    happy" has none, "however" being stemmed to "howev". *)
Theorem contrast_boost_after_first_pivot
    (text : jsstring) (lexicon : Lexicon) (phrases : list Phrase) :
  let words := tokenize text in
  let pivot := findIndex isContrast words in
  let st := runLoop DIMINISHERS words lexicon phrases in
  let result := scoreTextWithContext text (Some lexicon) phrases in
  ((pivot = (-1)%Z /\ forall w, In w words -> isContrast w = false)
   \/ (exists p, pivot = Z.of_nat p /\ (p < length words)%nat
                 /\ isContrast (nth p words []) = true
                 /\ forall j, (j < p)%nat -> isContrast (nth j words []) = false))
  /\ res_anger result = total anger (history st)
  /\ res_joy result = total joy (history st)
  /\ res_sad result = total sad (history st)
  /\ res_hits result = length (history st)
  /\ Forall (fun ev =>
       let i := ev_idx ev in
       let base := ev_weight ev * intensityAt words i * softenAt DIMINISHERS words i in
       isMatch words lexicon phrases ev
       /\ ((pivot <> (-1)%Z /\ (pivot < Z.of_nat i)%Z) ->
           ev_value ev = negate (isNegatedAt words i) (base * 1.6))
       /\ ((pivot = (-1)%Z \/ (Z.of_nat i <= pivot)%Z) ->
           ev_value ev = negate (isNegatedAt words i) base))
     (history st)
  /\ (forall i, (i < length words)%nat ->
        spanned (history st) i
        \/ recorded DIMINISHERS words lexicon phrases (history st) i)
  /\ apart (history st)
  /\ (let lex := mkLexicon [] [(js "happy", 1.0)] [(js "sad", 1.0)] in
      let but := scoreTextWithContext (js "I am sad but happy") (Some lex) [] in
      let plain := scoreTextWithContext (js "I am sad and happy") (Some lex) [] in
      let though := scoreTextWithContext (js "sad though happy") (Some lex) [] in
      let however := scoreTextWithContext (js "I am sad however happy") (Some lex) [] in
      res_joy but == 1.6 /\ res_sad but == 1 /\ res_hits but = 2%nat
      /\ res_joy plain == 1 /\ res_sad plain == 1
      /\ res_joy though == 1.6 /\ res_joy however == 1)
  /\ (let lex := mkLexicon [(js "fed up", 2.0)] [] [(js "sad", 1.0)] in
      let after := scoreTextWithContext (js "sad but fed up") (Some lex)
                                        (extractPhrases lex) in
      let before := scoreTextWithContext (js "fed up but sad") (Some lex)
                                         (extractPhrases lex) in
      res_anger after == 3.2 /\ res_sad after == 1 /\ res_hits after = 2%nat
      /\ res_anger before == 2 /\ res_sad before == 1.6).
Proof.
  cbv zeta.
  destruct (runLoop_full DIMINISHERS (tokenize text) lexicon phrases)
    as ((A & B & _ & C & D) & _ & R).
  split; [apply findIndex_spec|].
  unfold scoreTextWithContext at 1 2 3 4. rewrite score_result. cbv zeta.
  cbn [res_anger res_joy res_sad res_hits].
  split; [apply (A anger)|]. split; [apply (A joy)|]. split; [apply (A sad)|].
  split; [exact B|].
  split; [|split; [exact R|split; [exact D|split; repeat split; vm_compute; reflexivity]]].
  eapply Forall_impl; [|exact C]. intros ev (M & V & _).
  split; [exact M|]. unfold valued, contribution, afterPivot in V.
  cbv zeta in V. unfold negate, contrastBoost. split.
  - intros [H1 H2]. rewrite V.
    destruct (Z.eqb_spec (findIndex isContrast (tokenize text)) (-1));
      [contradiction|].
    destruct (Z.ltb_spec (findIndex isContrast (tokenize text))
                         (Z.of_nat (ev_idx ev))); [reflexivity|lia].
  - intros H. rewrite V.
    destruct (Z.eqb_spec (findIndex isContrast (tokenize text)) (-1));
      [reflexivity|].
    destruct (Z.ltb_spec (findIndex isContrast (tokenize text))
                         (Z.of_nat (ev_idx ev))); [lia|reflexivity].
Qed.

(* ------------------------------------------------------------------ *)
(** ** Look-back and consumption *)


(* ------------------------------------------------------------------ *)
(** ** The diminisher look-ahead *)

Lemma trimStart_black (s t : jsstring) :
  startsBlack s = true -> Str.trimStart (s ++ t) = s ++ t.
Proof.
  destruct s as [|c s]; simpl; [discriminate|].
  intros H. apply negb_true_iff in H. now rewrite H.
Qed.

Lemma trimStart_white (w s : jsstring) :
  forallb Str.isWhite w = true -> Str.trimStart (w ++ s) = Str.trimStart s.
Proof.
  induction w as [|c w IH]; simpl; [reflexivity|].
  intros H. apply andb_true_iff in H. destruct H as [H1 H2].
  rewrite H1. now apply IH.
Qed.

Lemma startsBlack_app (s t : jsstring) :
  startsBlack s = true -> startsBlack (s ++ t) = true.
Proof. destruct s; simpl; [discriminate|auto]. Qed.

(** [trim] takes the white space off a padded tight string. *)
Lemma trim_pad (x w : jsstring) :
  tight x -> forallb Str.isWhite w = true -> Str.trim (x ++ w) = x.
Proof.
  intros [H1 H2] Hw. unfold Str.trim.
  rewrite (trimStart_black _ _ H1), rev_app_distr, trimStart_white.
  - rewrite <- (app_nil_r (rev x)), (trimStart_black _ _ H2), app_nil_r.
    apply rev_involutive.
  - rewrite forallb_forall in *. intros c Hc. apply Hw. now apply in_rev.
Qed.

Lemma trim_tight (x : jsstring) : tight x -> Str.trim x = x.
Proof. intros H. rewrite <- (app_nil_r x) at 1. now apply trim_pad. Qed.

Lemma wordChar_not_white (c : N) :
  Str.isWordChar c = true -> Str.isWhite c = false.
Proof.
  unfold Str.isWordChar, Str.isWhite. intros H.
  apply orb_true_iff in H. destruct H as [H|H].
  - apply andb_true_iff in H. destruct H as [H1 H2].
    apply N.leb_le in H1. apply N.leb_le in H2. ncases.
  - apply N.eqb_eq in H. subst c. reflexivity.
Qed.

Lemma startsBlack_words (s : jsstring) :
  s <> [] -> (forall c, In c s -> Str.isWordChar c = true) -> startsBlack s = true.
Proof.
  destruct s as [|c s]; [contradiction|]. intros _ H. simpl.
  apply negb_true_iff, wordChar_not_white, H. now left.
Qed.

Lemma tight_token (w : jsstring) : isToken w = true -> tight w.
Proof.
  rewrite isToken_iff, forallb_forall. intros [Hne Hc]. split.
  - now apply startsBlack_words.
  - apply startsBlack_words.
    + intros E. apply Hne. rewrite <- (rev_involutive w), E. reflexivity.
    + intros c Hin. apply Hc. now apply in_rev.
Qed.

Lemma tight_cat (a b : jsstring) :
  tight a -> tight b -> tight (a ++ Str.space :: b).
Proof.
  intros [A1 A2] [B1 B2]. split.
  - now apply startsBlack_app.
  - rewrite rev_app_distr. simpl. rewrite <- !app_assoc.
    now apply startsBlack_app.
Qed.

Lemma nth_skipn_plus (l : list jsstring) (n k : nat) :
  nth (n + k) l [] = nth k (skipn n l) [].
Proof.
  revert l. induction n as [|n IH]; intros l; simpl; [reflexivity|].
  destruct l as [|x l]; [now destruct k|apply IH].
Qed.

Lemma Forall_skipn {A : Type} (P : A -> Prop) (n : nat) (l : list A) :
  Forall P l -> Forall P (skipn n l).
Proof.
  intros H. rewrite <- (firstn_skipn n l) in H. apply Forall_app in H. tauto.
Qed.

(** On a sequence of tokens the look-ahead of the source is the look-ahead
    of the specification. *)
Lemma getPostDiminisher_windows (words : list jsstring) (i : nat) :
  Forall (fun w => isToken w = true) words ->
  getPostDiminisher words i = firstWindowFactor words i.
Proof.
  intros Hw. unfold getPostDiminisher, firstWindowFactor, window, wordOr.
  cbv zeta.
  pose proof (Forall_skipn _ (i + 1) _ Hw) as Hr.
  assert (E1 : nth (i + 1) words [] = nth 0 (skipn (i + 1) words) [])
    by (rewrite <- nth_skipn_plus; f_equal; lia).
  assert (E2 : nth (i + 2) words [] = nth 1 (skipn (i + 1) words) [])
    by (rewrite <- nth_skipn_plus; f_equal; lia).
  assert (E3 : nth (i + 3) words [] = nth 2 (skipn (i + 1) words) [])
    by (rewrite <- nth_skipn_plus; f_equal; lia).
  assert (E4 : nth (i + 4) words [] = nth 3 (skipn (i + 1) words) [])
    by (rewrite <- nth_skipn_plus; f_equal; lia).
  rewrite E1, E2, E3, E4. clear E1 E2 E3 E4.
  destruct (skipn (i + 1) words) as [|a [|b [|c [|d r]]]];
    [reflexivity| | | |];
    repeat match goal with
    | H : Forall _ (_ :: _) |- _ =>
        let T := fresh "T" in
        apply Forall_cons_iff in H; destruct H as [T H]; apply tight_token in T
    end;
    cbn [nth firstn Str.join app].
  - rewrite !trim_pad by (auto; reflexivity). reflexivity.
  - assert (Tab : tight (a ++ Str.space :: b)) by now apply tight_cat.
    rewrite (trim_tight _ Tab).
    replace (a ++ Str.space :: b ++ [Str.space])
      with ((a ++ Str.space :: b) ++ [Str.space])
      by (rewrite <- !app_assoc; reflexivity).
    replace (a ++ Str.space :: b ++ [Str.space; Str.space])
      with ((a ++ Str.space :: b) ++ [Str.space; Str.space])
      by (rewrite <- !app_assoc; reflexivity).
    rewrite !trim_pad by (auto; reflexivity). reflexivity.
  - assert (Tab : tight (a ++ Str.space :: b)) by now apply tight_cat.
    assert (Tbc : tight (b ++ Str.space :: c)) by now apply tight_cat.
    assert (Tabc : tight (a ++ Str.space :: b ++ Str.space :: c))
      by now apply tight_cat.
    rewrite (trim_tight _ Tab), (trim_tight _ Tabc).
    replace (a ++ Str.space :: b ++ Str.space :: c ++ [Str.space])
      with ((a ++ Str.space :: b ++ Str.space :: c) ++ [Str.space])
      by (rewrite <- !app_assoc; simpl; rewrite <- !app_assoc; reflexivity).
    rewrite !trim_pad by (auto; reflexivity). reflexivity.
  - assert (Tab : tight (a ++ Str.space :: b)) by now apply tight_cat.
    assert (Tcd : tight (c ++ Str.space :: d)) by now apply tight_cat.
    assert (Tbc : tight (b ++ Str.space :: c)) by now apply tight_cat.
    assert (Tabc : tight (a ++ Str.space :: b ++ Str.space :: c))
      by now apply tight_cat.
    assert (Tbcd : tight (b ++ Str.space :: c ++ Str.space :: d))
      by now apply tight_cat.
    assert (Tabcd : tight (a ++ Str.space :: b ++ Str.space :: c
                             ++ Str.space :: d)) by now apply tight_cat.
    rewrite (trim_tight _ Tab), (trim_tight _ Tabc), (trim_tight _ Tabcd).
    reflexivity.
Qed.

Lemma get_singleWord (t : table) (k : jsstring) :
  Str.hasSpace k = false -> get (singleWord t) k = get t k.
Proof.
  intros Hk. induction t as [|[k' v] t IH]; simpl; [reflexivity|].
  destruct (Str.hasSpace k') eqn:E; simpl.
  - destruct (Str.eqb k' k) eqn:Ek; [|exact IH].
    apply eqb_eq in Ek. congruence.
  - now rewrite IH.
Qed.

(** What the look-back reads is a token or the empty string. *)
Lemma wordAt_no_space (words : list jsstring) (z : Z) :
  Forall (fun w => isToken w = true) words -> Str.hasSpace (wordAt words z) = false.
Proof.
  intros H. unfold wordAt. destruct (z <? 0)%Z; [reflexivity|].
  destruct (nth_in_or_default (Z.to_nat z) words []) as [Hin | ->];
    [|reflexivity].
  rewrite Forall_forall in H. now apply token_no_space, H.
Qed.

Section TwoTables.

Variables d1 d2 : table.
Hypothesis agree : forall k, Str.hasSpace k = false -> get d1 k = get d2 k.

Variable words : list jsstring.
Hypothesis tokens : Forall (fun w => isToken w = true) words.

Lemma softenAt_agree (i : nat) : softenAt d1 words i = softenAt d2 words i.
Proof.
  unfold softenAt. now rewrite !agree by now apply wordAt_no_space.
Qed.

Lemma contribution_agree (c : Z) (i : nat) (weight : Q) :
  contribution d1 words c i weight = contribution d2 words c i weight.
Proof. unfold contribution. now rewrite softenAt_agree. Qed.

Lemma iteration_agree (lexicon : Lexicon) (phrases : list Phrase) (c : Z)
    (st : LoopState) (i : nat) :
  iteration d1 words lexicon phrases c st i
  = iteration d2 words lexicon phrases c st i.
Proof.
  unfold iteration, wordStep, applyHit. simpl.
  destruct (nth i (used st) false); [reflexivity|].
  destruct (findPhrase phrases words i) as [[p len]|];
    [now rewrite contribution_agree|].
  repeat match goal with
  | |- context [get ?t ?k] => destruct (get t k)
  end; cbn [scores hits used history]; now rewrite ?contribution_agree.
Qed.

Lemma runLoop_agree (lexicon : Lexicon) (phrases : list Phrase) :
  runLoop d1 words lexicon phrases = runLoop d2 words lexicon phrases.
Proof.
  unfold runLoop. generalize (initial (length words)) as st.
  induction (seq 0 (length words)) as [|i l IH]; intros st; simpl;
    [reflexivity|]. now rewrite iteration_agree, IH.
Qed.

End TwoTables.

(** Two diminisher tables that agree on the keys of one word give the same
    score. *)
Lemma scoreWith_agree (d1 d2 : table) :
  (forall k, Str.hasSpace k = false -> get d1 k = get d2 k) ->
  forall text lexicon phrases,
    scoreWith d1 text lexicon phrases = scoreWith d2 text lexicon phrases.
Proof.
  intros H text [lexicon|] phrases; [|reflexivity].
  rewrite !score_result. cbv zeta.
  now rewrite (runLoop_agree d1 d2 H (tokenize text) (tokenize_tokens text)).
Qed.

(** C8: on the tokens of a text, [getPostDiminisher] returns the factor of
    the first of the 4-, 3-, 2- and 1-word windows after position [i] that
    is a key of the diminisher table, else 1.0.  The scoring loop does not
    call it and reads the table only at single tokens before a match: the
    score is the one computed with the one-word entries alone, and more
    generally with any table that agrees with [DIMINISHERS] on keys of one
    word, so the entries of several words such as "a little bit" bear on no
    total. *)
Theorem lookahead_windows_and_unused
    (text : jsstring) (i : nat) (lexicon : option Lexicon)
    (phrases : list Phrase) :
  getPostDiminisher (tokenize text) i = firstWindowFactor (tokenize text) i
  /\ scoreTextWithContext text lexicon phrases
     = scoreWith (singleWord DIMINISHERS) text lexicon phrases
  /\ (forall d : table,
        (forall k, Str.hasSpace k = false -> get d k = get DIMINISHERS k) ->
        scoreWith d text lexicon phrases
        = scoreTextWithContext text lexicon phrases).
Proof.
  split; [apply getPostDiminisher_windows, tokenize_tokens|]. split.
  - unfold scoreTextWithContext. apply scoreWith_agree.
    intros k Hk. symmetry. now apply get_singleWord.
  - intros d H. unfold scoreTextWithContext. now apply scoreWith_agree.
Qed.

Lemma lookahead_windows_and_unused_witness :
  getPostDiminisher (tokenize (js "sad a little bit today")) 0
  = firstWindowFactor (tokenize (js "sad a little bit today")) 0
  /\ scoreWith (singleWord DIMINISHERS)
               (js "a little bit sad") (Some (mkLexicon [] [] [(js "sad", 1.0)])) []
     = scoreTextWithContext (js "a little bit sad")
                            (Some (mkLexicon [] [] [(js "sad", 1.0)])) [].
Proof.
  split.
  - apply (lookahead_windows_and_unused (js "sad a little bit today") 0 None []).
  - apply (lookahead_windows_and_unused (js "a little bit sad") 0
             (Some (mkLexicon [] [] [(js "sad", 1.0)])) []).
    intros k Hk. apply get_singleWord. exact Hk.
Defined.

(* ------------------------------------------------------------------ *)
(** ** Tables and the lexicon normaliser *)

Lemma get_setKey (t : table) (k k' : jsstring) (v : Q) :
  get (setKey k v t) k' = if Str.eqb k k' then Some v else get t k'.
Proof.
  induction t as [|[k0 v0] t IH]; simpl.
  - reflexivity.
  - destruct (Str.eqb k0 k) eqn:E0; simpl.
    + apply eqb_eq in E0. subst k0. now destruct (Str.eqb k k').
    + rewrite IH. destruct (Str.eqb k0 k') eqn:E1; [|reflexivity].
      apply eqb_eq in E1. subst k0. rewrite eqb_sym in E0. now rewrite E0.
Qed.

Lemma keys_setKey (t : table) (k k' : jsstring) (v : Q) :
  In k' (keys (setKey k v t)) <-> k' = k \/ In k' (keys t).
Proof.
  unfold keys. induction t as [|[k0 v0] t IH]; simpl.
  - intuition.
  - destruct (Str.eqb k0 k) eqn:E0; simpl.
    + apply eqb_eq in E0. subst k0. intuition.
    + rewrite IH. intuition.
Qed.

Lemma get_in_keys (t : table) (k : jsstring) (v : Q) :
  get t k = Some v -> In k (keys t).
Proof.
  induction t as [|[k0 v0] t IH]; simpl; [discriminate|].
  destruct (Str.eqb k0 k) eqn:E; [apply eqb_eq in E; auto|auto].
Qed.

Lemma get_not_in_keys (t : table) (k : jsstring) :
  ~ In k (keys t) -> get t k = None.
Proof.
  intros H. destruct (get t k) eqn:E; [|reflexivity].
  elim H. eapply get_in_keys; eauto.
Qed.

(** In a table with each key once, an entry is what [get] finds. *)
Lemma get_of_entry (t : table) (k : jsstring) (v : Q) :
  NoDup (keys t) -> In (k, v) t -> get t k = Some v.
Proof.
  induction t as [|[k0 v0] t IH]; simpl; [contradiction|].
  intros Hn [E|Hin].
  - injection E as -> ->. now rewrite eqb_refl.
  - inversion Hn as [|? ? Hk Hn']; subst.
    destruct (Str.eqb k0 k) eqn:E; [|auto].
    apply eqb_eq in E. subst k0. elim Hk.
    apply in_map_iff. exists (k, v). auto.
Qed.

Lemma Math_max_cases (a b : Q) :
  (Math_max a b = a /\ b <= a) \/ (Math_max a b = b /\ a <= b).
Proof.
  unfold Math_max. destruct (Qle_bool a b) eqn:E.
  - right. split; [reflexivity|]. now apply Qle_bool_iff.
  - left. split; [reflexivity|].
    destruct (Qlt_le_dec a b) as [H|H]; [|exact H].
    apply Qlt_le_weak, Qle_bool_iff in H. congruence.
Qed.

Lemma lowerChar_space (c : N) : (Str.lowerChar c =? Str.space)%N = (c =? Str.space)%N.
Proof.
  unfold Str.lowerChar, Str.space.
  destruct (N.eqb_spec c 32) as [->|Hc]; [reflexivity|].
  destruct ((65 <=? c) && (c <=? 90))%N eqn:E1.
  - apply andb_true_iff in E1. destruct E1 as [E1 _]. apply N.leb_le in E1.
    apply N.eqb_neq. lia.
  - destruct ((192 <=? c) && (c <=? 222) && negb (c =? 215))%N eqn:E2.
    + apply andb_true_iff in E2. destruct E2 as [E2 _].
      apply andb_true_iff in E2. destruct E2 as [E2 _]. apply N.leb_le in E2.
      apply N.eqb_neq. lia.
    + now apply N.eqb_neq.
Qed.

Lemma hasSpace_toLowerCase (s : jsstring) :
  Str.hasSpace (Str.toLowerCase s) = Str.hasSpace s.
Proof.
  unfold Str.hasSpace, Str.toLowerCase.
  induction s as [|c s IH]; cbn [existsb map]; [reflexivity|].
  now rewrite IH, (N.eqb_sym Str.space), lowerChar_space, (N.eqb_sym c).
Qed.

Lemma hasSpace_replaceFirst (s : jsstring) :
  Str.hasSpace s = false ->
  Str.hasSpace (Str.replaceFirst curly apostrophe s) = false.
Proof.
  unfold Str.hasSpace. induction s as [|c s IH];
    cbn [existsb Str.replaceFirst]; [reflexivity|].
  intros H. apply orb_false_iff in H. destruct H as [H1 H2].
  destruct (c =? curly)%N; cbn [existsb]; rewrite ?H1, ?H2, ?IH; auto.
Qed.

Lemma hasSpace_firstn (n : nat) (s : jsstring) :
  Str.hasSpace s = false -> Str.hasSpace (firstn n s) = false.
Proof.
  unfold Str.hasSpace. intros H.
  destruct (existsb (N.eqb Str.space) (firstn n s)) eqn:E; [|reflexivity].
  apply existsb_exists in E. destruct E as [c [Hc E]].
  assert (existsb (N.eqb Str.space) s = true); [|congruence].
  apply existsb_exists. exists c. split; [eapply in_firstn; eauto|exact E].
Qed.

(** The normaliser puts no space in a word that has none. *)
Lemma normalizeToken_no_space (s : jsstring) :
  Str.hasSpace s = false -> Str.hasSpace (normalizeToken s) = false.
Proof.
  intros H. destruct s as [|c r]; [reflexivity|]. unfold normalizeToken.
  set (w := Str.replaceFirst curly apostrophe (Str.toLowerCase (c :: r))).
  assert (Hw : Str.hasSpace w = false)
    by (apply hasSpace_replaceFirst; now rewrite hasSpace_toLowerCase).
  assert (Hc : Str.hasSpace (contract w) = false).
  { destruct (contract_cases w) as [-> | Hin]; [exact Hw|].
    simpl in Hin. repeat (destruct Hin as [<- | Hin]; [reflexivity|]).
    contradiction. }
  cbv zeta. destruct (_ <? _)%nat; [exact Hc|].
  apply (strip_keeps (fun s => Str.hasSpace s = false));
    [intros; now apply hasSpace_firstn | exact Hc].
Qed.

Lemma formOf_no_space (k f : jsstring) :
  Str.hasSpace k = false -> formOf k f -> Str.hasSpace f = false.
Proof.
  intros Hk [-> | ->].
  - now rewrite hasSpace_toLowerCase.
  - apply normalizeToken_no_space. now rewrite hasSpace_toLowerCase.
Qed.

Lemma space_differs (k f : jsstring) :
  Str.hasSpace k = true -> Str.hasSpace f = false -> Str.eqb k f = false.
Proof. intros Hk Hf. apply eqb_neq. congruence. Qed.

Lemma Math_max_right (a b : Q) : a <= b -> Math_max a b = b.
Proof.
  intros H. unfold Math_max. apply Qle_bool_iff in H. now rewrite H.
Qed.

(** What one turn of the normaliser's loop does to a key with a space. *)
Lemma normalizeEntry_get_phrase (out : table) (k f : jsstring) (w : Q) :
  Str.hasSpace f = true ->
  get (normalizeEntry out (k, w)) f = if Str.eqb k f then Some w else get out f.
Proof.
  intros Hf. unfold normalizeEntry. destruct (Str.hasSpace k) eqn:Hk.
  - apply get_setKey.
  - cbv zeta. rewrite !get_setKey.
    assert (H1 : Str.hasSpace (Str.toLowerCase k) = false)
      by now rewrite hasSpace_toLowerCase.
    assert (H2 : Str.hasSpace (normalizeToken (Str.toLowerCase k)) = false)
      by now apply normalizeToken_no_space.
    rewrite (eqb_sym _ f), (space_differs f _ Hf H2).
    rewrite (eqb_sym _ f), (space_differs f _ Hf H1).
    rewrite (eqb_sym k f), (space_differs f _ Hf Hk). reflexivity.
Qed.

(** What it does to a key of one word. *)
Lemma normalizeEntry_get_word (out : table) (k f : jsstring) (w : Q) :
  Str.hasSpace f = false ->
  get (normalizeEntry out (k, w)) f
  = if Str.hasSpace k then get out f
    else
      let k1 := Str.toLowerCase k in
      let k2 := normalizeToken k1 in
      let v1 := Math_max (orElse (get out k1) 0) w in
      let out1 := setKey k1 v1 out in
      if Str.eqb k2 f then Some (Math_max (orElse (get out1 k2) 0) w)
      else if Str.eqb k1 f then Some v1 else get out f.
Proof.
  intros Hf. unfold normalizeEntry. destruct (Str.hasSpace k) eqn:Hk.
  - now rewrite get_setKey, (space_differs _ _ Hk Hf).
  - cbv zeta. now rewrite !get_setKey.
Qed.

Lemma entry_mono (out : table) (e : jsstring * Q) (f : jsstring) (v : Q) :
  Str.hasSpace f = false -> get out f = Some v ->
  exists v', get (normalizeEntry out e) f = Some v' /\ v <= v'.
Proof.
  intros Hf Hg. destruct e as [k w]. rewrite (normalizeEntry_get_word _ _ _ _ Hf).
  destruct (Str.hasSpace k); [exists v; split; [exact Hg|apply Qle_refl]|].
  cbv zeta.
  set (k1 := Str.toLowerCase k). set (k2 := normalizeToken k1).
  set (v1 := Math_max (orElse (get out k1) 0) w).
  assert (Hv1 : Str.eqb k1 f = true -> v <= v1).
  { intros E. apply eqb_eq in E. unfold v1. rewrite E, Hg. simpl.
    destruct (Math_max_cases v w) as [[-> _] | [-> H]];
      [apply Qle_refl|exact H]. }
  destruct (Str.eqb k2 f) eqn:E2.
  - eexists. split; [reflexivity|]. apply eqb_eq in E2. rewrite E2.
    rewrite get_setKey.
    destruct (Str.eqb k1 f) eqn:E1; simpl.
    + specialize (Hv1 eq_refl).
      destruct (Math_max_cases v1 w) as [[-> _] | [-> H]];
        [exact Hv1|eapply Qle_trans; eauto].
    + rewrite Hg. simpl.
      destruct (Math_max_cases v w) as [[-> _] | [-> H]];
        [apply Qle_refl|exact H].
  - destruct (Str.eqb k1 f) eqn:E1.
    + exists v1. split; [reflexivity|now apply Hv1].
    + exists v. split; [exact Hg|apply Qle_refl].
Qed.

Lemma table_mono (tbl acc : table) (f : jsstring) (v : Q) :
  Str.hasSpace f = false -> get acc f = Some v ->
  exists v', get (fold_left normalizeEntry tbl acc) f = Some v' /\ v <= v'.
Proof.
  intros Hf. revert acc v. induction tbl as [|e tbl IH]; intros acc v Hg; cbn [fold_left].
  - exists v. split; [exact Hg|apply Qle_refl].
  - destruct (entry_mono acc e f v Hf Hg) as (v1 & H1 & L1).
    destruct (IH _ _ H1) as (v2 & H2 & L2).
    exists v2. split; [exact H2|eapply Qle_trans; eauto].
Qed.

Lemma entry_inserts (out : table) (k f : jsstring) (w : Q) :
  Str.hasSpace k = false -> formOf k f ->
  exists v, get (normalizeEntry out (k, w)) f = Some v /\ w <= v.
Proof.
  intros Hk Hform.
  rewrite (normalizeEntry_get_word _ _ _ _ (formOf_no_space _ _ Hk Hform)), Hk.
  cbv zeta.
  set (k1 := Str.toLowerCase k) in *. set (k2 := normalizeToken k1) in *.
  assert (M : forall a, w <= Math_max a w).
  { intros a. destruct (Math_max_cases a w) as [[-> H] | [-> _]];
      [exact H|apply Qle_refl]. }
  destruct (Str.eqb k2 f) eqn:E2; [eexists; split; [reflexivity|apply M]|].
  destruct (Str.eqb k1 f) eqn:E1; [eexists; split; [reflexivity|apply M]|].
  exfalso. destruct Hform as [-> | ->]; fold k1 in E1; fold k1 k2 in E2;
    rewrite eqb_refl in *; discriminate.
Qed.

Lemma table_inserts (tbl acc : table) (k f : jsstring) (w : Q) :
  In (k, w) tbl -> Str.hasSpace k = false -> formOf k f ->
  exists v, get (fold_left normalizeEntry tbl acc) f = Some v /\ w <= v.
Proof.
  intros Hin Hk Hform. revert acc.
  induction tbl as [|e tbl IH]; intros acc; [contradiction|]. cbn [fold_left].
  destruct Hin as [-> | Hin]; [|now apply IH].
  destruct (entry_inserts acc k f w Hk Hform) as (v1 & H1 & L1).
  destruct (table_mono tbl _ f v1 (formOf_no_space _ _ Hk Hform) H1)
    as (v2 & H2 & L2).
  exists v2. split; [exact H2|eapply Qle_trans; eauto].
Qed.

Lemma entry_attained (out : table) (k f : jsstring) (w v : Q) :
  0 <= w -> Str.hasSpace f = false ->
  get (normalizeEntry out (k, w)) f = Some v ->
  get out f = Some v \/ (Str.hasSpace k = false /\ formOf k f /\ v = w).
Proof.
  intros Hw Hf. rewrite (normalizeEntry_get_word _ _ _ _ Hf).
  destruct (Str.hasSpace k) eqn:Hk; [auto|]. cbv zeta.
  set (k1 := Str.toLowerCase k). set (k2 := normalizeToken k1).
  assert (V1 : Str.eqb k1 f = true ->
               Math_max (orElse (get out k1) 0) w = v ->
               get out f = Some v \/ v = w).
  { intros E H. apply eqb_eq in E. rewrite E in H.
    destruct (get out f) as [y|] eqn:Ey; simpl in H.
    - destruct (Math_max_cases y w) as [[M _] | [M _]]; rewrite M in H;
        [left; congruence|right; congruence].
    - rewrite (Math_max_right _ _ Hw) in H. right. congruence. }
  destruct (Str.eqb k2 f) eqn:E2.
  - intros H. injection H as H. apply eqb_eq in E2.
    assert (F2 : formOf k f) by (right; now rewrite <- E2).
    rewrite E2, get_setKey in H.
    destruct (Str.eqb k1 f) eqn:E1; simpl in H.
    + destruct (Math_max_cases (Math_max (orElse (get out k1) 0) w) w)
        as [[M _] | [M _]]; rewrite M in H; [|right; auto].
      destruct (V1 eq_refl H) as [G | G]; [left; exact G|right; auto].
    + destruct (get out f) as [y|] eqn:Ey; simpl in H.
      * destruct (Math_max_cases y w) as [[M _] | [M _]]; rewrite M in H;
          [left; congruence|right; auto].
      * rewrite (Math_max_right _ _ Hw) in H. right. auto.
  - destruct (Str.eqb k1 f) eqn:E1; [|auto].
    intros H. injection H as H.
    assert (F1 : formOf k f) by (left; apply eqb_eq in E1; now rewrite <- E1).
    destruct (V1 eq_refl H) as [G | G]; [left; exact G|right; auto].
Qed.

Lemma table_attained (tbl acc : table) (f : jsstring) (v : Q) :
  (forall k w, In (k, w) tbl -> 0 <= w) -> Str.hasSpace f = false ->
  get (fold_left normalizeEntry tbl acc) f = Some v ->
  get acc f = Some v
  \/ exists k w, In (k, w) tbl /\ Str.hasSpace k = false /\ formOf k f /\ v = w.
Proof.
  intros Hw Hf. revert acc. induction tbl as [|[k w] tbl IH]; intros acc H;
    cbn [fold_left] in H; [auto|].
  destruct (IH (fun k w Hin => Hw k w (or_intror Hin)) _ H)
    as [G | (k' & w' & Hin & G)].
  - destruct (entry_attained acc k f w v (Hw k w (or_introl eq_refl)) Hf G)
      as [G' | (G1 & G2 & G3)]; [auto|].
    right. exists k, w. simpl. auto.
  - right. exists k', w'. simpl. auto.
Qed.

Lemma table_phrase_untouched (tbl acc : table) (k : jsstring) :
  Str.hasSpace k = true -> ~ In k (keys tbl) ->
  get (fold_left normalizeEntry tbl acc) k = get acc k.
Proof.
  intros Hk. revert acc. induction tbl as [|[k0 w0] tbl IH]; intros acc Hn;
    cbn [fold_left]; [reflexivity|].
  rewrite IH by (intros H; apply Hn; now right).
  rewrite (normalizeEntry_get_phrase _ _ _ _ Hk).
  destruct (Str.eqb k0 k) eqn:E; [|reflexivity].
  apply eqb_eq in E. elim Hn. now left.
Qed.

Lemma table_phrase_kept (tbl acc : table) (k : jsstring) (w : Q) :
  NoDup (keys tbl) -> In (k, w) tbl -> Str.hasSpace k = true ->
  get (fold_left normalizeEntry tbl acc) k = Some w.
Proof.
  intros Hn Hin Hk. revert acc.
  induction tbl as [|[k0 w0] tbl IH]; intros acc; [contradiction|].
  cbn [fold_left]. inversion Hn as [|? ? Hk0 Hn']; subst.
  destruct Hin as [E | Hin]; [|now apply IH].
  injection E as -> ->.
  rewrite (table_phrase_untouched _ _ _ Hk Hk0).
  now rewrite (normalizeEntry_get_phrase _ _ _ _ Hk), eqb_refl.
Qed.

Lemma table_phrase_origin (tbl acc : table) (k : jsstring) (v : Q) :
  Str.hasSpace k = true ->
  get (fold_left normalizeEntry tbl acc) k = Some v ->
  get acc k = Some v \/ In (k, v) tbl.
Proof.
  intros Hk. revert acc. induction tbl as [|[k0 w0] tbl IH]; intros acc H;
    cbn [fold_left] in H; [auto|].
  destruct (IH _ H) as [G | G]; [|right; now right].
  rewrite (normalizeEntry_get_phrase _ _ _ _ Hk) in G.
  destruct (Str.eqb k0 k) eqn:E; [|auto].
  apply eqb_eq in E. injection G as ->. subst k0. right. now left.
Qed.

Lemma normalized_table (lexicon : Lexicon) (e : emotion) :
  tableOf (normalizeLexiconKeys lexicon) e = normalizeTable (tableOf lexicon e).
Proof. now destruct e. Qed.

Lemma entry_weight_unique (t : table) (k : jsstring) (w w' : Q) :
  NoDup (keys t) -> In (k, w) t -> In (k, w') t -> w = w'.
Proof.
  intros Hn H1 H2. apply (get_of_entry _ _ _ Hn) in H1.
  apply (get_of_entry _ _ _ Hn) in H2. congruence.
Qed.

(** X23: for a raw table of an emotion that is plain (its keys lower-case
    as modelled and no form of a one-word key is a name of
    [Object.prototype], which the read [out[emotion][k1] ?? 0] would find),
    with each key once as in an object and weights that are not negative
    as the data model has them: each one-word key is found in the output
    under its lower-cased form and under its stemmed form, with a weight
    at least its own; the weight the output holds under a one-word form is
    the weight of a raw key with that form, hence the largest of the raw
    keys that meet there, and the larger of the two when two do; a key of
    several words is in the output with its weight unchanged, and the
    output has no other such key. *)
Theorem normalizeLexiconKeys_keeps_larger_weight
    (lexicon : Lexicon) (e : emotion) :
  let raw := tableOf lexicon e in
  let out := tableOf (normalizeLexiconKeys lexicon) e in
  plainTable raw = true ->
  NoDup (keys raw) ->
  (forall k w, In (k, w) raw -> 0 <= w) ->
  (forall k w, In (k, w) raw -> Str.hasSpace k = false ->
     (exists v1, get out (Str.toLowerCase k) = Some v1 /\ w <= v1)
     /\ (exists v2, get out (normalizeToken (Str.toLowerCase k)) = Some v2
                    /\ w <= v2))
  /\ (forall f v, Str.hasSpace f = false -> get out f = Some v ->
        exists k w, In (k, w) raw /\ Str.hasSpace k = false
                    /\ formOf k f /\ v = w)
  /\ (forall ka wa kb wb f,
        In (ka, wa) raw -> In (kb, wb) raw ->
        Str.hasSpace ka = false -> Str.hasSpace kb = false ->
        formOf ka f -> formOf kb f ->
        (forall k w, In (k, w) raw -> Str.hasSpace k = false -> formOf k f ->
                     k = ka \/ k = kb) ->
        exists v, get out f = Some v /\ (v = wa \/ v = wb)
                  /\ wa <= v /\ wb <= v)
  /\ (forall k w, In (k, w) raw -> Str.hasSpace k = true -> get out k = Some w)
  /\ (forall k v, Str.hasSpace k = true -> get out k = Some v -> In (k, v) raw).
Proof.
  cbv zeta. rewrite normalized_table. unfold normalizeTable.
  set (raw := tableOf lexicon e). intros _ Hn Hw.
  assert (P1 : forall k w f, In (k, w) raw -> Str.hasSpace k = false ->
                 formOf k f ->
                 exists v, get (fold_left normalizeEntry raw []) f = Some v
                           /\ w <= v).
  { intros k w f Hin Hk Hf. now apply table_inserts with (k := k). }
  assert (P2 : forall f v, Str.hasSpace f = false ->
                 get (fold_left normalizeEntry raw []) f = Some v ->
                 exists k w, In (k, w) raw /\ Str.hasSpace k = false
                             /\ formOf k f /\ v = w).
  { intros f v Hf Hg.
    destruct (table_attained raw [] f v Hw Hf Hg) as [G | G];
      [discriminate|exact G]. }
  split; [|split; [exact P2|split; [|split]]].
  - intros k w Hin Hk. split; apply (P1 k w); auto; [now left|now right].
  - intros ka wa kb wb f Ha Hb Hka Hkb Fa Fb Only.
    destruct (P1 ka wa f Ha Hka Fa) as (v & Hv & La).
    destruct (P1 kb wb f Hb Hkb Fb) as (v' & Hv' & Lb).
    assert (v' = v) by congruence. subst v'.
    exists v. split; [exact Hv|]. split; [|auto].
    destruct (P2 f v (formOf_no_space _ _ Hka Fa) Hv) as (k & w & Hin & Hk & F & ->).
    destruct (Only k w Hin Hk F) as [-> | ->].
    + left. eapply entry_weight_unique; eauto.
    + right. eapply entry_weight_unique; eauto.
  - intros k w Hin Hk. now apply table_phrase_kept.
  - intros k v Hk Hg.
    destruct (table_phrase_origin raw [] k v Hk Hg) as [G | G];
      [discriminate|exact G].
Qed.

Lemma normalizeLexiconKeys_keeps_larger_weight_witness :
  exists v, get (lex_joy (normalizeLexiconKeys
                   (mkLexicon [] [(js "Happy", 1.0); (js "happy", 2.0);
                                  (js "so glad", 3.0)] [])))
                (js "happy") = Some v
            /\ (v = 1.0 \/ v = 2.0) /\ 1.0 <= v /\ 2.0 <= v.
Proof.
  assert (Hn : NoDup (keys [(js "Happy", 1.0); (js "happy", 2.0);
                            (js "so glad", 3.0)])).
  { repeat constructor; simpl; intuition discriminate. }
  assert (Hw : forall k w, In (k, w) [(js "Happy", 1.0); (js "happy", 2.0);
                                      (js "so glad", 3.0)] -> 0 <= w).
  { intros k w [E | [E | [E | []]]]; injection E as <- <-; discriminate. }
  assert (Hp : plainTable [(js "Happy", 1.0); (js "happy", 2.0);
                           (js "so glad", 3.0)] = true)
    by (vm_compute; reflexivity).
  destruct (normalizeLexiconKeys_keeps_larger_weight
              (mkLexicon [] [(js "Happy", 1.0); (js "happy", 2.0);
                             (js "so glad", 3.0)] []) joy Hp Hn Hw)
    as (_ & _ & H & _).
  apply (H (js "Happy") 1.0 (js "happy") 2.0 (js "happy")).
  - simpl. auto.
  - simpl. auto.
  - reflexivity.
  - reflexivity.
  - left. reflexivity.
  - left. reflexivity.
  - intros k w [E | [E | [E | []]]] Hk F; injection E as <- <-; auto.
    discriminate.
Defined.

(* ------------------------------------------------------------------ *)
(** ** Turns of the loop *)

Section Turns.

Variables (dim : table) (words : list jsstring) (lexicon : Lexicon)
          (phrases : list Phrase) (c : Z).

Lemma iteration_skip (st : LoopState) (i : nat) :
  nth i (used st) false = true ->
  iteration dim words lexicon phrases c st i = st.
Proof. intros H. unfold iteration. now rewrite H. Qed.

Lemma iteration_words (st : LoopState) (i : nat) :
  nth i (used st) false = false -> findPhrase phrases words i = None ->
  iteration dim words lexicon phrases c st i
  = fold_left (wordStep dim words lexicon c i) emotions st.
Proof. intros H1 H2. unfold iteration. now rewrite H1, H2. Qed.

Lemma iteration_phrase (st : LoopState) (i : nat) (p : Phrase) (len : nat) :
  nth i (used st) false = false -> findPhrase phrases words i = Some (p, len) ->
  iteration dim words lexicon phrases c st i
  = applyHit dim words c i len (p_emotion p) (p_weight p)
             (mkLoop (scores st) (hits st) (markUsed (used st) i len) (history st)).
Proof. intros H1 H2. unfold iteration. now rewrite H1, H2. Qed.

(** A word that no table holds leaves the state as it is. *)
Lemma iteration_idle (st : LoopState) (i : nat) :
  nth i (used st) false = false -> findPhrase phrases words i = None ->
  (forall e, get (tableOf lexicon e) (wordOr words i) = None) ->
  iteration dim words lexicon phrases c st i = st.
Proof.
  intros H1 H2 H3. rewrite iteration_words by assumption.
  unfold emotions. cbn [fold_left]. unfold wordStep.
  now rewrite (H3 anger), (H3 joy), (H3 sad).
Qed.

Lemma words_used (st : LoopState) (i : nat) :
  used (fold_left (wordStep dim words lexicon c i) emotions st) = used st.
Proof.
  unfold emotions, wordStep. simpl.
  repeat match goal with
  | |- context [get ?t ?k] => destruct (get t k)
  end; reflexivity.
Qed.

(** The single-word branch adds to the total of [e] the contribution of
    the word's weight in the table of [e], and nothing when it has none. *)
Lemma words_score (st : LoopState) (i : nat) (e : emotion) :
  scoreOf (scores (fold_left (wordStep dim words lexicon c i) emotions st)) e
  = match get (tableOf lexicon e) (wordOr words i) with
    | Some w => scoreOf (scores st) e + contribution dim words c i w
    | None => scoreOf (scores st) e
    end.
Proof.
  unfold emotions, wordStep. destruct e; simpl;
  destruct (get (lex_anger lexicon) (wordOr words i)),
           (get (lex_joy lexicon) (wordOr words i)),
           (get (lex_sad lexicon) (wordOr words i)); reflexivity.
Qed.

(** With no phrase matching anywhere, the total of [e] is a sum over the
    indices of the words. *)
Lemma phraseFree_total (e : emotion) :
  phraseFree phrases words ->
  forall (l : list nat) (st : LoopState),
    (forall i, nth i (used st) false = false) ->
    scoreOf (scores (fold_left (iteration dim words lexicon phrases c) l st)) e
    = fold_left (fun acc i =>
                   match get (tableOf lexicon e) (wordOr words i) with
                   | Some w => acc + contribution dim words c i w
                   | None => acc
                   end) l (scoreOf (scores st) e).
Proof.
  intros Hp. induction l as [|i l IH]; intros st Hu; cbn [fold_left];
    [reflexivity|].
  rewrite (iteration_words st i (Hu i) (Hp i)).
  rewrite IH by (intros j; rewrite words_used; apply Hu).
  now rewrite words_score.
Qed.

End Turns.

(** The total of [e] for a text no phrase matches in. *)
Lemma phraseFree_score (d : table) (text : jsstring) (lexicon : Lexicon)
    (phrases : list Phrase) (e : emotion) :
  phraseFree phrases (tokenize text) ->
  let words := tokenize text in
  let r := scoreWith d text (Some lexicon) phrases in
  match e with anger => res_anger r | joy => res_joy r | sad => res_sad r end
  = fold_left (fun acc i =>
                 match get (tableOf lexicon e) (wordOr words i) with
                 | Some w => acc + contribution d words (findIndex isContrast words) i w
                 | None => acc
                 end) (seq 0 (length words)) 0.
Proof.
  intros Hp. cbv zeta. rewrite score_result. cbv zeta.
  pose proof (phraseFree_total d (tokenize text) lexicon phrases
                (findIndex isContrast (tokenize text)) e Hp
                (seq 0 (length (tokenize text)))
                (initial (length (tokenize text)))
                (fun i => nth_repeat_false _ i)) as H.
  unfold runLoop. destruct e; exact H.
Qed.

(* ------------------------------------------------------------------ *)
(** ** Negation and intensifiers *)

(** C5, as stated, fails: with "not" itself a joy word of weight 5 beside
    "happy" of weight 1, "I am not happy" scores 4.2 for joy and "I am
    happy" scores 1. *)
Lemma negated_text_can_score_higher :
  let lexicon := mkLexicon [] [(js "happy", 1.0); (js "not", 5.0)] [] in
  let phrases := extractPhrases lexicon in
  get (lex_joy lexicon) (js "happy") = Some 1.0 /\ 0 < 1.0
  /\ res_joy (scoreTextWithContext (js "I am happy") (Some lexicon) phrases) == 1
  /\ res_joy (scoreTextWithContext (js "I am not happy") (Some lexicon) phrases) == 4.2
  /\ ~ (res_joy (scoreTextWithContext (js "I am not happy") (Some lexicon) phrases)
        < res_joy (scoreTextWithContext (js "I am happy") (Some lexicon) phrases))
  /\ ~ (res_joy (scoreTextWithContext (js "I am not happy") (Some lexicon) phrases)
        < 0).
Proof.
  cbv zeta. repeat split; try (vm_compute; reflexivity);
    vm_compute; discriminate.
Qed.

(** C5, amended: when "happy" has a positive weight [w] under joy, no
    other token of the two texts ("i", "am", "not") is a key of the joy
    table, and no phrase entry matches in either text, the joy total of "I
    am happy" is [w], that of "I am not happy" is [w * -0.8], which is
    negative and strictly below the former. *)
Theorem negation_flips_happy
    (lexicon : Lexicon) (phrases : list Phrase) (w : Q) :
  get (lex_joy lexicon) (js "happy") = Some w -> 0 < w ->
  get (lex_joy lexicon) (js "i") = None ->
  get (lex_joy lexicon) (js "am") = None ->
  get (lex_joy lexicon) (js "not") = None ->
  phraseFree phrases (tokenize (js "I am happy")) ->
  phraseFree phrases (tokenize (js "I am not happy")) ->
  let plain := res_joy (scoreTextWithContext (js "I am happy") (Some lexicon) phrases) in
  let negated := res_joy (scoreTextWithContext (js "I am not happy") (Some lexicon) phrases) in
  plain == w /\ negated == w * -0.8 /\ negated < plain /\ negated < 0.
Proof.
  intros Hh Hpos Hi Ham Hnot P1 P2. cbv zeta. unfold scoreTextWithContext.
  pose proof (phraseFree_score DIMINISHERS _ lexicon phrases joy P1) as E1.
  pose proof (phraseFree_score DIMINISHERS _ lexicon phrases joy P2) as E2.
  cbv zeta in E1, E2.
  assert (T1 : tokenize (js "I am happy") = [js "i"; js "am"; js "happy"])
    by (vm_compute; reflexivity).
  assert (T2 : tokenize (js "I am not happy")
               = [js "i"; js "am"; js "not"; js "happy"])
    by (vm_compute; reflexivity).
  rewrite T1 in E1. rewrite T2 in E2.
  cbn [length seq fold_left wordOr nth tableOf] in E1, E2.
  rewrite Hi, Ham, Hh in E1. rewrite Hi, Ham, Hnot, Hh in E2.
  assert (C1 : contribution DIMINISHERS [js "i"; js "am"; js "happy"]
                 (findIndex isContrast [js "i"; js "am"; js "happy"]) 2 w
               = w * 1.0 * 1.0) by reflexivity.
  assert (C2 : contribution DIMINISHERS [js "i"; js "am"; js "not"; js "happy"]
                 (findIndex isContrast [js "i"; js "am"; js "not"; js "happy"]) 3 w
               = w * 1.0 * 1.0 * -0.8) by reflexivity.
  rewrite C1 in E1. rewrite C2 in E2. rewrite E1, E2.
  repeat split; lra.
Qed.

Lemma negation_flips_happy_witness :
  res_joy (scoreTextWithContext (js "I am not happy")
             (Some (mkLexicon [] [(js "happy", 1.0)] [])) [])
  < res_joy (scoreTextWithContext (js "I am happy")
               (Some (mkLexicon [] [(js "happy", 1.0)] [])) [])
  /\ res_joy (scoreTextWithContext (js "I am not happy")
                (Some (mkLexicon [] [(js "happy", 1.0)] [])) []) < 0.
Proof.
  assert (H : 0 < 1.0) by reflexivity.
  destruct (negation_flips_happy (mkLexicon [] [(js "happy", 1.0)] []) [] 1.0
              eq_refl H eq_refl eq_refl eq_refl
              (fun i => eq_refl) (fun i => eq_refl)) as (_ & _ & H1 & H2).
  split; assumption.
Defined.

(** C7, as stated, fails: with "very" itself an anger word of weight 1
    beside "angry" of weight 1, "very angry" scores 2.6 for anger, not 1.6
    times the 1 that "angry" scores. *)
Lemma intensifier_can_score_too :
  let lexicon := mkLexicon [(js "angry", 1.0); (js "very", 1.0)] [] [] in
  let phrases := extractPhrases lexicon in
  get (lex_anger lexicon) (js "angry") = Some 1.0
  /\ res_anger (scoreTextWithContext (js "angry") (Some lexicon) phrases) == 1
  /\ res_anger (scoreTextWithContext (js "very angry") (Some lexicon) phrases) == 2.6
  /\ ~ (res_anger (scoreTextWithContext (js "very angry") (Some lexicon) phrases)
        == res_anger (scoreTextWithContext (js "angry") (Some lexicon) phrases) * 1.6).
Proof.
  cbv zeta. repeat split; try (vm_compute; reflexivity).
  vm_compute. discriminate.
Qed.

(** C7, amended: when "angry" has weight [w] under anger, "very" is no key
    of the anger table, and no phrase entry matches in either text, the
    anger total of "very angry" is the anger total of "angry", which is
    [w], times 1.6, the factor of "very" in the intensifier table; in
    exact arithmetic the two are equal. *)
Theorem very_scales_angry
    (lexicon : Lexicon) (phrases : list Phrase) (w : Q) :
  get (lex_anger lexicon) (js "angry") = Some w ->
  get (lex_anger lexicon) (js "very") = None ->
  phraseFree phrases (tokenize (js "angry")) ->
  phraseFree phrases (tokenize (js "very angry")) ->
  get INTENSIFIERS (js "very") = Some 1.6
  /\ res_anger (scoreTextWithContext (js "angry") (Some lexicon) phrases) == w
  /\ res_anger (scoreTextWithContext (js "very angry") (Some lexicon) phrases)
     == res_anger (scoreTextWithContext (js "angry") (Some lexicon) phrases) * 1.6.
Proof.
  intros Ha Hv P1 P2. split; [reflexivity|]. unfold scoreTextWithContext.
  pose proof (phraseFree_score DIMINISHERS _ lexicon phrases anger P1) as E1.
  pose proof (phraseFree_score DIMINISHERS _ lexicon phrases anger P2) as E2.
  cbv zeta in E1, E2.
  assert (T1 : tokenize (js "angry") = [js "angry"]) by (vm_compute; reflexivity).
  assert (T2 : tokenize (js "very angry") = [js "very"; js "angry"])
    by (vm_compute; reflexivity).
  rewrite T1 in E1. rewrite T2 in E2.
  cbn [length seq fold_left wordOr nth tableOf] in E1, E2.
  rewrite Ha in E1. rewrite Hv, Ha in E2.
  assert (C1 : contribution DIMINISHERS [js "angry"]
                 (findIndex isContrast [js "angry"]) 0 w
               = w * 1.0 * 1.0) by reflexivity.
  assert (C2 : contribution DIMINISHERS [js "very"; js "angry"]
                 (findIndex isContrast [js "very"; js "angry"]) 1 w
               = w * 1.6 * 1.0) by reflexivity.
  rewrite C1 in E1. rewrite C2 in E2. rewrite E1, E2.
  split; lra.
Qed.

Lemma very_scales_angry_witness :
  res_anger (scoreTextWithContext (js "very angry")
               (Some (mkLexicon [(js "angry", 1.0)] [] [])) [])
  == res_anger (scoreTextWithContext (js "angry")
                  (Some (mkLexicon [(js "angry", 1.0)] [] [])) []) * 1.6.
Proof.
  destruct (very_scales_angry (mkLexicon [(js "angry", 1.0)] [] []) [] 1.0
              eq_refl eq_refl (fun i => eq_refl) (fun i => eq_refl))
    as (_ & _ & H).
  exact H.
Defined.

(* ------------------------------------------------------------------ *)
(** ** Splitting, joining and phrases *)

Lemma splitFrom_app (p r cur : jsstring) :
  Str.hasSpace p = false ->
  Str.splitFrom cur (p ++ r) = Str.splitFrom (cur ++ p) r.
Proof.
  unfold Str.hasSpace. revert cur.
  induction p as [|c p IH]; intros cur H; cbn [app existsb] in *.
  - now rewrite app_nil_r.
  - apply orb_false_iff in H. destruct H as [H1 H2].
    cbn [Str.splitFrom]. rewrite N.eqb_sym, H1, IH by exact H2.
    now rewrite <- app_assoc.
Qed.

Lemma split_no_space (s : jsstring) : Str.hasSpace s = false -> Str.split s = [s].
Proof.
  intros H. unfold Str.split. rewrite <- (app_nil_r s) at 1.
  now rewrite splitFrom_app.
Qed.

Lemma split_join (l : list jsstring) :
  l <> [] -> Forall (fun p => Str.hasSpace p = false) l ->
  Str.split (Str.join l) = l.
Proof.
  unfold Str.split. induction l as [|p l IH]; intros Hne Hl; [contradiction|].
  inversion Hl as [|? ? Hp Hl']; subst.
  destruct l as [|q l].
  - cbn [Str.join]. rewrite <- (app_nil_r p) at 1. now rewrite splitFrom_app.
  - cbn [Str.join] in *. rewrite splitFrom_app by exact Hp.
    cbn [Str.splitFrom app]. rewrite N.eqb_refl. f_equal.
    apply IH; [discriminate|exact Hl'].
Qed.

Lemma splitFrom_parts (s cur p : jsstring) :
  Str.hasSpace cur = false -> In p (Str.splitFrom cur s) -> Str.hasSpace p = false.
Proof.
  revert cur. induction s as [|c s IH]; intros cur Hc Hin; cbn [Str.splitFrom] in Hin.
  - destruct Hin as [<- | []]. exact Hc.
  - destruct (N.eqb_spec c Str.space) as [E|E].
    + destruct Hin as [<- | Hin]; [exact Hc|]. now apply (IH []).
    + apply (IH (cur ++ [c])); [|exact Hin].
      unfold Str.hasSpace in *. rewrite existsb_app, Hc. cbn [existsb].
      rewrite N.eqb_sym. apply N.eqb_neq in E. now rewrite E.
Qed.

(** The pieces [split] cuts hold no space. *)
Lemma split_parts (s p : jsstring) : In p (Str.split s) -> Str.hasSpace p = false.
Proof. apply splitFrom_parts. reflexivity. Qed.

Lemma normalizeToken_lower (s : jsstring) :
  normalizeToken (Str.toLowerCase s) = normalizeToken s.
Proof.
  destruct s as [|c r]; [reflexivity|].
  assert (E : Str.toLowerCase (Str.lowerChar c :: Str.toLowerCase r)
              = Str.toLowerCase (c :: r))
    by apply (toLowerCase_lowered _ (lowered_toLowerCase (c :: r))).
  change (Str.toLowerCase (c :: r)) with (Str.lowerChar c :: Str.toLowerCase r)
    at 1.
  unfold normalizeToken. now rewrite E.
Qed.

(** The words of an extracted phrase are the stems of the words of its
    key. *)
Lemma phrase_parts (key : jsstring) :
  Str.split (Str.join (map normalizeToken (Str.split key)))
  = map normalizeToken (Str.split key).
Proof.
  apply split_join.
  - intros E. apply map_eq_nil in E. now apply split_nonempty in E.
  - apply Forall_forall. intros p Hp. apply in_map_iff in Hp.
    destruct Hp as [p0 [<- Hp0]]. apply normalizeToken_no_space.
    eapply split_parts; eauto.
Qed.

Lemma has_in (ws : list jsstring) (w : jsstring) : has ws w = true <-> In w ws.
Proof.
  unfold has. rewrite existsb_exists. split.
  - intros [x [Hx E]]. apply eqb_eq in E. now subst.
  - intros H. exists w. split; [exact H|apply eqb_refl].
Qed.

Lemma table_key_origin (tbl acc : table) (f : jsstring) :
  In f (keys (fold_left normalizeEntry tbl acc)) ->
  In f (keys acc)
  \/ exists k w, In (k, w) tbl
                 /\ ((Str.hasSpace k = true /\ f = k)
                     \/ (Str.hasSpace k = false /\ formOf k f)).
Proof.
  revert acc. induction tbl as [|[k w] tbl IH]; intros acc H;
    cbn [fold_left] in H; [auto|].
  destruct (IH _ H) as [G | (k' & w' & Hin & G)].
  - unfold normalizeEntry in G. destruct (Str.hasSpace k) eqn:Hk.
    + apply keys_setKey in G. destruct G as [-> | G]; [|auto].
      right. exists k, w. split; [now left|]. left. auto.
    + cbv zeta in G. apply keys_setKey in G. destruct G as [-> | G].
      * right. exists k, w. split; [now left|]. right.
        split; [exact Hk|now right].
      * apply keys_setKey in G. destruct G as [-> | G]; [|auto].
        right. exists k, w. split; [now left|]. right.
        split; [exact Hk|now left].
  - right. exists k', w'. split; [now right|exact G].
Qed.

Section Avoided.

Variables (ws : list jsstring) (A : table).
Hypothesis avoided : avoids ws A = true.

Lemma avoided_part (k part : jsstring) (w : Q) :
  In (k, w) A -> In part (Str.split k) ->
  ~ In (Str.toLowerCase part) ws /\ ~ In (normalizeToken part) ws.
Proof.
  intros Hin Hp. unfold avoids in avoided. rewrite forallb_forall in avoided.
  specialize (avoided _ Hin). apply negb_true_iff in avoided.
  unfold mentions in avoided. cbn [fst] in avoided.
  split; intros H; apply has_in in H;
    (assert (E : existsb (fun part => has ws (Str.toLowerCase part)
                                     || has ws (normalizeToken part))
                        (Str.split k) = true);
     [apply existsb_exists; exists part; split; [exact Hp|];
      rewrite H; auto using orb_true_r | congruence]).
Qed.

(** A word of [ws] is no key of the normalised table. *)
Lemma avoided_word (t : jsstring) :
  In t ws -> Str.hasSpace t = false -> get (normalizeTable A) t = None.
Proof.
  intros Ht Hs. apply get_not_in_keys. intros Hk.
  apply table_key_origin in Hk.
  destruct Hk as [[] | (k & w & Hin & [[Hk ->] | [Hk F]])]; [congruence|].
  assert (Hp : In k (Str.split k)) by (rewrite split_no_space; simpl; auto).
  destruct (avoided_part k k w Hin Hp) as [N1 N2].
  destruct F as [-> | ->]; [contradiction|].
  rewrite normalizeToken_lower in Ht. contradiction.
Qed.

(** A phrase extracted from the normalised table matches nowhere among
    words of [ws]. *)
Lemma avoided_phrase (e : emotion) (p : Phrase) (words : list jsstring) (i : nat) :
  In p (flat_map (phraseOfEntry e) (normalizeTable A)) ->
  (forall w, nth_error words i = Some w -> In w ws) ->
  partsMatch words i (Str.split (phrase p)) = false.
Proof.
  intros Hp Hw. apply in_flat_map in Hp. destruct Hp as [[key v] [Hin Hp]].
  unfold phraseOfEntry in Hp. destruct (Str.hasSpace key) eqn:Hk; [|contradiction].
  destruct Hp as [<- | []]. cbn [phrase]. rewrite phrase_parts.
  assert (Hkey : In key (keys (normalizeTable A)))
    by (apply in_map_iff; exists (key, v); auto).
  apply table_key_origin in Hkey.
  destruct Hkey as [[] | (k & w & HinA & [[_ ->] | [Hk0 F]])].
  - destruct (Str.split k) as [|p0 rest] eqn:Es;
      [now apply split_nonempty in Es|].
    cbn [map partsMatch]. destruct (nth_error words i) as [w0|] eqn:En;
      [|reflexivity].
    destruct (Str.eqb w0 (normalizeToken p0)) eqn:E; [|reflexivity].
    apply eqb_eq in E. subst w0. exfalso.
    assert (Hp0 : In p0 (Str.split k)) by (rewrite Es; now left).
    destruct (avoided_part k p0 w HinA Hp0) as [_ N2]. apply N2. now apply Hw.
  - pose proof (formOf_no_space _ _ Hk0 F). congruence.
Qed.

End Avoided.

Lemma In_insertPhrase (x p : Phrase) (l : list Phrase) :
  In p (insertPhrase x l) <-> p = x \/ In p l.
Proof.
  induction l as [|y l IH]; simpl; [intuition|].
  destruct (wordCount x <=? wordCount y)%nat; simpl; [rewrite IH|]; intuition.
Qed.

Lemma In_sortPhrases (p : Phrase) (l : list Phrase) :
  In p (sortPhrases l) <-> In p l.
Proof.
  unfold sortPhrases.
  assert (G : forall acc, In p (fold_left (fun acc x => insertPhrase x acc) l acc)
                          <-> In p l \/ In p acc).
  { induction l as [|x l IH]; intros acc; simpl; [intuition|].
    rewrite IH, In_insertPhrase. intuition. }
  rewrite G. simpl. intuition.
Qed.

Lemma findPhrase_none (phrases : list Phrase) (words : list jsstring) (i : nat) :
  (forall p, In p phrases -> partsMatch words i (Str.split (phrase p)) = false) ->
  findPhrase phrases words i = None.
Proof.
  induction phrases as [|p phrases IH]; intros H; simpl; [reflexivity|].
  rewrite (H p (or_introl eq_refl)). apply IH. intros q Hq. apply H. now right.
Qed.

(** When one entry only matches at [i], that entry is the match. *)
Lemma findPhrase_only (phrases : list Phrase) (words : list jsstring)
    (i : nat) (q : Phrase) :
  In q phrases -> partsMatch words i (Str.split (phrase q)) = true ->
  (forall p, In p phrases -> partsMatch words i (Str.split (phrase p)) = true ->
             p = q) ->
  findPhrase phrases words i = Some (q, length (Str.split (phrase q))).
Proof.
  induction phrases as [|p phrases IH]; intros Hin Hq Only; [contradiction|].
  simpl. destruct (partsMatch words i (Str.split (phrase p))) eqn:E.
  - now rewrite (Only p (or_introl eq_refl) E).
  - destruct Hin as [-> | Hin]; [congruence|].
    apply IH; auto. intros p' Hp'. apply Only. now right.
Qed.

(* ------------------------------------------------------------------ *)
(** ** Phrase precedence *)

(** C4: take the raw lexicon whose sad table is ["burned out": 2.0,
    "burned": 1.0] and whose anger and joy tables have no key that
    mentions a word of the text, normalise it and extract its phrases as
    the loader does.  Scoring "I feel burned out today" then records one
    match, the phrase at index 2 with its weight 2.0 under sad; "burned"
    is not scored on its own although its stem "burn" is a key of the sad
    table; both words of the phrase end marked; sad is 2.0, anger and joy
    are 0, and [hits] is 1. *)
Theorem burned_out_counts_once (A J : table) :
  let text := js "I feel burned out today" in
  let words := tokenize text in
  avoids words A = true -> avoids words J = true ->
  let lexicon := normalizeLexiconKeys
                   (mkLexicon A J [(js "burned out", 2.0); (js "burned", 1.0)]) in
  let phrases := extractPhrases lexicon in
  let st := runLoop DIMINISHERS words lexicon phrases in
  let result := scoreTextWithContext text (Some lexicon) phrases in
  words = [js "i"; js "feel"; js "burn"; js "out"; js "today"]
  /\ map (fun ev => (ev_idx ev, ev_len ev, ev_emotion ev, ev_weight ev)) (history st)
     = [(2%nat, 2%nat, sad, 2.0)]
  /\ used st = [false; false; true; true; false]
  /\ res_sad result == 2.0 /\ res_anger result == 0 /\ res_joy result == 0
  /\ res_hits result = 1%nat.
Proof.
  cbv zeta.
  assert (T : tokenize (js "I feel burned out today")
              = [js "i"; js "feel"; js "burn"; js "out"; js "today"])
    by (vm_compute; reflexivity).
  unfold scoreTextWithContext. rewrite score_result. cbv zeta. rewrite T.
  set (W := [js "i"; js "feel"; js "burn"; js "out"; js "today"]).
  intros HA HJ.
  set (lexicon := normalizeLexiconKeys _).
  set (q := mkPhrase (js "burn out") sad 2.0).
  assert (Wns : forall t, In t W -> Str.hasSpace t = false).
  { intros t Ht. simpl in Ht.
    repeat (destruct Ht as [<- | Ht]; [reflexivity|]). contradiction. }
  assert (FA : forall t, In t W -> get (tableOf lexicon anger) t = None).
  { intros t Ht. apply (avoided_word W A HA t Ht (Wns t Ht)). }
  assert (FJ : forall t, In t W -> get (tableOf lexicon joy) t = None).
  { intros t Ht. apply (avoided_word W J HJ t Ht (Wns t Ht)). }
  assert (Hin : forall p, In p (extractPhrases lexicon) ->
                  In p (flat_map (phraseOfEntry anger) (normalizeTable A))
                  \/ In p (flat_map (phraseOfEntry joy) (normalizeTable J))
                  \/ p = q).
  { intros p Hp. unfold extractPhrases in Hp. apply (proj1 (In_sortPhrases _ _)) in Hp.
    unfold emotions in Hp. cbn [flat_map] in Hp.
    apply in_app_or in Hp. destruct Hp as [Hp | Hp]; [now left|].
    apply in_app_or in Hp. destruct Hp as [Hp | Hp]; [right; now left|].
    right. right. rewrite app_nil_r in Hp.
    change (phrasesOf lexicon sad) with [q] in Hp.
    destruct Hp as [<- | []]. reflexivity. }
  assert (Hq : In q (extractPhrases lexicon)).
  { unfold extractPhrases. apply (proj2 (In_sortPhrases _ _)). unfold emotions.
    cbn [flat_map]. apply in_or_app. right. apply in_or_app. right.
    rewrite app_nil_r. change (phrasesOf lexicon sad) with [q]. now left. }
  assert (None_at : forall i, partsMatch W i (Str.split (phrase q)) = false ->
                      findPhrase (extractPhrases lexicon) W i = None).
  { intros i Hi. apply findPhrase_none. intros p Hp.
    destruct (Hin p Hp) as [G | [G | ->]]; [| |exact Hi].
    - apply (avoided_phrase W A HA anger p W i G).
      intros w Hw. eapply nth_error_In; eauto.
    - apply (avoided_phrase W J HJ joy p W i G).
      intros w Hw. eapply nth_error_In; eauto. }
  assert (Some_at : findPhrase (extractPhrases lexicon) W 2 = Some (q, 2%nat)).
  { apply (findPhrase_only (extractPhrases lexicon) W 2 q Hq); [reflexivity|].
    intros p Hp Hm. destruct (Hin p Hp) as [G | [G | G]]; [| |exact G].
    - rewrite (avoided_phrase W A HA anger p W 2 G) in Hm; [discriminate|].
      intros w Hw. eapply nth_error_In; eauto.
    - rewrite (avoided_phrase W J HJ joy p W 2 G) in Hm; [discriminate|].
      intros w Hw. eapply nth_error_In; eauto. }
  assert (Idle : forall t, In t W -> get (tableOf lexicon sad) t = None ->
                   forall e, get (tableOf lexicon e) t = None).
  { intros t Ht Hs [| |]; auto. }
  assert (Est : runLoop DIMINISHERS W lexicon (extractPhrases lexicon)
                = applyHit DIMINISHERS W (findIndex isContrast W) 2 2 sad 2.0
                    (mkLoop (mkScores 0 0 0) 0 (markUsed (repeat false 5) 2 2) [])).
  { unfold runLoop. change (length W) with 5%nat. cbn [seq fold_left].
    rewrite (iteration_idle DIMINISHERS W lexicon _ _ (initial 5) 0);
      [|reflexivity|apply None_at; reflexivity
       |apply (Idle (js "i")); [simpl; tauto|reflexivity]].
    rewrite (iteration_idle DIMINISHERS W lexicon _ _ (initial 5) 1);
      [|reflexivity|apply None_at; reflexivity
       |apply (Idle (js "feel")); [simpl; tauto|reflexivity]].
    rewrite (iteration_phrase DIMINISHERS W lexicon _ _ (initial 5) 2 q 2);
      [|reflexivity|exact Some_at].
    cbn [initial scores hits used history p_emotion p_weight q].
    rewrite (iteration_skip DIMINISHERS W lexicon _ _ _ 3) by reflexivity.
    rewrite (iteration_idle DIMINISHERS W lexicon _ _ _ 4);
      [reflexivity|reflexivity|apply None_at; reflexivity
      |apply (Idle (js "today")); [simpl; tauto|reflexivity]]. }
  rewrite Est.
  repeat split; vm_compute; reflexivity.
Qed.

Lemma burned_out_counts_once_witness :
  res_sad (scoreTextWithContext (js "I feel burned out today")
             (Some (normalizeLexiconKeys
                      (mkLexicon [(js "angry", 1.0); (js "fed up", 1.5)]
                                 [(js "happy", 1.0)]
                                 [(js "burned out", 2.0); (js "burned", 1.0)])))
             (extractPhrases
                (normalizeLexiconKeys
                   (mkLexicon [(js "angry", 1.0); (js "fed up", 1.5)]
                              [(js "happy", 1.0)]
                              [(js "burned out", 2.0); (js "burned", 1.0)]))))
  == 2.0.
Proof.
  assert (HA : avoids (tokenize (js "I feel burned out today"))
                      [(js "angry", 1.0); (js "fed up", 1.5)] = true)
    by (vm_compute; reflexivity).
  assert (HJ : avoids (tokenize (js "I feel burned out today"))
                      [(js "happy", 1.0)] = true)
    by (vm_compute; reflexivity).
  destruct (burned_out_counts_once [(js "angry", 1.0); (js "fed up", 1.5)]
              [(js "happy", 1.0)] HA HJ) as (_ & _ & _ & H & _).
  exact H.
Defined.

(* ------------------------------------------------------------------ *)
(** ** Further properties of the scorer *)

(** Whatever the lexicon and the phrase list, [totalWords] is the
    number of tokens of the text. *)
Theorem totalWords_is_token_count
    (text : jsstring) (lexicon : option Lexicon) (phrases : list Phrase) :
  totalWords (scoreTextWithContext text lexicon phrases) = length (tokenize text).
Proof.
  unfold scoreTextWithContext, scoreWith. cbv zeta.
  destruct lexicon as [lexicon|]; [|reflexivity].
  now destruct (length (tokenize text) =? 0)%nat.
Qed.

(** With "happy" of weight 1 under joy and "sad" of weight 1 under sad,
    "I am sad but happy" scores 1.6 for joy, the word after the pivot being
    boosted, where "I am sad and happy" scores 1; sad, before the pivot,
    scores 1 in both. *)
Theorem but_boosts_what_follows :
  let lexicon := mkLexicon [] [(js "happy", 1.0)] [(js "sad", 1.0)] in
  let boosted := scoreTextWithContext (js "I am sad but happy") (Some lexicon) [] in
  let plain := scoreTextWithContext (js "I am sad and happy") (Some lexicon) [] in
  res_joy boosted == 1.6 /\ res_joy plain == 1
  /\ res_joy boosted == res_joy plain * contrastBoost
  /\ res_sad boosted == 1 /\ res_sad plain == 1.
Proof. cbv zeta. repeat split; vm_compute; reflexivity. Qed.

Lemma insertPhrase_perm (x : Phrase) (l : list Phrase) :
  Permutation (insertPhrase x l) (x :: l).
Proof.
  induction l as [|y l IH]; simpl; [reflexivity|].
  destruct (wordCount x <=? wordCount y)%nat; [|reflexivity].
  rewrite IH. apply perm_swap.
Qed.

Lemma insertPhrase_sorted (x : Phrase) (l : list Phrase) :
  StronglySorted noFewerWords l -> StronglySorted noFewerWords (insertPhrase x l).
Proof.
  induction 1 as [|y l Hs IH Hy]; simpl.
  - repeat constructor.
  - destruct (Nat.leb_spec (wordCount x) (wordCount y)) as [L|L].
    + constructor; [exact IH|].
      apply Forall_forall. intros z Hz. apply In_insertPhrase in Hz.
      destruct Hz as [-> | Hz]; [exact L|].
      rewrite Forall_forall in Hy. now apply Hy.
    + constructor; [now constructor|].
      constructor; [unfold noFewerWords; lia|].
      eapply Forall_impl; [|exact Hy]. unfold noFewerWords. intros z Hz. lia.
Qed.

Lemma filter_none {A : Type} (f : A -> bool) (l : list A) :
  (forall z, In z l -> f z = false) -> filter f l = [].
Proof.
  induction l as [|a l IH]; intros H; simpl; [reflexivity|].
  rewrite (H a (or_introl eq_refl)). apply IH. intros z Hz. apply H. now right.
Qed.

(** A phrase goes behind the phrases of as many words that are there. *)
Lemma insertPhrase_stable (n : nat) (x : Phrase) (l : list Phrase) :
  StronglySorted noFewerWords l ->
  ofWordCount n (insertPhrase x l)
  = if (wordCount x =? n)%nat then ofWordCount n l ++ [x] else ofWordCount n l.
Proof.
  unfold ofWordCount. induction 1 as [|y l Hs IH Hy]; simpl.
  - now destruct (wordCount x =? n)%nat.
  - destruct (Nat.leb_spec (wordCount x) (wordCount y)) as [L|L]; simpl.
    + rewrite IH. destruct (wordCount y =? n)%nat, (wordCount x =? n)%nat;
        reflexivity.
    + destruct (Nat.eqb_spec (wordCount x) n) as [E|E]; [|reflexivity].
      assert (F : filter (fun p => (wordCount p =? n)%nat) (y :: l) = []).
      { apply filter_none.
        assert (Hall : Forall (fun z => (wordCount z <= wordCount y)%nat) (y :: l))
          by (constructor; [lia|exact Hy]).
        rewrite Forall_forall in Hall.
        intros z Hz. specialize (Hall z Hz). apply Nat.eqb_neq. lia. }
      simpl in F. rewrite F. reflexivity.
Qed.

(** X1: the phrase list [extractPhrases] returns holds the phrase entries
    of the three tables, each once per key of several words, ordered by
    descending word count, and among phrases of equal word count in their
    order of discovery. *)
Theorem extractPhrases_sorted_stable (lexicon : Lexicon) :
  let found := flat_map (phrasesOf lexicon) emotions in
  StronglySorted noFewerWords (extractPhrases lexicon)
  /\ Permutation (extractPhrases lexicon) found
  /\ forall n, ofWordCount n (extractPhrases lexicon) = ofWordCount n found.
Proof.
  cbv zeta. unfold extractPhrases, sortPhrases.
  generalize (flat_map (phrasesOf lexicon) emotions) as l.
  assert (G : forall l acc, StronglySorted noFewerWords acc ->
            StronglySorted noFewerWords
              (fold_left (fun acc x => insertPhrase x acc) l acc)
            /\ Permutation (fold_left (fun acc x => insertPhrase x acc) l acc)
                           (acc ++ l)
            /\ forall n, ofWordCount n
                           (fold_left (fun acc x => insertPhrase x acc) l acc)
                         = ofWordCount n acc ++ ofWordCount n l).
  { induction l as [|x l IH]; intros acc Hacc; cbn [fold_left].
    - split; [exact Hacc|]. split; [now rewrite app_nil_r|].
      intros n. unfold ofWordCount. simpl. now rewrite app_nil_r.
    - destruct (IH _ (insertPhrase_sorted x acc Hacc)) as (S1 & P1 & F1).
      split; [exact S1|]. split.
      + rewrite P1, insertPhrase_perm. apply Permutation_middle.
      + intros n. rewrite F1, (insertPhrase_stable n x acc Hacc).
        unfold ofWordCount. cbn [filter].
        destruct (wordCount x =? n)%nat; [|reflexivity].
        now rewrite <- app_assoc. }
  intros l. destruct (G l [] (SSorted_nil _)) as (S1 & P1 & F1).
  split; [exact S1|]. split; [exact P1|]. intros n. now rewrite F1.
Qed.

(** [hits] may exceed [totalWords]: a word that is a key of two tables
    counts twice. *)
Theorem hits_can_exceed_totalWords :
  let lexicon := mkLexicon [(js "mad", 1.0)] [] [(js "mad", 1.0)] in
  let result := scoreTextWithContext (js "mad") (Some lexicon) [] in
  res_hits result = 2%nat /\ totalWords result = 1%nat
  /\ res_anger result == 1 /\ res_sad result == 1.
Proof. cbv zeta. repeat split; vm_compute; reflexivity. Qed.

(** The tokenizer stems the modifier words themselves, so some entries
    of the context tables never meet a token of their spelling: "really"
    becomes "real" and "however" becomes "howev".  With "angry" of weight
    1 under anger and "happy" of weight 1 under joy, "really angry" scores
    1 for anger, as "angry" does and not 1.4, and "I am sad however happy"
    scores 1 for joy, not 1.6. *)
Theorem stemmed_modifiers_do_not_fire :
  let lexicon := mkLexicon [(js "angry", 1.0)] [(js "happy", 1.0)] [] in
  tokenize (js "really angry") = [js "real"; js "angry"]
  /\ get INTENSIFIERS (js "really") = Some 1.4
  /\ get INTENSIFIERS (js "real") = None
  /\ res_anger (scoreTextWithContext (js "really angry") (Some lexicon) []) == 1
  /\ res_anger (scoreTextWithContext (js "angry") (Some lexicon) []) == 1
  /\ tokenize (js "I am sad however happy")
     = [js "i"; js "am"; js "sad"; js "howev"; js "happy"]
  /\ isContrast (js "however") = true /\ isContrast (js "howev") = false
  /\ res_joy (scoreTextWithContext (js "I am sad however happy") (Some lexicon) [])
     == 1.
Proof. cbv zeta. repeat split; vm_compute; reflexivity. Qed.

(* ================================================================== *)
(** * The signal mapper *)

(** ** [clamp] *)

Lemma Math_min_cases (a b : Q) :
  (Math_min a b = a /\ a <= b) \/ (Math_min a b = b /\ b <= a).
Proof.
  unfold Math_min. destruct (Qle_bool a b) eqn:E.
  - left. split; [reflexivity|]. now apply Qle_bool_iff.
  - right. split; [reflexivity|].
    destruct (Qlt_le_dec b a) as [H|H]; [now apply Qlt_le_weak|].
    apply Qle_bool_iff in H. congruence.
Qed.

(** Splits the [Math.max] and [Math.min] of the goal into their cases. *)
Ltac minmax :=
  repeat match goal with
  | |- context [Math_max ?a ?b] =>
      let E := fresh "E" in let H := fresh "H" in
      destruct (Math_max_cases a b) as [[E H] | [E H]]; rewrite E in *; clear E
  | |- context [Math_min ?a ?b] =>
      let E := fresh "E" in let H := fresh "H" in
      destruct (Math_min_cases a b) as [[E H] | [E H]]; rewrite E in *; clear E
  | _ : context [Math_max ?a ?b] |- _ =>
      let E := fresh "E" in let H := fresh "H" in
      destruct (Math_max_cases a b) as [[E H] | [E H]]; rewrite E in *; clear E
  | _ : context [Math_min ?a ?b] |- _ =>
      let E := fresh "E" in let H := fresh "H" in
      destruct (Math_min_cases a b) as [[E H] | [E H]]; rewrite E in *; clear E
  end.

Lemma clamp_bounds (x lo hi : Q) : lo <= hi -> lo <= clamp x lo hi <= hi.
Proof. intros H. unfold clamp. minmax; lra. Qed.

(** X2: for numbers (the embedding has none that is [NaN], which the
    code's [clamp] hands back as it is): with bounds in order, [clamp]
    returns a value within them, [x] itself when it is within and the
    bound it passes otherwise; it does not decrease when [x] grows, and
    clamping twice is clamping once.  With the bounds out of order it
    returns [min] whatever the number [x] is. *)
Theorem clamp_spec (x y lo hi : Q) :
  lo <= hi ->
  lo <= clamp x lo hi <= hi
  /\ (lo <= x <= hi -> clamp x lo hi == x)
  /\ (x <= lo -> clamp x lo hi == lo)
  /\ (hi <= x -> clamp x lo hi == hi)
  /\ (x <= y -> clamp x lo hi <= clamp y lo hi)
  /\ clamp (clamp x lo hi) lo hi == clamp x lo hi
  /\ (forall lo' hi', hi' < lo' -> clamp x lo' hi' == lo').
Proof.
  intros H. split; [now apply clamp_bounds|].
  unfold clamp. repeat split; intros; minmax; lra.
Qed.

Lemma clamp_spec_witness :
  clamp 7 0.2 6.0 == 6.0 /\ clamp 0.1 0.2 6.0 == 0.2 /\ clamp 3 0.2 6.0 == 3
  /\ clamp 3 6.0 0.2 == 6.0.
Proof.
  assert (H : 0.2 <= 6.0) by discriminate.
  destruct (clamp_spec 7 7 0.2 6.0 H) as (_ & _ & _ & Hi & _).
  destruct (clamp_spec 0.1 0.1 0.2 6.0 H) as (_ & _ & Lo & _).
  destruct (clamp_spec 3 3 0.2 6.0 H) as (_ & In & _ & _ & _ & _ & Inv).
  split; [apply Hi; discriminate|]. split; [apply Lo; discriminate|].
  split; [apply In; split; discriminate|]. apply Inv. reflexivity.
Defined.

(* ------------------------------------------------------------------ *)
(** ** The input handler *)

Lemma num_nonneg (n : nat) : 0 <= num n.
Proof. unfold num, Qle. simpl. lia. Qed.

Lemma num_pos (n : nat) : n <> 0%nat -> 0 < num n.
Proof. intros H. unfold num, Qlt. simpl. lia. Qed.

(** X4: for a typed text within the embedding (it lower-cases as
    modelled and none of its tokens is a name of [Object.prototype]) and a
    state whose weights are tame, the handler leaves the typing energy
    within 0 and 1, the speed target within 0.2 and 6 and the amplitude
    target within 0.05 and 5; it stores the text and does not touch the
    current speed, amplitude and colours, nor the lexicon. *)
Theorem onInput_ranges (value : jsstring) (now : Q) (s : App) :
  plainText value = true ->
  tameWeights (LEXICON s) (CACHED_PHRASES s) = true ->
  let s' := onInput value now s in
  0 <= typingEnergy s' <= 1
  /\ 0.2 <= targetSpeed s' <= 6
  /\ 0.05 <= targetAmplitude s' <= 5
  /\ userText s' = value
  /\ speed s' = speed s /\ amplitude s' = amplitude s
  /\ (currentR s', currentG s', currentB s') = (currentR s, currentG s, currentB s)
  /\ LEXICON s' = LEXICON s /\ CACHED_PHRASES s' = CACHED_PHRASES s.
Proof.
  intros _ _. cbv zeta. unfold onInput. cbv zeta.
  generalize (scoreTextWithContext value (LEXICON s) (CACHED_PHRASES s)) as result.
  intros result.
  assert (E : 0 <= clamp (typingEnergy s + 0.35) 0.0 1.0 <= 1)
    by (pose proof (clamp_bounds (typingEnergy s + 0.35) 0.0 1.0); lra).
  assert (B : 0.2 <= BASE_SPEED <= 6 /\ 0.05 <= BASE_AMP <= 5)
    by (repeat split; discriminate).
  assert (CS : forall x, 0.2 <= clamp x 0.2 6.0 <= 6)
    by (intros x; pose proof (clamp_bounds x 0.2 6.0); lra).
  assert (CA : forall x, 0.05 <= clamp x 0.05 5.0 <= 5)
    by (intros x; pose proof (clamp_bounds x 0.05 5.0); lra).
  destruct (totalWords result =? 0)%nat;
    [|destruct (Qeq_bool _ 0)];
    unfold afterInput;
    cbn [typingEnergy targetSpeed targetAmplitude userText speed amplitude
         currentR currentG currentB LEXICON CACHED_PHRASES];
    repeat split; try apply E; try apply B; try apply CS; try apply CA.
Qed.

Lemma onInput_ranges_witness :
  0.2 <= targetSpeed (onInput (js "So angry!") 0 (runApp [Loaded None])) <= 6.
Proof.
  assert (Ht : plainText (js "So angry!") = true) by (vm_compute; reflexivity).
  assert (Hw : tameWeights (LEXICON (runApp [Loaded None]))
                           (CACHED_PHRASES (runApp [Loaded None])) = true)
    by (vm_compute; reflexivity).
  destruct (onInput_ranges (js "So angry!") 0 (runApp [Loaded None]) Ht Hw)
    as (_ & H & _).
  exact H.
Defined.

Lemma result_totalWords (text : jsstring) (lexicon : option Lexicon)
    (phrases : list Phrase) :
  totalWords (scoreTextWithContext text lexicon phrases) = length (tokenize text).
Proof.
  unfold scoreTextWithContext, scoreWith. cbv zeta.
  destruct lexicon as [lexicon|]; [|reflexivity].
  now destruct (length (tokenize text) =? 0)%nat.
Qed.

(** Three numbers that are not negative and not all zero, each divided by
    their sum. *)
Lemma shares (a j d : Q) :
  0 <= a -> 0 <= j -> 0 <= d -> ~ a + j + d == 0 ->
  0 <= a / (a + j + d) <= 1 /\ 0 <= j / (a + j + d) <= 1
  /\ 0 <= d / (a + j + d) <= 1
  /\ a / (a + j + d) + j / (a + j + d) + d / (a + j + d) == 1.
Proof.
  intros Ha Hj Hd Hs.
  assert (P : 0 < a + j + d).
  { destruct (Qlt_le_dec 0 (a + j + d)) as [H|H]; [exact H|].
    elim Hs. lra. }
  repeat split;
    try (apply Qle_shift_div_l; [exact P|lra]);
    try (apply Qle_shift_div_r; [exact P|lra]).
  field. exact Hs.
Qed.

(** X5: for a typed text within the embedding that has a token, and a
    state whose weights are tame, the handler records the number of
    tokens and of hits, and an emotion mix in which each share is between
    0 and 1.  With no total above zero the three shares and the drama are
    0; otherwise each share is its total, negative totals counting as 0,
    over the sum of the three, and the drama is 1 plus 12 hits per
    word. *)
Theorem onInput_emotion_mix (value : jsstring) (now : Q) (s : App) :
  plainText value = true ->
  tameWeights (LEXICON s) (CACHED_PHRASES s) = true ->
  tokenize value <> [] ->
  let result := scoreTextWithContext value (LEXICON s) (CACHED_PHRASES s) in
  let s' := onInput value now s in
  let a := Math_max 0 (res_anger result) in
  let j := Math_max 0 (res_joy result) in
  let d := Math_max 0 (res_sad result) in
  dbgTotalWords s' = length (tokenize value)
  /\ dbgHits s' = res_hits result
  /\ 0 <= dbgAngerPct s' <= 1 /\ 0 <= dbgJoyPct s' <= 1 /\ 0 <= dbgSadPct s' <= 1
  /\ (res_anger result <= 0 /\ res_joy result <= 0 /\ res_sad result <= 0 ->
      dbgAngerPct s' == 0 /\ dbgJoyPct s' == 0 /\ dbgSadPct s' == 0
      /\ dbgDrama s' == 0)
  /\ (~ (res_anger result <= 0 /\ res_joy result <= 0 /\ res_sad result <= 0) ->
      dbgAngerPct s' = a / (a + j + d) /\ dbgJoyPct s' = j / (a + j + d)
      /\ dbgSadPct s' = d / (a + j + d)
      /\ dbgDrama s'
         == 1 + 12 * (num (res_hits result) / num (length (tokenize value)))).
Proof.
  intros _ _ Ht. cbv zeta. unfold onInput. cbv zeta.
  pose proof (result_totalWords value (LEXICON s) (CACHED_PHRASES s)) as Tw.
  revert Tw.
  generalize (scoreTextWithContext value (LEXICON s) (CACHED_PHRASES s)) as result.
  intros result Tw. rewrite Tw.
  destruct (Nat.eqb_spec (length (tokenize value)) 0) as [E|_];
    [destruct (tokenize value); [contradiction|discriminate]|].
  set (a := Math_max 0 (res_anger result)).
  set (j := Math_max 0 (res_joy result)).
  set (d := Math_max 0 (res_sad result)).
  assert (Ha : 0 <= a) by (unfold a; minmax; lra).
  assert (Hj : 0 <= j) by (unfold j; minmax; lra).
  assert (Hd : 0 <= d) by (unfold d; minmax; lra).
  assert (Z : a + j + d == 0
              <-> res_anger result <= 0 /\ res_joy result <= 0
                  /\ res_sad result <= 0).
  { unfold a, j, d in *. split.
    - intros H. minmax; repeat split; lra.
    - intros (H1 & H2 & H3). minmax; lra. }
  destruct (Qeq_bool (a + j + d) 0) eqn:Eq; unfold afterInput;
    cbn [dbgTotalWords dbgHits dbgAngerPct dbgJoyPct dbgSadPct dbgDrama].
  - apply Qeq_bool_iff in Eq.
    split; [reflexivity|]. split; [reflexivity|].
    split; [split; discriminate|]. split; [split; discriminate|].
    split; [split; discriminate|]. split.
    + intros _. repeat split; reflexivity.
    + intros H. elim H. now apply Z.
  - apply Qeq_bool_neq in Eq.
    destruct (shares a j d Ha Hj Hd Eq) as (S1 & S2 & S3 & S4).
    split; [reflexivity|]. split; [reflexivity|].
    split; [exact S1|]. split; [exact S2|]. split; [exact S3|]. split.
    + intros H. elim Eq. now apply Z.
    + intros _. repeat split. ring.
Qed.

Lemma onInput_emotion_mix_witness :
  dbgJoyPct (onInput (js "so happy but sad") 0 (runApp [Loaded None])) == 13 # 29.
Proof.
  assert (Hp : plainText (js "so happy but sad") = true) by (vm_compute; reflexivity).
  assert (Hw : tameWeights (LEXICON (runApp [Loaded None]))
                           (CACHED_PHRASES (runApp [Loaded None])) = true)
    by (vm_compute; reflexivity).
  assert (Ht : tokenize (js "so happy but sad") <> []) by discriminate.
  destruct (onInput_emotion_mix (js "so happy but sad") 0 (runApp [Loaded None])
              Hp Hw Ht)
    as (_ & _ & _ & _ & _ & _ & H).
  assert (N : ~ (res_anger (scoreTextWithContext (js "so happy but sad")
                              (LEXICON (runApp [Loaded None]))
                              (CACHED_PHRASES (runApp [Loaded None]))) <= 0
                 /\ res_joy (scoreTextWithContext (js "so happy but sad")
                               (LEXICON (runApp [Loaded None]))
                               (CACHED_PHRASES (runApp [Loaded None]))) <= 0
                 /\ res_sad (scoreTextWithContext (js "so happy but sad")
                               (LEXICON (runApp [Loaded None]))
                               (CACHED_PHRASES (runApp [Loaded None]))) <= 0)).
  { intros (_ & H2 & _). vm_compute in H2. apply H2. reflexivity. }
  destruct (H N) as (_ & E & _). rewrite E. vm_compute. reflexivity.
Defined.

(** X6: when the text has no token (it is empty, or holds no letter and
    no apostrophe) the handler sets the two targets to their base values
    and raises the typing energy, and returns before it records anything:
    the emotion mix, the hit and word counts stay those of the text before,
    and so do the colour targets that the next frames compute. *)
Theorem onInput_no_token (value : jsstring) (now : Q) (s : App) :
  tokenize value = [] ->
  let s' := onInput value now s in
  targetSpeed s' = BASE_SPEED /\ targetAmplitude s' = BASE_AMP
  /\ typingEnergy s' = clamp (typingEnergy s + 0.35) 0.0 1.0
  /\ dbgAngerPct s' = dbgAngerPct s /\ dbgJoyPct s' = dbgJoyPct s
  /\ dbgSadPct s' = dbgSadPct s /\ dbgDrama s' = dbgDrama s
  /\ dbgHits s' = dbgHits s /\ dbgTotalWords s' = dbgTotalWords s
  /\ forall t, targetR (animate t s') = targetR (animate t s)
               /\ targetG (animate t s') = targetG (animate t s)
               /\ targetB (animate t s') = targetB (animate t s).
Proof.
  intros Ht. cbv zeta. unfold onInput. cbv zeta.
  rewrite (result_totalWords value (LEXICON s) (CACHED_PHRASES s)), Ht.
  repeat split.
Qed.

Lemma onInput_no_token_witness :
  targetSpeed (onInput (js " ... ") 0 (onInput (js "so happy") 0 (runApp [Loaded None])))
  = BASE_SPEED
  /\ dbgJoyPct (onInput (js " ... ") 0 (onInput (js "so happy") 0 (runApp [Loaded None])))
     = dbgJoyPct (onInput (js "so happy") 0 (runApp [Loaded None])).
Proof.
  assert (Ht : tokenize (js " ... ") = []) by (vm_compute; reflexivity).
  destruct (onInput_no_token (js " ... ") 0
              (onInput (js "so happy") 0 (runApp [Loaded None])) Ht)
    as (H1 & _ & _ & _ & H2 & _).
  split; [exact H1|exact H2].
Defined.

(** X7: while the lexicon is not there, and whenever no emotion total is
    above zero, a text with [n] tokens moves the targets by the typing
    baseline alone: the boost is 0.25 + 0.9 * typing energy + 0.25 *
    min(1, n / 40), between 0.25 and 1.4; the speed target is 1 + 0.8 *
    boost and the amplitude target 0.6 + 0.6 * boost, and the clamps of
    this branch never bind. *)
Theorem onInput_no_emotion (value : jsstring) (now : Q) (s : App) :
  tokenize value <> [] ->
  let result := scoreTextWithContext value (LEXICON s) (CACHED_PHRASES s) in
  LEXICON s = None
  \/ (res_anger result <= 0 /\ res_joy result <= 0 /\ res_sad result <= 0) ->
  let s' := onInput value now s in
  let boost := dbgBaselineBoost s' in
  boost == 0.25 + typingEnergy s' * 0.9
           + clamp (num (length (tokenize value)) / 40) 0.0 1.0 * 0.25
  /\ 0.25 <= boost <= 1.4
  /\ targetSpeed s' == 1 + boost * 0.8
  /\ targetAmplitude s' == 0.6 + boost * 0.6
  /\ 1.2 <= targetSpeed s' <= 2.12
  /\ 0.75 <= targetAmplitude s' <= 1.44.
Proof.
  intros Ht. cbv zeta. intros Hz.
  assert (Hz' : res_anger (scoreTextWithContext value (LEXICON s) (CACHED_PHRASES s)) <= 0
                /\ res_joy (scoreTextWithContext value (LEXICON s) (CACHED_PHRASES s)) <= 0
                /\ res_sad (scoreTextWithContext value (LEXICON s) (CACHED_PHRASES s)) <= 0).
  { destruct Hz as [Hn | Hz]; [|exact Hz]. rewrite Hn.
    unfold scoreTextWithContext, scoreWith. cbv zeta.
    cbn [res_anger res_joy res_sad]. repeat split; discriminate. }
  clear Hz. unfold onInput. cbv zeta.
  pose proof (result_totalWords value (LEXICON s) (CACHED_PHRASES s)) as Tw.
  revert Tw Hz'.
  generalize (scoreTextWithContext value (LEXICON s) (CACHED_PHRASES s)) as result.
  intros result Tw (H1 & H2 & H3). rewrite Tw.
  destruct (Nat.eqb_spec (length (tokenize value)) 0) as [E|_];
    [destruct (tokenize value); [contradiction|discriminate]|].
  assert (Z : Qeq_bool (Math_max 0 (res_anger result) + Math_max 0 (res_joy result)
                        + Math_max 0 (res_sad result)) 0 = true)
    by (apply Qeq_bool_iff; minmax; lra).
  rewrite Z. unfold afterInput.
  cbn [dbgBaselineBoost typingEnergy targetSpeed targetAmplitude].
  pose proof (clamp_bounds (typingEnergy s + 0.35) 0.0 1.0) as Be.
  pose proof (clamp_bounds (num (length (tokenize value)) / 40) 0.0 1.0) as Bl.
  set (e := clamp (typingEnergy s + 0.35) 0.0 1.0) in *.
  set (l := clamp (num (length (tokenize value)) / 40) 0.0 1.0) in *.
  assert (Be' : 0 <= e <= 1) by lra. assert (Bl' : 0 <= l <= 1) by lra.
  clear Be Bl.
  set (boost := 0.25 + e * 0.9 + l * 0.25).
  assert (Bb : 0.25 <= boost <= 1.4) by (unfold boost; lra).
  assert (Cs : clamp (BASE_SPEED + boost * 0.8) 0.2 6.0 == 1 + boost * 0.8)
    by (unfold clamp, BASE_SPEED; minmax; lra).
  assert (Ca : clamp (BASE_AMP + boost * 0.6) 0.05 5.0 == 0.6 + boost * 0.6)
    by (unfold clamp, BASE_AMP; minmax; lra).
  split; [reflexivity|]. split; [exact Bb|].
  split; [exact Cs|]. split; [exact Ca|].
  rewrite Cs, Ca. lra.
Qed.

Lemma onInput_no_emotion_witness :
  targetSpeed (onInput (js "hello there") 0 startApp) == 1.462.
Proof.
  assert (Ht : tokenize (js "hello there") <> []) by discriminate.
  destruct (onInput_no_emotion (js "hello there") 0 startApp Ht
              (or_introl eq_refl)) as (_ & _ & H & _).
  rewrite H. vm_compute. reflexivity.
Defined.

(* ------------------------------------------------------------------ *)
(** ** Ranges kept over any run *)

Lemma onInput_inRange (value : jsstring) (now : Q) (s : App) :
  inRange s -> inRange (onInput value now s).
Proof.
  intros (E & TS & TA & S & A & PA & PJ & PS & Rest).
  unfold inRange, onInput. cbv zeta.
  generalize (scoreTextWithContext value (LEXICON s) (CACHED_PHRASES s)) as result.
  intros result.
  assert (E' : 0 <= clamp (typingEnergy s + 0.35) 0.0 1.0 <= 1)
    by (pose proof (clamp_bounds (typingEnergy s + 0.35) 0.0 1.0); lra).
  assert (CS : forall x, 0.2 <= clamp x 0.2 6.0 <= 6)
    by (intros x; pose proof (clamp_bounds x 0.2 6.0); lra).
  assert (CA : forall x, 0.05 <= clamp x 0.05 5.0 <= 5)
    by (intros x; pose proof (clamp_bounds x 0.05 5.0); lra).
  set (a := Math_max 0 (res_anger result)).
  set (j := Math_max 0 (res_joy result)).
  set (d := Math_max 0 (res_sad result)).
  assert (Ha : 0 <= a) by (unfold a; minmax; lra).
  assert (Hj : 0 <= j) by (unfold j; minmax; lra).
  assert (Hd : 0 <= d) by (unfold d; minmax; lra).
  destruct (totalWords result =? 0)%nat;
    [|destruct (Qeq_bool (a + j + d) 0) eqn:Eq];
    unfold afterInput;
    cbn [typingEnergy targetSpeed targetAmplitude speed amplitude
         dbgAngerPct dbgJoyPct dbgSadPct currentR currentG currentB
         targetR targetG targetB].
  - repeat split; try apply E'; try tauto; discriminate.
  - repeat split; try apply E'; try apply CS; try apply CA; try tauto;
      discriminate.
  - apply Qeq_bool_neq in Eq.
    destruct (shares a j d Ha Hj Hd Eq) as (S1 & S2 & S3 & _).
    repeat split; try apply E'; try apply CS; try apply CA; try tauto.
Qed.

Lemma animate_inRange (t : Q) (s : App) : inRange s -> inRange (animate t s).
Proof.
  intros (E & TS & TA & S & A & PA & PJ & PS & CR & CG & CB & _).
  unfold inRange, animate. cbv zeta.
  cbn [typingEnergy targetSpeed targetAmplitude speed amplitude
       dbgAngerPct dbgJoyPct dbgSadPct currentR currentG currentB
       targetR targetG targetB].
  unfold lerp, smooth, COLOR_LERP.
  repeat split; minmax; lra.
Qed.

Lemma react_inRange (s : App) (e : Signal) : inRange s -> inRange (react s e).
Proof.
  destruct e as [fetched | value now | t]; cbn [react].
  - unfold onLoaded. destruct (loadLexicon fetched). tauto.
  - apply onInput_inRange.
  - apply animate_inRange.
Qed.

Lemma react_uniforms (s : App) (e : Signal) :
  uniformsCurrent s -> uniformsCurrent (react s e).
Proof.
  intros H. destruct e as [fetched | value now | t]; cbn [react].
  - unfold onLoaded. destruct (loadLexicon fetched). exact H.
  - unfold uniformsCurrent, onInput in *. cbv zeta.
    destruct (_ =? 0)%nat; [|destruct (Qeq_bool _ 0)]; exact H.
  - right. repeat split.
Qed.

(** X8: after any sequence of signals within the embedding (the lexicon
    settling with plain data or with a failure, plain texts typed, frames
    drawn) from the start of the module, the typing energy is within 0
    and 1, the speed and its target within 0.2 and 6, the amplitude and
    its target within 0.05 and 5, the three shares of the emotion mix
    within 0 and 1, and the three colours and their targets within 0.12
    and 1; and the uniforms hold either their initial zeros or the current
    colours, speed and amplitude, as the last frame wrote them. *)
Theorem app_stays_in_range (es : list Signal) :
  forallb plainSignal es = true ->
  inRange (runApp es) /\ uniformsCurrent (runApp es).
Proof.
  intros _. unfold runApp.
  assert (G : forall s, inRange s /\ uniformsCurrent s ->
                        inRange (fold_left react es s)
                        /\ uniformsCurrent (fold_left react es s)).
  { induction es as [|e es IH]; intros s [H1 H2]; cbn [fold_left];
      [now split|].
    apply IH. split; [now apply react_inRange|now apply react_uniforms]. }
  apply G. split.
  - unfold inRange, startApp. simpl. repeat split; discriminate.
  - now left.
Qed.

Lemma app_stays_in_range_witness :
  inRange (runApp [Loaded None; Typed (js "So angry!") 0; Frame 1; Frame 2])
  /\ uniformsCurrent (runApp [Loaded None; Typed (js "So angry!") 0; Frame 1; Frame 2]).
Proof.
  apply (app_stays_in_range [Loaded None; Typed (js "So angry!") 0; Frame 1; Frame 2]).
  vm_compute. reflexivity.
Defined.

(* ------------------------------------------------------------------ *)
(** ** The lexicon and its phrase cache over a run *)

Lemma runApp_snoc (es : list Signal) (e : Signal) :
  runApp (es ++ [e]) = react (runApp es) e.
Proof. unfold runApp. now rewrite fold_left_app. Qed.

Lemma lastLoaded_snoc (es : list Signal) (e : Signal) :
  lastLoaded (es ++ [e])
  = match e with Loaded fetched => Some fetched | _ => lastLoaded es end.
Proof. unfold lastLoaded. now rewrite fold_left_app. Qed.

(** X10: at any point of a run the phrase cache is the phrase list of the
    lexicon in use: before [loadLexicon] has settled the lexicon is [null],
    the cache is empty and the emotion mix is still all zero, whatever was
    typed; afterwards the lexicon is the normalised JSON, or the fallback
    when the fetch failed, and the cache is [extractPhrases] of it.  Typing
    and frames never change either. *)
Theorem cache_follows_lexicon (es : list Signal) :
  match lastLoaded es with
  | None =>
      LEXICON (runApp es) = None /\ CACHED_PHRASES (runApp es) = []
      /\ dbgAngerPct (runApp es) == 0 /\ dbgJoyPct (runApp es) == 0
      /\ dbgSadPct (runApp es) == 0
  | Some fetched =>
      let lexicon := match fetched with
                     | Some data => normalizeLexiconKeys data
                     | None => buildFallbackLexicon
                     end in
      LEXICON (runApp es) = Some lexicon
      /\ CACHED_PHRASES (runApp es) = extractPhrases lexicon
  end.
Proof.
  induction es as [|e es IH] using rev_ind.
  - cbn. repeat split; reflexivity.
  - rewrite runApp_snoc, lastLoaded_snoc.
    destruct e as [fetched | value now | t]; cbn [react].
    + unfold onLoaded, loadLexicon. cbv zeta.
      destruct fetched; cbn [LEXICON CACHED_PHRASES]; split; reflexivity.
    + destruct (lastLoaded es) as [fetched|].
      * cbv zeta in *. destruct IH as [H1 H2].
        unfold onInput. cbv zeta.
        destruct (_ =? 0)%nat; [|destruct (Qeq_bool _ 0)];
          unfold afterInput; cbn [LEXICON CACHED_PHRASES]; now split.
      * destruct IH as (H1 & H2 & H3 & H4 & H5).
        unfold onInput. cbv zeta. rewrite H1.
        unfold scoreTextWithContext, scoreWith. cbv zeta.
        cbn [totalWords res_anger res_joy res_sad res_hits].
        destruct (_ =? 0)%nat;
          unfold afterInput;
          cbn [LEXICON CACHED_PHRASES dbgAngerPct dbgJoyPct dbgSadPct];
          repeat split; assumption || reflexivity.
    + destruct (lastLoaded es) as [fetched|].
      * exact IH.
      * exact IH.
Qed.

(* ------------------------------------------------------------------ *)
(** ** The fallback lexicon *)

(** One fallback word: the tokenizer leaves it, or it does not. *)
Ltac fallback_case w :=
  let b := eval vm_compute in (Str.eqb (normalizeToken w) w) in
  lazymatch b with
  | true =>
      let E := fresh "E" in
      assert (E : normalizeToken w = w) by (vm_compute; reflexivity);
      split; [intros _; split; vm_compute; reflexivity|];
      split; [intros N; elim N; exact E|];
      split; [intros N; elim N; exact E|];
      let D := fresh "D" in
      intros D; apply has_in in D; vm_compute in D; discriminate D
  | false =>
      let E := fresh "E" in
      assert (E : normalizeToken w <> w)
        by (apply eqb_neq; vm_compute; reflexivity);
      split; [intros N; elim E; exact N|];
      split; [intros _; repeat split; vm_compute; reflexivity|];
      split; [intros _; apply has_in; vm_compute; reflexivity|];
      intros _; exact E
  end.

(** X11: when the fetch fails the lexicon is the fallback, each listed
    word with weight 1, used as spelled: no phrase list, no normalised
    keys.  A text whose one word is a fallback word is therefore a hit of
    weight 1 only if the tokenizer leaves the word as it is; "furious",
    "pissed", "annoyed", "frustrated", "excited", "depressed" and "lonely"
    are stemmed to something the fallback does not hold, and typing them
    scores nothing. *)
Theorem fallback_words_as_typed (text w : jsstring) :
  Str.matchRuns [] (Str.toLowerCase text) = [w] ->
  In w (angerWords ++ joyWords ++ sadWords) ->
  let r := scoreTextWithContext text (Some (fst (loadLexicon None)))
                                (snd (loadLexicon None)) in
  (normalizeToken w = w ->
   res_hits r = 1%nat /\ res_anger r + res_joy r + res_sad r == 1)
  /\ (normalizeToken w <> w ->
      res_hits r = 0%nat /\ res_anger r == 0 /\ res_joy r == 0 /\ res_sad r == 0)
  /\ (normalizeToken w <> w
      <-> In w [js "furious"; js "pissed"; js "annoyed"; js "frustrated";
                js "excited"; js "depressed"; js "lonely"]).
Proof.
  intros Hr Hin. cbv zeta.
  unfold scoreTextWithContext, scoreWith, tokenize. rewrite Hr. clear Hr.
  vm_compute in Hin.
  repeat (destruct Hin as [<- | Hin]); try contradiction.
  all: match goal with
       | |- (normalizeToken ?w = _ -> _) /\ _ => fallback_case w
       end.
Qed.

Lemma fallback_words_as_typed_witness :
  res_hits (scoreTextWithContext (js "Furious!") (Some (fst (loadLexicon None)))
                                 (snd (loadLexicon None))) = 0%nat
  /\ res_hits (scoreTextWithContext (js "ANGRY...") (Some (fst (loadLexicon None)))
                                    (snd (loadLexicon None))) = 1%nat.
Proof.
  split.
  - assert (Hr : Str.matchRuns [] (Str.toLowerCase (js "Furious!")) = [js "furious"])
      by (vm_compute; reflexivity).
    assert (Hin : In (js "furious") (angerWords ++ joyWords ++ sadWords))
      by (apply has_in; vm_compute; reflexivity).
    destruct (fallback_words_as_typed (js "Furious!") (js "furious") Hr Hin)
      as (_ & H & _).
    apply H. apply eqb_neq. vm_compute. reflexivity.
  - assert (Hr : Str.matchRuns [] (Str.toLowerCase (js "ANGRY...")) = [js "angry"])
      by (vm_compute; reflexivity).
    assert (Hin : In (js "angry") (angerWords ++ joyWords ++ sadWords))
      by (apply has_in; vm_compute; reflexivity).
    destruct (fallback_words_as_typed (js "ANGRY...") (js "angry") Hr Hin)
      as (H & _).
    apply H. vm_compute. reflexivity.
Defined.

(* ------------------------------------------------------------------ *)
(** ** Phrases of the normalised lexicon *)

Lemma phrases_setKey_word (e : emotion) (k : jsstring) (v : Q) (t : table) :
  Str.hasSpace k = false ->
  flat_map (phraseOfEntry e) (setKey k v t) = flat_map (phraseOfEntry e) t.
Proof.
  intros Hk. induction t as [|[k' v'] t IH]; cbn [setKey flat_map phraseOfEntry].
  - now rewrite Hk.
  - destruct (Str.eqb k' k) eqn:E; cbn [flat_map phraseOfEntry].
    + apply eqb_eq in E. subst k'. now rewrite Hk.
    + now rewrite IH.
Qed.

Lemma phrases_setKey_new (e : emotion) (k : jsstring) (v : Q) (t : table) :
  ~ In k (keys t) ->
  flat_map (phraseOfEntry e) (setKey k v t)
  = flat_map (phraseOfEntry e) t ++ phraseOfEntry e (k, v).
Proof.
  induction t as [|[k' v'] t IH]; intros Hn; cbn [setKey flat_map].
  - now rewrite app_nil_r.
  - destruct (Str.eqb k' k) eqn:E.
    + apply eqb_eq in E. elim Hn. now left.
    + cbn [flat_map]. rewrite IH by (intros H; apply Hn; now right).
      now rewrite app_assoc.
Qed.

Lemma phrases_normalizeTable (e : emotion) (tbl acc : table) :
  NoDup (keys tbl) ->
  (forall k, In k (keys tbl) -> Str.hasSpace k = true -> ~ In k (keys acc)) ->
  flat_map (phraseOfEntry e) (fold_left normalizeEntry tbl acc)
  = flat_map (phraseOfEntry e) acc ++ flat_map (phraseOfEntry e) tbl.
Proof.
  revert acc. induction tbl as [|[k0 w0] tbl IH]; intros acc Hn Hf;
    cbn [fold_left flat_map]; [now rewrite app_nil_r|].
  inversion Hn as [|? ? Hk0 Hn']; subst.
  rewrite IH; [|exact Hn'|].
  - rewrite app_assoc. f_equal.
    unfold normalizeEntry. destruct (Str.hasSpace k0) eqn:Hs.
    + apply phrases_setKey_new. apply Hf; [now left|exact Hs].
    + cbv zeta. rewrite !phrases_setKey_word.
      * cbn [phraseOfEntry]. rewrite Hs. now rewrite app_nil_r.
      * now rewrite hasSpace_toLowerCase.
      * apply normalizeToken_no_space. now rewrite hasSpace_toLowerCase.
  - intros k Hk Hs Hin. unfold normalizeEntry in Hin.
    assert (Hacc : ~ In k (keys acc)) by (apply Hf; [now right|exact Hs]).
    destruct (Str.hasSpace k0) eqn:Hs0.
    + apply keys_setKey in Hin. destruct Hin as [-> | Hin]; [|now apply Hacc].
      now apply Hk0.
    + cbv zeta in Hin. apply keys_setKey in Hin.
      destruct Hin as [-> | Hin].
      * rewrite normalizeToken_no_space in Hs; [discriminate|].
        now rewrite hasSpace_toLowerCase.
      * apply keys_setKey in Hin. destruct Hin as [-> | Hin]; [|now apply Hacc].
        rewrite hasSpace_toLowerCase in Hs. congruence.
Qed.

(** X12: normalising the keys does not change the phrases: for a
    lexicon as JSON gives it, each key once in its table, the phrase
    entries of each emotion's normalised table are those of its raw table,
    in the same order.  So the cache [loadLexicon] builds is the stable
    sort, by descending word count, of the anger, joy and sad phrase
    entries of the file in that order (the order of the keys of the
    normaliser's output, whatever the order of the file's), each with the
    weight of the file, whatever the one-word keys are. *)
Theorem extractPhrases_normalized (data : Lexicon) :
  (forall e, NoDup (keys (tableOf data e))) ->
  (forall e, phrasesOf (normalizeLexiconKeys data) e = phrasesOf data e)
  /\ snd (loadLexicon (Some data))
     = sortPhrases (phrasesOf data anger ++ phrasesOf data joy
                    ++ phrasesOf data sad).
Proof.
  intros Hn.
  assert (E : forall e, phrasesOf (normalizeLexiconKeys data) e = phrasesOf data e).
  { intros e. unfold phrasesOf. rewrite normalized_table. unfold normalizeTable.
    rewrite phrases_normalizeTable; [reflexivity|apply Hn|intros k _ _ []]. }
  split; [exact E|].
  unfold loadLexicon. cbv zeta. cbn [snd]. unfold extractPhrases, emotions.
  cbn [flat_map]. rewrite !E. now rewrite app_nil_r.
Qed.

Lemma extractPhrases_normalized_witness :
  snd (loadLexicon (Some (mkLexicon [] [(js "Happy", 1.0); (js "so glad", 3.0)]
                                    [(js "Burned Out", 2.0)])))
  = [mkPhrase (js "so glad") joy 3.0; mkPhrase (js "burn out") sad 2.0].
Proof.
  assert (Hn : forall e, NoDup (keys (tableOf
                 (mkLexicon [] [(js "Happy", 1.0); (js "so glad", 3.0)]
                            [(js "Burned Out", 2.0)]) e)))
    by (intros [| |]; repeat constructor; simpl; intuition discriminate).
  destruct (extractPhrases_normalized _ Hn) as [_ H].
  rewrite H. vm_compute. reflexivity.
Defined.

(* ------------------------------------------------------------------ *)
(** ** Hits per word *)

Lemma holders_le_3 (lexicon : Lexicon) (w : jsstring) : (holders lexicon w <= 3)%nat.
Proof.
  unfold holders, emotions. cbn [filter tableOf].
  destruct (get (lex_anger lexicon) w), (get (lex_joy lexicon) w),
           (get (lex_sad lexicon) w); cbn [length]; lia.
Qed.

Lemma words_hits (dim : table) (words : list jsstring) (lexicon : Lexicon)
    (c : Z) (i : nat) (st : LoopState) :
  hits (fold_left (wordStep dim words lexicon c i) emotions st)
  = (hits st + holders lexicon (wordOr words i))%nat.
Proof.
  unfold holders, emotions, wordStep. cbn [fold_left filter tableOf].
  destruct (get (lex_anger lexicon) (wordOr words i)),
           (get (lex_joy lexicon) (wordOr words i)),
           (get (lex_sad lexicon) (wordOr words i));
    cbn [applyHit hits length]; lia.
Qed.

Lemma iteration_hits (dim : table) (words : list jsstring) (lexicon : Lexicon)
    (phrases : list Phrase) (c : Z) (m : nat) (st : LoopState) (i : nat) :
  (1 <= m)%nat -> (forall w, (holders lexicon w <= m)%nat) ->
  (hits (iteration dim words lexicon phrases c st i) <= hits st + m)%nat.
Proof.
  intros Hm Hh. unfold iteration.
  destruct (nth i (used st) false); [lia|].
  destruct (findPhrase phrases words i) as [[p len]|].
  - cbn [applyHit hits]. lia.
  - rewrite words_hits. specialize (Hh (wordOr words i)). lia.
Qed.

Lemma loop_hits (dim : table) (words : list jsstring) (lexicon : Lexicon)
    (phrases : list Phrase) (c : Z) (m : nat) (l : list nat) (st : LoopState) :
  (1 <= m)%nat -> (forall w, (holders lexicon w <= m)%nat) ->
  (hits (fold_left (iteration dim words lexicon phrases c) l st)
   <= hits st + m * length l)%nat.
Proof.
  intros Hm Hh. revert st. induction l as [|i l IH]; intros st;
    cbn [fold_left length]; [lia|].
  specialize (IH (iteration dim words lexicon phrases c st i)).
  pose proof (iteration_hits dim words lexicon phrases c m st i Hm Hh). nia.
Qed.

Lemma result_hits (text : jsstring) (lexicon : option Lexicon)
    (phrases : list Phrase) (m : nat) :
  (1 <= m)%nat ->
  (forall lex w, lexicon = Some lex -> (holders lex w <= m)%nat) ->
  let r := scoreTextWithContext text lexicon phrases in
  (res_hits r <= m * totalWords r)%nat.
Proof.
  intros Hm Hh. cbv zeta. unfold scoreTextWithContext, scoreWith. cbv zeta.
  destruct lexicon as [lex|]; [|cbn [res_hits]; lia].
  destruct (length (tokenize text) =? 0)%nat; [cbn [res_hits]; lia|].
  cbn [res_hits totalWords]. unfold runLoop.
  pose proof (loop_hits DIMINISHERS (tokenize text) lex phrases
                (findIndex isContrast (tokenize text)) m
                (seq 0 (length (tokenize text)))
                (initial (length (tokenize text))) Hm
                (fun w => Hh lex w eq_refl)) as H.
  rewrite length_seq in H. cbn [initial hits] in H. lia.
Qed.

(** X13: a word is a hit once for every table that holds it, and a phrase
    once for all its words, so the number of hits is at most three times
    the number of words, whatever the lexicon and the phrase list; for a
    text within the embedding (none of its tokens a name of
    [Object.prototype], which every table would hold) it is at most the
    number of words when no key is in two tables of the lexicon.  The
    first bound is met: a one-word text whose word is in all three tables
    has three hits. *)
Theorem hits_per_word (text : jsstring) (lexicon : option Lexicon)
    (phrases : list Phrase) :
  let r := scoreTextWithContext text lexicon phrases in
  (res_hits r <= 3 * totalWords r)%nat
  /\ (plainText text = true ->
      (forall lex w, lexicon = Some lex -> (holders lex w <= 1)%nat) ->
      (res_hits r <= totalWords r)%nat)
  /\ (forall lex w, lexicon = Some lex -> phrases = [] -> tokenize text = [w] ->
      holders lex w = 3%nat -> res_hits r = 3%nat).
Proof.
  cbv zeta. split; [|split].
  - apply (result_hits text lexicon phrases 3); [lia|].
    intros lex w _. apply holders_le_3.
  - intros _ H. pose proof (result_hits text lexicon phrases 1 (le_n 1) H) as G.
    cbv zeta in G. lia.
  - intros lex w -> -> Ht Hw.
    unfold scoreTextWithContext, scoreWith. cbv zeta. rewrite Ht.
    cbn [length Nat.eqb res_hits]. unfold runLoop.
    cbn [length seq fold_left initial repeat]. unfold iteration.
    cbn [findPhrase]. change (nth 0 (used (initial 1)) false) with false.
    cbv iota. rewrite words_hits. cbn [initial hits wordOr nth]. exact Hw.
Qed.

Lemma hits_ratio (h n : nat) :
  (h <= 3 * n)%nat -> n <> 0%nat -> 0 <= num h / num n <= 3.
Proof.
  intros H Hn. pose proof (num_pos n Hn) as P. pose proof (num_nonneg h) as N.
  assert (L : num h <= 3 * num n).
  { unfold num, Qle. cbn [Qnum Qden Qmult inject_Z]. lia. }
  split.
  - apply Qle_shift_div_l; [exact P|lra].
  - apply Qle_shift_div_r; [exact P|lra].
Qed.

(** X14: over any run the recorded hits are at most three times the
    recorded words, and the recorded drama is 0 (nothing emotional typed
    yet, or last) or between 1 and 37: the emotion density the handler
    divides out is between 0 and 3, not between 0 and 1.  The value 37 is
    reached by a one-word text whose word is in all three tables. *)
Theorem drama_bounds (es : list Signal) :
  ((dbgHits (runApp es) <= 3 * dbgTotalWords (runApp es))%nat
   /\ (dbgDrama (runApp es) == 0 \/ 1 <= dbgDrama (runApp es) <= 37))
  /\ dbgDrama (runApp [Loaded (Some (mkLexicon [(js "mad", 1.0)] [(js "mad", 1.0)]
                                               [(js "mad", 1.0)]));
                       Typed (js "mad") 0]) == 37.
Proof.
  split; [|vm_compute; reflexivity].
  induction es as [|e es IH] using rev_ind.
  - cbn. split; [lia|left; reflexivity].
  - rewrite runApp_snoc. destruct IH as [IH1 IH2].
    destruct e as [fetched | value now | t]; cbn [react].
    + unfold onLoaded. destruct (loadLexicon fetched). cbn [dbgHits dbgTotalWords dbgDrama].
      now split.
    + unfold onInput. cbv zeta.
      assert (Hh : (res_hits (scoreTextWithContext value (LEXICON (runApp es))
                                (CACHED_PHRASES (runApp es)))
                    <= 3 * totalWords (scoreTextWithContext value (LEXICON (runApp es))
                                         (CACHED_PHRASES (runApp es))))%nat).
      { apply (result_hits value _ _ 3); [lia|].
        intros lex w _. apply holders_le_3. }
      revert Hh.
      generalize (scoreTextWithContext value (LEXICON (runApp es))
                    (CACHED_PHRASES (runApp es))) as result.
      intros result Hh.
      destruct (Nat.eqb_spec (totalWords result) 0) as [E|E];
        [|destruct (Qeq_bool _ 0)];
        unfold afterInput; cbn [dbgHits dbgTotalWords dbgDrama].
      * now split.
      * split; [exact Hh|left; reflexivity].
      * split; [exact Hh|right].
        pose proof (hits_ratio _ _ Hh E). lra.
    + exact (conj IH1 IH2).
Qed.

(* ------------------------------------------------------------------ *)
(** ** A listed word, typed *)

Lemma splitFrom_length (s cur : jsstring) : (1 <= length (Str.splitFrom cur s))%nat.
Proof.
  revert cur. induction s as [|c s IH]; intros cur; cbn [Str.splitFrom].
  - cbn [length]. lia.
  - destruct (c =? Str.space)%N; [cbn [length]; lia|apply IH].
Qed.

Lemma split_spaced (s : jsstring) :
  Str.hasSpace s = true -> (2 <= length (Str.split s))%nat.
Proof.
  unfold Str.split, Str.hasSpace. generalize (@nil N) as cur.
  induction s as [|c s IH]; intros cur H; cbn [existsb] in H; [discriminate|].
  cbn [Str.splitFrom]. rewrite N.eqb_sym in H.
  destruct (c =? Str.space)%N.
  - cbn [length]. pose proof (splitFrom_length s []). lia.
  - apply IH. exact H.
Qed.

(** A phrase of the extracted list has two words or more. *)
Lemma extracted_phrase_words (lexicon : Lexicon) (p : Phrase) :
  In p (extractPhrases lexicon) -> (2 <= length (Str.split (phrase p)))%nat.
Proof.
  unfold extractPhrases. rewrite In_sortPhrases. intros H.
  apply in_flat_map in H. destruct H as (e & _ & H).
  unfold phrasesOf in H. apply in_flat_map in H.
  destruct H as ([k w] & _ & H). cbn [phraseOfEntry] in H.
  destruct (Str.hasSpace k) eqn:Hk; [|contradiction].
  destruct H as [<- | []]. cbn [phrase]. rewrite phrase_parts, length_map.
  now apply split_spaced.
Qed.

Lemma one_word_phraseFree (lexicon : Lexicon) (t : jsstring) :
  phraseFree (extractPhrases lexicon) [t].
Proof.
  intros i. apply findPhrase_none. intros p Hp.
  destruct (partsMatch [t] i (Str.split (phrase p))) eqn:E; [|reflexivity].
  apply partsMatch_in_range in E; [|apply split_nonempty].
  pose proof (extracted_phrase_words lexicon p Hp).
  change (length [t]) with 1%nat in E. unfold jsstring, Str.t in *. lia.
Qed.

Lemma holders_pos (lexicon : Lexicon) (e : emotion) (t : jsstring) (v : Q) :
  get (tableOf lexicon e) t = Some v -> (1 <= holders lexicon t)%nat.
Proof.
  intros H. unfold holders, emotions. cbn [filter].
  destruct e; cbn [tableOf] in *; rewrite H;
    repeat match goal with
    | |- context [get ?t ?k] => destruct (get t k)
    end; cbn [length]; lia.
Qed.

(** A text of one word: the total of each emotion is the weight its table
    holds for the token, taken once and unmodified. *)
Lemma one_word_result (text t : jsstring) (lexicon : Lexicon) (e : emotion) :
  tokenize text = [t] ->
  let r := scoreTextWithContext text (Some lexicon) (extractPhrases lexicon) in
  resultOf r e == orElse (get (tableOf lexicon e) t) 0
  /\ res_hits r = holders lexicon t.
Proof.
  intros Ht. cbv zeta. split.
  - pose proof (phraseFree_score DIMINISHERS text lexicon (extractPhrases lexicon) e)
      as H.
    rewrite Ht in H. specialize (H (one_word_phraseFree lexicon t)).
    cbv zeta in H. unfold resultOf, scoreTextWithContext. rewrite H.
    cbn [length seq fold_left wordOr nth].
    destruct (get (tableOf lexicon e) t) as [v|]; [|reflexivity].
    cbn [orElse]. unfold contribution. cbv zeta.
    change (intensityAt [t] 0) with 1.0.
    change (softenAt DIMINISHERS [t] 0) with 1.0.
    change (isNegatedAt [t] 0) with false.
    assert (A : afterPivot (findIndex isContrast [t]) 0 = false).
    { unfold findIndex. cbn [findIndexFrom]. now destruct (isContrast t). }
    rewrite A. ring.
  - unfold scoreTextWithContext, scoreWith. cbv zeta. rewrite Ht.
    cbn [length Nat.eqb res_hits]. unfold runLoop. cbn [length seq fold_left].
    rewrite iteration_words;
      [|apply nth_repeat_false|apply one_word_phraseFree].
    rewrite words_hits. reflexivity.
Qed.

(** X15: a one-word key of a plain JSON lexicon is recognised when it is
    typed as the file spells it, in any case and with anything but letters
    and apostrophes around it, in a text within the embedding: after
    [loadLexicon] the table of its emotion holds its token with the key's
    weight or more, the text is one hit for each table that holds the
    token, at least one, and the total of the emotion is that weight, no
    modifier applying. *)
Theorem listed_word_is_recognised (data : Lexicon) (e : emotion)
    (k : jsstring) (w : Q) (text : jsstring) :
  plainData data = true ->
  plainText text = true ->
  In (k, w) (tableOf data e) ->
  Str.matchRuns [] (Str.toLowerCase text) = [Str.toLowerCase k] ->
  let lexicon := fst (loadLexicon (Some data)) in
  let r := scoreTextWithContext text (Some lexicon) (snd (loadLexicon (Some data))) in
  tokenize text = [normalizeToken k]
  /\ exists v, get (tableOf lexicon e) (normalizeToken k) = Some v /\ w <= v
               /\ resultOf r e == v
               /\ (1 <= res_hits r <= 3)%nat.
Proof.
  intros _ _ Hin Hr. cbv zeta. unfold loadLexicon. cbv zeta. cbn [fst snd].
  assert (Ht : tokenize text = [normalizeToken k]).
  { unfold tokenize. rewrite Hr. cbn [map]. now rewrite normalizeToken_lower. }
  split; [exact Ht|].
  assert (Hk : Str.hasSpace k = false).
  { pose proof (matchRuns_tokens (Str.toLowerCase text) [] eq_refl) as F.
    rewrite Hr in F. inversion F as [|? ? Tk _]; subst.
    apply token_no_space in Tk. now rewrite hasSpace_toLowerCase in Tk. }
  destruct (table_inserts (tableOf data e) [] k (normalizeToken k) w Hin Hk)
    as (v & Hv & Lv).
  { right. now rewrite normalizeToken_lower. }
  assert (Hv' : get (tableOf (normalizeLexiconKeys data) e) (normalizeToken k)
                = Some v) by (rewrite normalized_table; exact Hv).
  exists v. split; [exact Hv'|]. split; [exact Lv|].
  destruct (one_word_result text (normalizeToken k) (normalizeLexiconKeys data) e Ht)
    as [R1 R2].
  split; [rewrite R1, Hv'; reflexivity|].
  rewrite R2. split; [eapply holders_pos; eauto|apply holders_le_3].
Qed.

Lemma listed_word_is_recognised_witness :
  resultOf (scoreTextWithContext (js "Excited!")
              (Some (fst (loadLexicon (Some (mkLexicon [] [(js "excited", 2.0)] [])))))
              (snd (loadLexicon (Some (mkLexicon [] [(js "excited", 2.0)] [])))))
           joy == 2.0.
Proof.
  assert (Hd : plainData (mkLexicon [] [(js "excited", 2.0)] []) = true)
    by (vm_compute; reflexivity).
  assert (Hp : plainText (js "Excited!") = true) by (vm_compute; reflexivity).
  assert (Hin : In (js "excited", 2.0)
                   (tableOf (mkLexicon [] [(js "excited", 2.0)] []) joy))
    by (left; reflexivity).
  assert (Hr : Str.matchRuns [] (Str.toLowerCase (js "Excited!"))
               = [Str.toLowerCase (js "excited")]) by (vm_compute; reflexivity).
  destruct (listed_word_is_recognised (mkLexicon [] [(js "excited", 2.0)] []) joy
              (js "excited") 2.0 (js "Excited!") Hd Hp Hin Hr)
    as (_ & v & Hv & _ & R & _).
  rewrite R. vm_compute in Hv. injection Hv as <-. reflexivity.
Defined.

(* ------------------------------------------------------------------ *)
(** ** How far a total can go *)

Lemma get_range (t : table) (lo hi : Q) (k : jsstring) (v : Q) :
  Forall (fun kv => lo <= snd kv <= hi) t -> get t k = Some v -> lo <= v <= hi.
Proof.
  induction t as [|[k' v'] t IH]; intros F H; cbn [get] in H; [discriminate|].
  inversion F as [|? ? F1 F2]; subst.
  destruct (Str.eqb k' k); [injection H as <-; exact F1|now apply IH].
Qed.

Lemma lookback_range (t : table) (lo hi : Q) (a b : jsstring) :
  lo <= 1 <= hi -> Forall (fun kv => lo <= snd kv <= hi) t ->
  lo <= orElse (orElseO (get t a) (get t b)) 1.0 <= hi.
Proof.
  intros H1 F.
  destruct (get t a) as [v|] eqn:Ea; cbn [orElseO orElse].
  - exact (get_range t lo hi a v F Ea).
  - destruct (get t b) as [v|] eqn:Eb; cbn [orElse].
    + exact (get_range t lo hi b v F Eb).
    + split; [apply Qle_trans with 1|apply Qle_trans with 1];
        try tauto; discriminate.
Qed.

Lemma intensity_range (words : list jsstring) (i : nat) :
  1 <= intensityAt words i <= 2.
Proof.
  unfold intensityAt. apply lookback_range; [split; discriminate|].
  unfold INTENSIFIERS. repeat constructor; discriminate.
Qed.

Lemma soften_range (words : list jsstring) (i : nat) :
  0.45 <= softenAt DIMINISHERS words i <= 1.
Proof.
  unfold softenAt. apply lookback_range; [split; discriminate|].
  unfold DIMINISHERS. repeat constructor; discriminate.
Qed.

Lemma contribution_range (words : list jsstring) (c : Z) (i : nat) (w W : Q) :
  0 <= w <= W ->
  -2.56 * W <= contribution DIMINISHERS words c i w <= 3.2 * W
  /\ (isNegatedAt words i = false -> 0 <= contribution DIMINISHERS words c i w).
Proof.
  intros [H0 H1]. unfold contribution, contrastBoost. cbv zeta.
  pose proof (intensity_range words i) as [I1 I2].
  pose proof (soften_range words i) as [S1 S2].
  set (I := intensityAt words i) in *.
  set (S := softenAt DIMINISHERS words i) in *.
  assert (P1 : 0 <= w * I <= 2 * W) by nra.
  assert (P2 : 0 <= w * I * S <= 2 * W) by nra.
  set (p := w * I * S) in *.
  destruct (afterPivot c i), (isNegatedAt words i);
    (split; [split; lra|intros N; try discriminate N; lra]).
Qed.

Lemma num_S (n : nat) : num (S n) == num n + 1.
Proof.
  unfold num. rewrite Nat2Z.inj_succ. unfold Z.succ.
  now rewrite inject_Z_plus.
Qed.

Lemma total_range (e : emotion) (h : list Event) (lo hi : Q) :
  lo <= 0 <= hi ->
  Forall (fun ev => lo <= ev_value ev <= hi) h ->
  lo * num (length h) <= total e h <= hi * num (length h).
Proof.
  intros B. induction h as [|ev h IH] using rev_ind; intros F.
  - unfold total. cbn [length fold_left]. change (num 0) with 0. lra.
  - apply Forall_app in F. destruct F as [F1 F2].
    inversion F2 as [|? ? Fv _]; subst. specialize (IH F1).
    rewrite total_snoc, length_app. cbn [length]. rewrite Nat.add_1_r, num_S.
    destruct (emotion_eqb (ev_emotion ev) e); lra.
Qed.

Lemma total_nonneg (e : emotion) (h : list Event) :
  Forall (fun ev => 0 <= ev_value ev) h -> 0 <= total e h.
Proof.
  induction h as [|ev h IH] using rev_ind; intros F.
  - unfold total. cbn [length fold_left]. change (num 0) with 0. lra.
  - apply Forall_app in F. destruct F as [F1 F2].
    inversion F2 as [|? ? Fv _]; subst. specialize (IH F1).
    rewrite total_snoc. destruct (emotion_eqb (ev_emotion ev) e); lra.
Qed.

Lemma wordAt_in (words : list jsstring) (z : Z) :
  wordAt words z = [] \/ In (wordAt words z) words.
Proof.
  unfold wordAt. destruct (z <? 0)%Z; [now left|].
  destruct (nth_in_or_default (Z.to_nat z) words []); auto.
Qed.

(** X16: for a text within the embedding, with every weight of the
    lexicon and of the phrase list between 0 and [W]: each match adds
    between -2.56 W and 3.2 W to its emotion in exact arithmetic (the
    largest intensifier is 2, no diminisher is above 1, the contrast boost
    is 1.6 and a negation multiplies by -0.8), so each total is between
    -2.6 W and 3.3 W times the number of hits, the margin being there for
    the rounding of the products and sums; and in a text with no negation
    word no total is negative. *)
Theorem score_bounds (text : jsstring) (lexicon : Lexicon)
    (phrases : list Phrase) (W : Q) (e : emotion) :
  plainText text = true ->
  0 <= W <= WEIGHT_LIMIT ->
  (forall e' k v, get (tableOf lexicon e') k = Some v -> 0 <= v <= W) ->
  (forall p, In p phrases -> 0 <= p_weight p <= W) ->
  let r := scoreTextWithContext text (Some lexicon) phrases in
  -2.6 * W * num (res_hits r) <= resultOf r e <= 3.3 * W * num (res_hits r)
  /\ ((forall w, In w (tokenize text) -> has NEGATIONS w = false) ->
      0 <= resultOf r e).
Proof.
  intros _ [W0 _] Hl Hp. cbv zeta.
  destruct (runLoop_inv DIMINISHERS (tokenize text) lexicon phrases)
    as (A & B & _ & C & _).
  unfold scoreTextWithContext. rewrite score_result. cbv zeta.
  assert (R : resultOf
                (mkResult (sc_anger (scores (runLoop DIMINISHERS (tokenize text) lexicon phrases)))
                          (sc_joy (scores (runLoop DIMINISHERS (tokenize text) lexicon phrases)))
                          (sc_sad (scores (runLoop DIMINISHERS (tokenize text) lexicon phrases)))
                          (hits (runLoop DIMINISHERS (tokenize text) lexicon phrases))
                          (length (tokenize text))) e
              = total e (history (runLoop DIMINISHERS (tokenize text) lexicon phrases))).
  { rewrite <- (A e). now destruct e. }
  rewrite R. cbn [res_hits]. rewrite B. clear R A B.
  assert (Wt : forall ev, isMatch (tokenize text) lexicon phrases ev ->
                          0 <= ev_weight ev <= W).
  { intros ev [(p & Hin & _ & _ & _ & ->) | (_ & G)]; [now apply Hp|].
    eapply Hl; eauto. }
  split.
  - assert (T : (-2.56 * W)
                  * num (length (history (runLoop DIMINISHERS (tokenize text) lexicon phrases)))
                <= total e (history (runLoop DIMINISHERS (tokenize text) lexicon phrases))
                <= (3.2 * W)
                   * num (length (history (runLoop DIMINISHERS (tokenize text) lexicon phrases)))).
    { apply total_range; [lra|].
      eapply Forall_impl; [|exact C]. intros ev (M & V & _).
      rewrite V. apply contribution_range. now apply Wt. }
    pose proof (num_nonneg (length (history (runLoop DIMINISHERS (tokenize text)
                                                     lexicon phrases)))) as N0.
    set (n := num (length (history (runLoop DIMINISHERS (tokenize text)
                                            lexicon phrases)))) in *.
    assert (P : 0 <= W * n) by (apply Qmult_le_0_compat; assumption).
    lra.
  - intros Hn. apply total_nonneg.
    eapply Forall_impl; [|exact C]. intros ev (M & V & _).
    rewrite V. apply (contribution_range _ _ _ _ W); [now apply Wt|].
    unfold isNegatedAt. apply orb_false_iff. split.
    + destruct (wordAt_in (tokenize text) (Z.of_nat (ev_idx ev) - 1)) as [-> | H];
        [reflexivity|now apply Hn].
    + destruct (wordAt_in (tokenize text) (Z.of_nat (ev_idx ev) - 2)) as [-> | H];
        [reflexivity|now apply Hn].
Qed.

Lemma score_bounds_witness :
  -2.6 * 2
  <= res_joy (scoreTextWithContext (js "so happy but not very happy")
                (Some (mkLexicon [] [(js "happy", 1.0)] [])) [])
  <= 3.3 * 2.
Proof.
  assert (Ht : plainText (js "so happy but not very happy") = true)
    by (vm_compute; reflexivity).
  assert (W0 : 0 <= 1 <= WEIGHT_LIMIT) by (split; vm_compute; discriminate).
  assert (Hl : forall e' k v,
             get (tableOf (mkLexicon [] [(js "happy", 1.0)] []) e') k = Some v ->
             0 <= v <= 1).
  { intros [| |] k v H; cbn [tableOf lex_anger lex_joy lex_sad get] in H;
      try discriminate H.
    destruct (Str.eqb (js "happy") k); [|discriminate H].
    injection H as <-. split; discriminate. }
  assert (Hp : forall p : Phrase, In p [] -> 0 <= p_weight p <= 1)
    by (intros p []).
  destruct (score_bounds (js "so happy but not very happy")
              (mkLexicon [] [(js "happy", 1.0)] []) [] 1 joy Ht W0 Hl Hp)
    as [[L U] _].
  assert (Hh : res_hits (scoreTextWithContext (js "so happy but not very happy")
                           (Some (mkLexicon [] [(js "happy", 1.0)] [])) [])
               = 2%nat) by (vm_compute; reflexivity).
  rewrite Hh in L, U. unfold resultOf in L, U.
  change (num 2) with 2 in L, U. lra.
Defined.

(* ------------------------------------------------------------------ *)
(** ** What the normaliser leaves of a word *)

Lemma respell_length (a b : string) (w : jsstring) :
  (length (js b) <= length (js a))%nat ->
  (length (respell a b w) <= length w)%nat.
Proof.
  intros H. unfold respell.
  destruct (Str.eqb w (js a)) eqn:Ea; cbn [orb].
  - apply eqb_eq in Ea. now subst w.
  - destruct (Str.eqb w (js b)) eqn:Eb; [|lia].
    apply eqb_eq in Eb. subst w. lia.
Qed.

Lemma contract_length (w : jsstring) : (length (contract w) <= length w)%nat.
Proof.
  unfold contract. cbv zeta.
  repeat (eapply Nat.le_trans; [apply respell_length; vm_compute; lia|]).
  lia.
Qed.

Lemma short_not_strippable (w : jsstring) :
  (length w < 5)%nat -> strippable w = false.
Proof.
  intros H. unfold strippable, plural, suffixed.
  assert (E5 : (5 <=? length w)%nat = false) by (apply Nat.leb_gt; lia).
  assert (E6 : (6 <=? length w)%nat = false) by (apply Nat.leb_gt; lia).
  assert (E7 : (7 <=? length w)%nat = false) by (apply Nat.leb_gt; lia).
  now rewrite E5, E6, E7.
Qed.

(** X17: on a word whose code units lower-case as modelled (Basic Latin,
    Latin-1 and the curly apostrophe, where [toLowerCase] keeps the
    length), [normalizeToken] is the suffix block applied to the
    lower-cased, respelled word: the closing guard [w.length < 2] never
    changes what is returned, because a rule that fires leaves three
    characters or more.  The result is never longer than the input; it is
    empty only for the empty input; and a word of fewer than five
    characters is only lower-cased and respelled, never stemmed. *)
Theorem normalizeToken_stem (raw : jsstring) :
  modelled raw = true ->
  let w0 := contract (Str.replaceFirst curly apostrophe (Str.toLowerCase raw)) in
  normalizeToken raw = strip w0
  /\ (normalizeToken raw = w0
      \/ (3 <= length (normalizeToken raw) < length w0)%nat)
  /\ (length (normalizeToken raw) <= length raw)%nat
  /\ (normalizeToken raw = [] <-> raw = [])
  /\ ((length raw < 5)%nat -> normalizeToken raw = w0).
Proof.
  intros _. cbv zeta.
  set (w0 := contract (Str.replaceFirst curly apostrophe (Str.toLowerCase raw))).
  assert (L0 : (length w0 <= length raw)%nat).
  { unfold w0. eapply Nat.le_trans; [apply contract_length|].
    rewrite replaceFirst_length. unfold Str.toLowerCase. now rewrite length_map. }
  assert (E : normalizeToken raw = strip w0).
  { destruct raw as [|c r]; [reflexivity|].
    unfold normalizeToken. cbv zeta. fold w0.
    destruct (strip_length w0) as [[_ S] | [_ S]].
    - rewrite S. now destruct (length w0 <? 2)%nat.
    - destruct (Nat.ltb_spec (length (strip w0)) 2); [lia|reflexivity]. }
  assert (N0 : raw <> [] -> w0 <> []).
  { intros Hr. unfold w0. apply contract_nonempty.
    destruct raw as [|c r]; [contradiction|].
    cbn [Str.toLowerCase map Str.replaceFirst].
    destruct (Str.lowerChar c =? curly)%N; discriminate. }
  split; [exact E|]. rewrite E.
  destruct (strip_length w0) as [[Sb S] | [Sb S]].
  - rewrite S. split; [now left|]. split; [exact L0|]. split; [|reflexivity].
    split.
    + intros H. destruct raw as [|c r]; [reflexivity|].
      elim N0; [discriminate|exact H].
    + intros ->. reflexivity.
  - split; [right; exact S|]. split; [lia|]. split.
    + split.
      * intros H. rewrite H in S. cbn [length] in S. lia.
      * intros ->. subst w0. cbn in Sb. discriminate.
    + intros H. rewrite short_not_strippable in Sb by lia. discriminate.
Qed.

Lemma normalizeToken_stem_witness :
  normalizeToken (js "Happiness") = js "happi"
  /\ (length (normalizeToken (js "Happiness")) <= length (js "Happiness"))%nat.
Proof.
  assert (Hm : modelled (js "Happiness") = true) by (vm_compute; reflexivity).
  destruct (normalizeToken_stem (js "Happiness") Hm) as (E & _ & L & _).
  split; [rewrite E; vm_compute; reflexivity|exact L].
Defined.

(* ------------------------------------------------------------------ *)
(** ** Where the tokenizer cuts *)

Lemma matchRuns_sep (a b cur : jsstring) (c : N) :
  Str.isWordChar c = false ->
  Str.matchRuns cur (a ++ c :: b) = Str.matchRuns cur a ++ Str.matchRuns [] b.
Proof.
  intros Hc. revert cur.
  induction a as [|x a IH]; intros cur; cbn [app Str.matchRuns].
  - now rewrite Hc.
  - destruct (Str.isWordChar x); [apply IH|].
    now rewrite IH, app_assoc.
Qed.

Lemma matchRuns_empty (s cur : jsstring) :
  Str.matchRuns cur s = []
  <-> cur = [] /\ forallb (fun c => negb (Str.isWordChar c)) s = true.
Proof.
  revert cur. induction s as [|c s IH]; intros cur; cbn [Str.matchRuns forallb].
  - destruct cur; cbn [Str.flush]; split; try tauto; try discriminate.
    intros [H _]. discriminate H.
  - destruct (Str.isWordChar c); cbn [negb andb].
    + rewrite IH. split; [|intros [_ H]; discriminate H].
      intros [H _]. destruct cur; discriminate H.
    + split.
      * intros H. apply app_eq_nil in H. destruct H as [H1 H2].
        apply IH in H2. destruct H2 as [_ H2].
        destruct cur; [auto|discriminate H1].
      * intros [-> H]. cbn [Str.flush app]. apply IH. auto.
Qed.

Lemma forallb_mapped (f : N -> bool) (g : N -> N) (l : list N) :
  forallb f (map g l) = forallb (fun x => f (g x)) l.
Proof. induction l as [|x l IH]; cbn [map forallb]; [reflexivity|now rewrite IH]. Qed.

(** X18: on a text whose code units lower-case as modelled (Basic Latin,
    Latin-1 and the curly apostrophe): the tokenizer lower-cases first, so
    the case of the text does not matter; it cuts at every code unit that
    is no letter of [a-z] and no apostrophe once lower-cased (digits,
    hyphens and punctuation cut like spaces do), the tokens of the two
    sides being found independently; each token is a non-empty string of
    [a-z] and apostrophes; and there is no token exactly when the text
    holds no such character. *)
Theorem tokenize_cuts (text : jsstring) :
  modelled text = true ->
  tokenize (Str.toLowerCase text) = tokenize text
  /\ Forall (fun w => isToken w = true) (tokenize text)
  /\ (tokenize text = []
      <-> forallb (fun c => negb (Str.isWordChar (Str.lowerChar c))) text = true)
  /\ (forall a c b, text = a ++ c :: b ->
        Str.isWordChar (Str.lowerChar c) = false ->
        tokenize text = tokenize a ++ tokenize b).
Proof.
  intros _. split; [|split; [apply tokenize_tokens|split]].
  - unfold tokenize.
    now rewrite (toLowerCase_lowered _ (lowered_toLowerCase text)).
  - unfold tokenize. split.
    + intros H. apply map_eq_nil in H. apply matchRuns_empty in H.
      destruct H as [_ H]. unfold Str.toLowerCase in H.
      now rewrite forallb_mapped in H.
    + intros H. replace (Str.matchRuns [] (Str.toLowerCase text)) with (@nil jsstring);
        [reflexivity|].
      symmetry. apply matchRuns_empty. split; [reflexivity|].
      unfold Str.toLowerCase. now rewrite forallb_mapped.
  - intros a c b -> Hc. unfold tokenize, Str.toLowerCase.
    rewrite map_app. cbn [map]. rewrite matchRuns_sep by exact Hc.
    now rewrite map_app.
Qed.

Lemma tokenize_cuts_witness :
  tokenize (js "E-Mail") = tokenize (js "E") ++ tokenize (js "Mail")
  /\ tokenize (js "E-Mail") = [js "e"; js "mail"].
Proof.
  assert (Hm : modelled (js "E-Mail") = true) by (vm_compute; reflexivity).
  destruct (tokenize_cuts (js "E-Mail") Hm) as (_ & _ & _ & H).
  assert (E : tokenize (js "E-Mail") = tokenize (js "E") ++ tokenize (js "Mail")).
  { apply (H (js "E") 45%N (js "Mail")); reflexivity. }
  split; [exact E|]. rewrite E. vm_compute. reflexivity.
Defined.

(* ------------------------------------------------------------------ *)
(** ** The longest phrase first *)

Lemma sortPhrases_sorted (l : list Phrase) :
  StronglySorted noFewerWords (sortPhrases l).
Proof.
  unfold sortPhrases.
  assert (G : forall acc, StronglySorted noFewerWords acc ->
                StronglySorted noFewerWords
                  (fold_left (fun acc x => insertPhrase x acc) l acc)).
  { induction l as [|x l IH]; intros acc Hacc; cbn [fold_left]; [exact Hacc|].
    apply IH. now apply insertPhrase_sorted. }
  apply G. constructor.
Qed.

Lemma findPhrase_sorted (phrases : list Phrase) (words : list jsstring)
    (i : nat) (p : Phrase) (len : nat) :
  StronglySorted noFewerWords phrases ->
  findPhrase phrases words i = Some (p, len) ->
  forall q, In q phrases -> partsMatch words i (Str.split (phrase q)) = true ->
            (wordCount q <= wordCount p)%nat.
Proof.
  induction 1 as [|y l Hs IH Hy]; cbn [findPhrase]; [discriminate|].
  cbv zeta. destruct (partsMatch words i (Str.split (phrase y))) eqn:E.
  - intros H q Hq _. injection H as <- _.
    destruct Hq as [<- | Hq]; [lia|].
    rewrite Forall_forall in Hy. apply (Hy q Hq).
  - intros H q [<- | Hq] Hm; [congruence|]. now apply IH.
Qed.

Lemma findPhrase_misses (phrases : list Phrase) (words : list jsstring) (i : nat) :
  findPhrase phrases words i = None
  <-> forall q, In q phrases -> partsMatch words i (Str.split (phrase q)) = false.
Proof.
  split; [|apply findPhrase_none].
  induction phrases as [|p phrases IH]; cbn [findPhrase]; [intros _ q []|].
  cbv zeta. destruct (partsMatch words i (Str.split (phrase p))) eqn:E;
    [discriminate|].
  intros H q [<- | Hq]; [exact E|now apply IH].
Qed.

(** X19: at a position where some entry of the extracted phrase list
    matches, the scorer's search returns one, and returns none only where
    no entry matches.  The entry it returns is one of the list whose words
    stand there, two or more and all within the text, and no entry that
    matches at that position has more words.  With "fed up" and "fed up
    with" both in the lexicon, the search at the start of "Fed up with
    it!" returns "fed up with", and at the start of "Fed up!" it returns
    "fed up". *)
Theorem longest_phrase_wins (lexicon : Lexicon) (words : list jsstring) (i : nat) :
  (findPhrase (extractPhrases lexicon) words i = None
   <-> forall q, In q (extractPhrases lexicon) ->
                 partsMatch words i (Str.split (phrase q)) = false)
  /\ (forall p len,
        findPhrase (extractPhrases lexicon) words i = Some (p, len) ->
        In p (extractPhrases lexicon)
        /\ partsMatch words i (Str.split (phrase p)) = true
        /\ len = wordCount p /\ (2 <= len)%nat /\ (i + len <= length words)%nat
        /\ forall q, In q (extractPhrases lexicon) ->
                     partsMatch words i (Str.split (phrase q)) = true ->
                     (wordCount q <= wordCount p)%nat)
  /\ (let lex := mkLexicon [(js "fed up", 1.5); (js "fed up with", 2.0)] [] [] in
      findPhrase (extractPhrases lex) (tokenize (js "Fed up with it!")) 0
      = Some (mkPhrase (js "fed up with") anger 2.0, 3%nat)
      /\ findPhrase (extractPhrases lex) (tokenize (js "Fed up!")) 0
         = Some (mkPhrase (js "fed up") anger 1.5, 2%nat)
      /\ findPhrase (extractPhrases lex) (tokenize (js "Fed up with it!")) 1
         = None).
Proof.
  split; [apply findPhrase_misses|].
  split; [|repeat split; vm_compute; reflexivity].
  intros p len H. destruct (findPhrase_some _ _ _ _ _ H) as (H1 & H2 & H3).
  pose proof (extracted_phrase_words lexicon p H1) as H4.
  pose proof (partsMatch_in_range _ _ _ H2 (split_nonempty _)) as H5.
  split; [exact H1|]. split; [exact H2|]. split; [exact H3|].
  split; [now rewrite H3|]. split; [now rewrite H3|].
  apply (findPhrase_sorted _ _ _ _ _ (sortPhrases_sorted _) H).
Qed.

(* ------------------------------------------------------------------ *)
(** ** One emotion alone *)

Lemma positive_result (text : jsstring) (lexicon : option Lexicon)
    (phrases : list Phrase) :
  let r := scoreTextWithContext text lexicon phrases in
  0 < res_anger r \/ 0 < res_joy r \/ 0 < res_sad r -> totalWords r <> 0%nat.
Proof.
  cbv zeta. unfold scoreTextWithContext, scoreWith. cbv zeta.
  destruct lexicon as [lex|].
  - destruct (Nat.eqb_spec (length (tokenize text)) 0) as [E|E].
    + cbn [res_anger res_joy res_sad]. intros [H|[H|H]]; discriminate H.
    + intros _. exact E.
  - cbn [res_anger res_joy res_sad]. intros [H|[H|H]]; discriminate H.
Qed.

Lemma lone_share (a j d : Q) :
  0 < a -> j == 0 -> d == 0 ->
  a / (a + j + d) == 1 /\ j / (a + j + d) == 0 /\ d / (a + j + d) == 0.
Proof.
  intros Ha Hj Hd. rewrite Hj, Hd. repeat split; field; lra.
Qed.

Lemma density_nonneg (h n : nat) : n <> 0%nat -> 0 <= num h / num n.
Proof.
  intros Hn. apply Qle_shift_div_l; [now apply num_pos|].
  pose proof (num_nonneg h). lra.
Qed.

(** X20: which way one emotion alone moves the blob, for a typed text
    within the embedding and a state whose weights are tame (no total
    overflows).  When anger is the only total above zero its share is 1,
    the speed target is at least 3 and the amplitude target at least 1.8;
    when joy is the only one, the speed target is at least 1.18 and the
    amplitude target at least 0.76, just above the base values 1 and 0.6;
    when sadness is the only one, the speed target is at most 0.5 and the
    amplitude target at most 0.36, below them. *)
Theorem lone_emotion_targets (value : jsstring) (now : Q) (s : App) :
  plainText value = true ->
  tameWeights (LEXICON s) (CACHED_PHRASES s) = true ->
  let r := scoreTextWithContext value (LEXICON s) (CACHED_PHRASES s) in
  let s' := onInput value now s in
  (0 < res_anger r -> res_joy r <= 0 -> res_sad r <= 0 ->
   dbgAngerPct s' == 1 /\ dbgJoyPct s' == 0 /\ dbgSadPct s' == 0
   /\ 3 <= targetSpeed s' <= 6 /\ 1.8 <= targetAmplitude s' <= 5)
  /\ (res_anger r <= 0 -> 0 < res_joy r -> res_sad r <= 0 ->
      dbgAngerPct s' == 0 /\ dbgJoyPct s' == 1 /\ dbgSadPct s' == 0
      /\ 1.18 <= targetSpeed s' <= 6 /\ 0.76 <= targetAmplitude s' <= 5)
  /\ (res_anger r <= 0 -> res_joy r <= 0 -> 0 < res_sad r ->
      dbgAngerPct s' == 0 /\ dbgJoyPct s' == 0 /\ dbgSadPct s' == 1
      /\ 0.2 <= targetSpeed s' <= 0.5 /\ 0.05 <= targetAmplitude s' <= 0.36).
Proof.
  intros _ _. cbv zeta.
  pose proof (positive_result value (LEXICON s) (CACHED_PHRASES s)) as T.
  cbv zeta in T. unfold onInput. cbv zeta. revert T.
  generalize (scoreTextWithContext value (LEXICON s) (CACHED_PHRASES s)) as result.
  intros result T.
  pose proof (clamp_bounds (typingEnergy s + 0.35) 0.0 1.0) as Be.
  pose proof (clamp_bounds (num (totalWords result) / 40) 0.0 1.0) as Bl.
  set (e := clamp (typingEnergy s + 0.35) 0.0 1.0) in *.
  set (l := clamp (num (totalWords result) / 40) 0.0 1.0) in *.
  assert (Be' : 0 <= e <= 1) by lra. assert (Bl' : 0 <= l <= 1) by lra.
  clear Be Bl.
  set (boost := 0.25 + e * 0.9 + l * 0.25).
  assert (Bb : 0.25 <= boost <= 1.4) by (unfold boost; lra).
  set (a := Math_max 0 (res_anger result)).
  set (j := Math_max 0 (res_joy result)).
  set (d := Math_max 0 (res_sad result)).
  assert (Pa : 0 < res_anger result -> 0 < a) by (intros H; unfold a; minmax; lra).
  assert (Pj : 0 < res_joy result -> 0 < j) by (intros H; unfold j; minmax; lra).
  assert (Pd : 0 < res_sad result -> 0 < d) by (intros H; unfold d; minmax; lra).
  assert (Za : res_anger result <= 0 -> a == 0) by (intros H; unfold a; minmax; lra).
  assert (Zj : res_joy result <= 0 -> j == 0) by (intros H; unfold j; minmax; lra).
  assert (Zd : res_sad result <= 0 -> d == 0) by (intros H; unfold d; minmax; lra).
  clearbody a j d boost e l.
  destruct (Nat.eqb_spec (totalWords result) 0) as [E|E].
  { repeat split; intros; exfalso; apply T; auto. }
  pose proof (density_nonneg (res_hits result) (totalWords result) E) as Dn.
  set (density := num (res_hits result) / num (totalWords result)) in *.
  clearbody density.
  unfold BASE_SPEED, BASE_AMP, ANGER_SPEED_BOOST, ANGER_AMP_BOOST,
         JOY_SPEED_BOOST, JOY_AMP_BOOST, SAD_SPEED_DROP, SAD_AMP_DROP.
  split; [|split]; intros Ha Hj Hd.
  - specialize (Pa Ha). specialize (Zj Hj). specialize (Zd Hd).
    destruct (lone_share a j d Pa Zj Zd) as (S1 & S2 & S3).
    destruct (Qeq_bool (a + j + d) 0) eqn:Eq;
      [apply Qeq_bool_iff in Eq; lra|].
    unfold afterInput. cbn [dbgAngerPct dbgJoyPct dbgSadPct targetSpeed targetAmplitude].
    set (pa := a / (a + j + d)) in *. set (pj := j / (a + j + d)) in *.
    set (pd := d / (a + j + d)) in *. clearbody pa pj pd.
    split; [exact S1|]. split; [exact S2|]. split; [exact S3|].
    assert (X1 : 1.0 + pa * 2.0 * (1 + density * 12) + pj * 0.1 * (1 + density * 12)
                 - pd * 1.0 * (1 + density * 12) + boost * 0.35
                 == 1 + 2 * (1 + density * 12) + boost * 0.35)
      by (rewrite S1, S2, S3; ring).
    assert (X2 : 0.6 + pa * 1.2 * (1 + density * 12) + pj * 0.1 * (1 + density * 12)
                 - pd * 0.6 * (1 + density * 12) + boost * 0.25
                 == 0.6 + 1.2 * (1 + density * 12) + boost * 0.25)
      by (rewrite S1, S2, S3; ring).
    unfold clamp. split; minmax; lra.
  - specialize (Za Ha). specialize (Pj Hj). specialize (Zd Hd).
    assert (S : j / (j + a + d) == 1 /\ a / (j + a + d) == 0 /\ d / (j + a + d) == 0)
      by now apply lone_share.
    assert (Es : j + a + d == a + j + d) by ring.
    rewrite Es in S. destruct S as (S2 & S1 & S3).
    destruct (Qeq_bool (a + j + d) 0) eqn:Eq;
      [apply Qeq_bool_iff in Eq; lra|].
    unfold afterInput. cbn [dbgAngerPct dbgJoyPct dbgSadPct targetSpeed targetAmplitude].
    set (pa := a / (a + j + d)) in *. set (pj := j / (a + j + d)) in *.
    set (pd := d / (a + j + d)) in *. clearbody pa pj pd.
    split; [exact S1|]. split; [exact S2|]. split; [exact S3|].
    assert (X1 : 1.0 + pa * 2.0 * (1 + density * 12) + pj * 0.1 * (1 + density * 12)
                 - pd * 1.0 * (1 + density * 12) + boost * 0.35
                 == 1 + 0.1 * (1 + density * 12) + boost * 0.35)
      by (rewrite S1, S2, S3; ring).
    assert (X2 : 0.6 + pa * 1.2 * (1 + density * 12) + pj * 0.1 * (1 + density * 12)
                 - pd * 0.6 * (1 + density * 12) + boost * 0.25
                 == 0.6 + 0.1 * (1 + density * 12) + boost * 0.25)
      by (rewrite S1, S2, S3; ring).
    unfold clamp. split; minmax; lra.
  - specialize (Za Ha). specialize (Zj Hj). specialize (Pd Hd).
    assert (S : d / (d + a + j) == 1 /\ a / (d + a + j) == 0 /\ j / (d + a + j) == 0)
      by now apply lone_share.
    assert (Es : d + a + j == a + j + d) by ring.
    rewrite Es in S. destruct S as (S3 & S1 & S2).
    destruct (Qeq_bool (a + j + d) 0) eqn:Eq;
      [apply Qeq_bool_iff in Eq; lra|].
    unfold afterInput. cbn [dbgAngerPct dbgJoyPct dbgSadPct targetSpeed targetAmplitude].
    set (pa := a / (a + j + d)) in *. set (pj := j / (a + j + d)) in *.
    set (pd := d / (a + j + d)) in *. clearbody pa pj pd.
    split; [exact S1|]. split; [exact S2|]. split; [exact S3|].
    assert (X1 : 1.0 + pa * 2.0 * (1 + density * 12) + pj * 0.1 * (1 + density * 12)
                 - pd * 1.0 * (1 + density * 12) + boost * 0.35
                 == 1 - (1 + density * 12) + boost * 0.35)
      by (rewrite S1, S2, S3; ring).
    assert (X2 : 0.6 + pa * 1.2 * (1 + density * 12) + pj * 0.1 * (1 + density * 12)
                 - pd * 0.6 * (1 + density * 12) + boost * 0.25
                 == 0.6 - 0.6 * (1 + density * 12) + boost * 0.25)
      by (rewrite S1, S2, S3; ring).
    unfold clamp. split; minmax; lra.
Qed.

Lemma lone_emotion_targets_witness :
  3 <= targetSpeed (onInput (js "So angry!") 0 (runApp [Loaded None])) <= 6
  /\ targetSpeed (onInput (js "so sad") 0 (runApp [Loaded None])) <= 0.5.
Proof.
  assert (Hw : tameWeights (LEXICON (runApp [Loaded None]))
                           (CACHED_PHRASES (runApp [Loaded None])) = true)
    by (vm_compute; reflexivity).
  split.
  - assert (Ht : plainText (js "So angry!") = true) by (vm_compute; reflexivity).
    destruct (lone_emotion_targets (js "So angry!") 0 (runApp [Loaded None]) Ht Hw)
      as (H & _).
    refine (proj1 (proj2 (proj2 (proj2 (H _ _ _))))); vm_compute;
      first [reflexivity | discriminate].
  - assert (Ht : plainText (js "so sad") = true) by (vm_compute; reflexivity).
    destruct (lone_emotion_targets (js "so sad") 0 (runApp [Loaded None]) Ht Hw)
      as (_ & _ & H).
    refine (proj2 (proj1 (proj2 (proj2 (proj2 (H _ _ _)))))); vm_compute;
      first [reflexivity | discriminate].
Defined.

(* ------------------------------------------------------------------ *)
(** ** Intensifiers as typed *)

(** One intensifier before a word: its token, the intensity that token
    gives the next word, and whether the token is the listed spelling. *)
Ltac intensifier_case M tx :=
  let V := eval vm_compute in (normalizeToken M) in
  let F := eval vm_compute in (orElse (get INTENSIFIERS M) 1) in
  let I := eval vm_compute in (intensityAt [V; tx] 1) in
  let En := fresh "En" in
  assert (En : normalizeToken M = V) by (vm_compute; reflexivity);
  rewrite !En; clear En;
  let R := fresh "R" in
  assert (R : forall w, contribution DIMINISHERS [V; tx]
                          (findIndex isContrast [V; tx]) 1 w == I * w);
  [ let w := fresh "w" in
    intros w; unfold contribution; cbv zeta;
    replace (intensityAt [V; tx] 1) with I by (vm_compute; reflexivity);
    replace (softenAt DIMINISHERS [V; tx] 1) with 1.0 by (vm_compute; reflexivity);
    replace (isNegatedAt [V; tx] 1) with false by (vm_compute; reflexivity);
    replace (afterPivot (findIndex isContrast [V; tx]) 1) with false
      by (unfold findIndex; cbn [findIndexFrom];
          replace (isContrast V) with false by (vm_compute; reflexivity);
          destruct (isContrast tx); reflexivity);
    ring
  | exists F; split; [vm_compute; reflexivity|];
    let b := eval vm_compute in (Str.eqb V M) in
    lazymatch b with
    | true =>
        split; [intros _; destruct (get _ tx); cbn [orElse]; [rewrite R|]; ring|];
        split; [intros N; elim N; reflexivity|];
        split; [intros N; elim N; reflexivity|];
        let D := fresh "D" in
        intros D; exfalso; apply has_in in D; vm_compute in D; discriminate D
    | false =>
        split; [intros E; exfalso; revert E; apply eqb_neq; vm_compute; reflexivity|];
        split; [intros _; destruct (get _ tx); cbn [orElse]; [rewrite R|]; ring|];
        split; [intros _; apply has_in; vm_compute; reflexivity|];
        intros _; apply eqb_neq; vm_compute; reflexivity
    end ].

(** X21: an intensifier typed in front of a word multiplies the word's
    weight only if the tokenizer leaves its spelling alone.  "very", "so"
    and "super" do; "really", "extremely", "incredibly" and "insanely" end
    in a suffix that is stripped, their tokens are in no table, and the
    word after them scores its plain weight. *)
Theorem listed_intensifiers_as_typed (text m x : jsstring) (lexicon : Lexicon)
    (phrases : list Phrase) (e : emotion) :
  Str.matchRuns [] (Str.toLowerCase text) = [m; x] ->
  In m (keys INTENSIFIERS) ->
  phraseFree phrases (tokenize text) ->
  get (tableOf lexicon e) (normalizeToken m) = None ->
  let r := scoreTextWithContext text (Some lexicon) phrases in
  let w := orElse (get (tableOf lexicon e) (normalizeToken x)) 0 in
  exists f, get INTENSIFIERS m = Some f
    /\ (normalizeToken m = m -> resultOf r e == f * w)
    /\ (normalizeToken m <> m -> resultOf r e == w)
    /\ (normalizeToken m <> m
        <-> In m [js "really"; js "extremely"; js "incredibly"; js "insanely"]).
Proof.
  intros Hr Hm Hp Hg. cbv zeta.
  assert (Ht : tokenize text = [normalizeToken m; normalizeToken x])
    by (unfold tokenize; rewrite Hr; reflexivity).
  pose proof (phraseFree_score DIMINISHERS text lexicon phrases e Hp) as H.
  cbv zeta in H. unfold scoreTextWithContext, resultOf. rewrite H. clear H Hp.
  rewrite Ht. cbn [length seq fold_left wordOr nth]. rewrite Hg. clear Hg Ht Hr.
  set (tx := normalizeToken x). clearbody tx.
  vm_compute in Hm.
  repeat (destruct Hm as [<- | Hm]); try contradiction.
  all: match goal with
       | |- exists f, get INTENSIFIERS ?M = Some f /\ _ => intensifier_case M tx
       end.
Qed.

Lemma listed_intensifiers_as_typed_witness :
  res_anger (scoreTextWithContext (js "Really angry")
               (Some (mkLexicon [(js "angry", 1.0)] [] [])) []) == 1.0
  /\ res_anger (scoreTextWithContext (js "very angry")
                  (Some (mkLexicon [(js "angry", 1.0)] [] [])) []) == 1.6.
Proof.
  assert (Hp : forall text, phraseFree [] (tokenize text)) by (intros text i; reflexivity).
  split.
  - assert (Hr : Str.matchRuns [] (Str.toLowerCase (js "Really angry"))
                 = [js "really"; js "angry"]) by (vm_compute; reflexivity).
    assert (Hm : In (js "really") (keys INTENSIFIERS))
      by (apply has_in; vm_compute; reflexivity).
    assert (Hg : get (tableOf (mkLexicon [(js "angry", 1.0)] [] []) anger)
                     (normalizeToken (js "really")) = None)
      by (vm_compute; reflexivity).
    destruct (listed_intensifiers_as_typed (js "Really angry") (js "really")
                (js "angry") (mkLexicon [(js "angry", 1.0)] [] []) [] anger
                Hr Hm (Hp _) Hg) as (f & _ & _ & H & _).
    unfold resultOf in H. rewrite H.
    + vm_compute. reflexivity.
    + apply eqb_neq. vm_compute. reflexivity.
  - assert (Hr : Str.matchRuns [] (Str.toLowerCase (js "very angry"))
                 = [js "very"; js "angry"]) by (vm_compute; reflexivity).
    assert (Hm : In (js "very") (keys INTENSIFIERS))
      by (apply has_in; vm_compute; reflexivity).
    assert (Hg : get (tableOf (mkLexicon [(js "angry", 1.0)] [] []) anger)
                     (normalizeToken (js "very")) = None)
      by (vm_compute; reflexivity).
    destruct (listed_intensifiers_as_typed (js "very angry") (js "very")
                (js "angry") (mkLexicon [(js "angry", 1.0)] [] []) [] anger
                Hr Hm (Hp _) Hg) as (f & Hf & H & _).
    unfold resultOf in H. rewrite H.
    + vm_compute in Hf. injection Hf as <-. vm_compute. reflexivity.
    + vm_compute. reflexivity.
Defined.

(* ------------------------------------------------------------------ *)
(** ** A text the lexicon does not know *)

Lemma idle_loop (words : list jsstring) (lexicon : Lexicon)
    (phrases : list Phrase) (c : Z) (l : list nat) (st : LoopState) :
  phraseFree phrases words ->
  (forall i e, In i l -> get (tableOf lexicon e) (wordOr words i) = None) ->
  (forall i, nth i (used st) false = false) ->
  fold_left (iteration DIMINISHERS words lexicon phrases c) l st = st.
Proof.
  intros Hp. induction l as [|i l IH]; intros Hg Hu; cbn [fold_left];
    [reflexivity|].
  rewrite iteration_idle;
    [|apply Hu|apply Hp|intros e; apply Hg; now left].
  apply IH; [|exact Hu]. intros j e Hj. apply Hg. now right.
Qed.

(** X22: a text within the embedding none of whose tokens is a key of
    any table, and in which no phrase matches, scores nothing: the three
    totals and the hits are 0, and only the word count tells it from the
    empty text. *)
Theorem unknown_text_scores_nothing (text : jsstring) (lexicon : Lexicon)
    (phrases : list Phrase) :
  plainText text = true ->
  phraseFree phrases (tokenize text) ->
  (forall w e, In w (tokenize text) -> get (tableOf lexicon e) w = None) ->
  scoreTextWithContext text (Some lexicon) phrases
  = mkResult 0 0 0 0 (length (tokenize text)).
Proof.
  intros _ Hp Hg. unfold scoreTextWithContext. rewrite score_result. cbv zeta.
  unfold runLoop. rewrite idle_loop; [reflexivity|exact Hp| |].
  - intros i e Hi. apply Hg. apply in_seq in Hi. unfold wordOr.
    apply nth_In. lia.
  - intros i. apply nth_repeat_false.
Qed.

Lemma unknown_text_scores_nothing_witness :
  scoreTextWithContext (js "the weather report") (Some buildFallbackLexicon) []
  = mkResult 0 0 0 0 3.
Proof.
  apply (unknown_text_scores_nothing (js "the weather report") buildFallbackLexicon []).
  - vm_compute. reflexivity.
  - intros i. reflexivity.
  - assert (Ht : tokenize (js "the weather report")
                 = [js "the"; js "weath"; js "report"]) by (vm_compute; reflexivity).
    rewrite Ht. intros w e [<- | [<- | [<- | []]]]; destruct e; reflexivity.
Defined.
